(** * SMRT orchestration layer: runners, plugin broadcasting, result algebra

    A shallow embedding of the orchestration code of SMRT
    ([smrt/core/model.py], [smrt/core/interface.py], [smrt/core/result.py])
    and the properties its design document states about it.

    Python values are embedded as inductive types, dictionaries as [gmap],
    raised exceptions as the left summand of [res]. *)

From Stdlib Require Import ZArith Lia.
From stdpp Require Import gmap strings list fin_maps.

Local Open Scope string_scope.
Local Open Scope list_scope.

(** ** Python runtime: exceptions, ranges, slices *)

Module Py.

(** The exception classes this code can surface.  [SMRTError] is the
    repository's own class; the others are Python built-ins. *)
Inductive exn : Type :=
| SMRTError (msg : string)
| DeprecationWarning (msg : string)
| AssertionError
| ValueError
| TypeError
| KeyError
| IndexError
| AttributeError.

Definition res : Type → Type := sum exn.

Definition raise {A} (e : exn) : res A := inl e.

#[export] Instance res_ret : MRet res := λ A x, inr x.
#[export] Instance res_bind : MBind res :=
  λ A B f m, match m with inl e => inl e | inr x => f x end.
#[export] Instance res_fmap : FMap res :=
  λ A B f m, match m with inl e => inl e | inr x => inr (f x) end.

Definition is_ok {A} (m : res A) : bool :=
  match m with inr _ => true | inl _ => false end.

Definition is_SMRTError {A} (m : res A) : bool :=
  match m with inl (SMRTError _) => true | _ => false end.

(** [range(start, stop, step)]: a zero step raises [ValueError]. *)
Definition range (start stop step : Z) : res (list Z) :=
  if decide (step = 0)%Z then raise ValueError
  else if decide (0 < step)%Z then
    mret ((λ k : nat, start + Z.of_nat k * step)%Z
            <$> seq 0 (Z.to_nat ((stop - start + step - 1) `div` step)))
  else
    mret ((λ k : nat, start + Z.of_nat k * step)%Z
            <$> seq 0 (Z.to_nat ((start - stop - step - 1) `div` (- step)))).

(** [l[i:j]] for bounds [0 <= i]; a stop below the start gives the empty
    list, a stop past the end is clipped. *)
Definition slice {A} (l : list A) (i j : Z) : list A :=
  take (Z.to_nat (j - i)) (drop (Z.to_nat i) l).

(** [len(l)] as a Python integer. *)
Definition len {A} (l : list A) : Z := Z.of_nat (length l).

End Py.

Import Py.

(** ** Runners ([smrt/core/model.py]) *)

Module Runner.

Section Runners.
(** A unit function takes one argument tuple and returns a result or
    raises. *)
Context {A R : Type}.

(** [SequentialRunner.__call__]:
    a list comprehension calling [function] on every element of
    [argument_list], in order. *)
Definition SequentialRunner (function : A → res R) (argument_list : list A)
  : res (list R) :=
  mapM function argument_list.

(** joblib: [delayed(function)] applied to an argument tuple records the
    call without running it; [Parallel(...)] runs the recorded calls and
    returns their results as a list in the order the calls were submitted,
    re-raising when one of them raised.  (When several calls raise, which
    exception a pool reports depends on timing; here it is the one of the
    first failing call in submission order.) *)
Definition delayed (function : A → res R) (args : A) : (A → res R) * A :=
  (function, args).

Definition Parallel (tasks : list ((A → res R) * A)) : res (list R) :=
  mapM (λ t, t.1 t.2) tasks.

(** [JoblibParallelRunner.__call__]. *)
Definition JoblibParallelRunner (function : A → res R)
    (argument_list : list A) : res (list R) :=
  Parallel (delayed function <$> argument_list).

(** dask.distributed: [client.map(f, xs)] submits one task per element
    and returns their futures in the order of [xs]; a future holds the
    outcome of its task.  [client.gather(futures)] returns the results in
    the order of the futures, re-raising when one of them raised. *)
Definition client_map (f : A → res R) (xs : list A) : list (res R) :=
  f <$> xs.

Definition client_gather (futures : list (res R)) : res (list R) :=
  mapM id futures.

(** [DaskParallelRunner.__call__], [chunk] being [self.chunk]. *)
Definition DaskParallelRunner (chunk : Z) (function : A → res R)
    (argument_list : list A) : res (list R) :=
  let function_with_single_numerical_threads args := function args in
  let n := chunk in
  starts ← range 0 (len argument_list) n;
  let futures :=
    foldl (λ futures i,
             let args := slice argument_list i (i + n) in
             futures ++ client_map function_with_single_numerical_threads args)
          [] starts in
  client_gather futures.
End Runners.

End Runner.

(** ** Values, labelled arrays and results ([smrt/core/result.py]) *)

Module Data.

(** Floating-point numbers and numpy's scalar functions are external to the
    repository; they are kept abstract.  [F_eq_dec] stands for Python's
    [==] on numbers. *)
Class Numeric : Type := {
  F : Type;
  F_eq_dec :: EqDecision F;
  of_Z : Z → F;
  fmul : F → F → F;
  np_pi : F;
  np_cos : F → F;
  np_deg2rad : F → F;
  np_log10 : F → F;
}.

Section Values.
Context `{Numeric}.

(** Scalar Python values: [None], a number, a text string. *)
Inductive atom : Type :=
| ANone
| ANum (x : F)
| AStr (s : string).

(** A Python value as it occurs in keyword arguments and channel maps:
    a scalar or a list of scalars. *)
Inductive pyval : Type :=
| VAtom (a : atom)
| VSeq (l : list atom).

#[export] Instance atom_eq_dec : EqDecision atom.
Proof. solve_decision. Defined.

#[export] Instance pyval_eq_dec : EqDecision pyval.
Proof. solve_decision. Defined.

Definition VNone : pyval := VAtom ANone.
Definition VNum (x : F) : pyval := VAtom (ANum x).
Definition VStr (s : string) : pyval := VAtom (AStr s).

(** [pd.Index(values, name=...)]. *)
Record Index : Type := mkIndex {
  index_name : option string;
  index_labels : list atom;
}.

(** [xarray.DataArray]: the dimensions in order, each with its coordinate
    labels; the scalar (non-dimension) coordinates; the numbers, flattened
    in row-major order. *)
Record DataArray : Type := mkDataArray {
  axes : list (string * list atom);
  scalar_coords : list (string * atom);
  values : list F;
}.

Definition dims (x : DataArray) : list string := (axes x).*1.

Definition shape (x : DataArray) : list nat := (λ a, length a.2) <$> axes x.

(** [x.size]: the product of the shape. *)
Definition size (x : DataArray) : nat := foldr Nat.mul 1%nat (shape x).

(** The invariant xarray maintains between shape and data. *)
Definition wf (x : DataArray) : Prop := length (values x) = size x.

(** ['name' in x.coords]. *)
Definition in_coords (name : string) (x : DataArray) : bool :=
  bool_decide (name ∈ dims x ∨ name ∈ (scalar_coords x).*1).

(** [x.squeeze()]: every dimension of length one is removed; its label
    stays as a scalar coordinate; the data are not touched. *)
Definition squeeze (x : DataArray) : DataArray :=
  {| axes := filter (λ a, length a.2 ≠ 1%nat) (axes x);
     scalar_coords :=
       scalar_coords x
         ++ omap (λ a, match a.2 with [v] => Some (a.1, v) | _ => None end)
                 (axes x);
     values := values x |}.

(** [float(x)]: only an array holding one number converts. *)
Definition to_float (x : DataArray) : res F :=
  match values x with
  | [v] => mret v
  | _ => raise TypeError
  end.

(** A coordinate read as an attribute ([x.theta_inc]). *)
Inductive coordinate : Type :=
| Coord1 (labels : list atom)
| Coord0 (label : atom).

Definition get_coord (x : DataArray) (name : string) : res coordinate :=
  match list_find (λ a, a.1 = name) (axes x) with
  | Some (_, a) => mret (Coord1 a.2)
  | None =>
      match list_find (λ a, a.1 = name) (scalar_coords x) with
      | Some (_, a) => mret (Coord0 a.2)
      | None => raise AttributeError
      end
  end.

(** What [sel] accepts for a dimension: a Python value or a coordinate
    array. *)
Inductive indexer : Type :=
| IVal (v : pyval)
| ICoord (c : coordinate).

(** The array library (xarray on numpy) is external: label-based
    selection, concatenation along a new dimension and broadcasting
    arithmetic are taken as given. *)
Class XArray : Type := {
  (** [x.sel(drop=..., **indexers)] *)
  xr_sel : bool → DataArray → gmap string indexer → res DataArray;
  (** [xr.concat(arrays, index)] *)
  xr_concat : list DataArray → Index → res DataArray;
  (** [a / b] on two arrays *)
  xr_div : DataArray → DataArray → res DataArray;
  (** [factors * x] with [factors] a numpy vector *)
  np_mul : list F → DataArray → res DataArray;
  (** [factors * x] with [factors] computed on a coordinate of the data *)
  xr_mul : coordinate → list F → DataArray → res DataArray;
  (** [pd.Index(data, second)] called with two positional arguments *)
  pd_Index_positional : list atom → string → res Index;
  (** [np.all(a == b)] on two filter values.  Values that compare equal
      are the same value, but a value need not compare equal to itself:
      a NaN does not. *)
  np_all_eq : pyval → pyval → bool;
  np_all_eq_same : ∀ a b, np_all_eq a b = true → a = b;
}.

(** The two concrete result classes. *)
Inductive ResultClass : Type := ClsPassiveResult | ClsActiveResult.

#[export] Instance ResultClass_eq_dec : EqDecision ResultClass.
Proof. solve_decision. Defined.

(** The class attribute [mode]. *)
Definition mode (c : ResultClass) : string :=
  match c with ClsPassiveResult => "P" | ClsActiveResult => "A" end.

(** A result object: its class, [self.data] and [self.channel_map]. *)
Record Result : Type := mkResult {
  type : ResultClass;
  data : DataArray;
  channel_map : gmap string (gmap string pyval);
}.

(** The [coord] argument of [concat_results], also an element of the
    dimension list of [Model.run]: a tuple (name, values), a [pd.Index],
    or anything else. *)
Inductive coord : Type :=
| CoordTuple (dim_name : string) (dim_value : list atom)
| CoordIndex (index : Index)
| CoordOther.

(** What a squeezing accessor returns: a bare float or an array. *)
Inductive out : Type :=
| OFloat (v : F)
| OArray (x : DataArray).
End Values.

End Data.

Import Data.

Module Result.

Section Results.
Context `{XArray}.

(** Modelled from the spec: [smrt.utils.dB], which is not among the
    sources; decibel values are ten times the decimal logarithm, taken
    elementwise on an array. *)
Definition dB_float (v : F) : F := fmul (of_Z 10) (np_log10 v).

Definition dB_array (x : DataArray) : DataArray :=
  {| axes := axes x; scalar_coords := scalar_coords x;
     values := dB_float <$> values x |}.

Definition dB (o : out) : out :=
  match o with
  | OFloat v => OFloat (dB_float v)
  | OArray x => OArray (dB_array x)
  end.

(** [_strongsqueeze]. *)
Definition _strongsqueeze (x : DataArray) : res out :=
  let x := squeeze x in
  if decide (size x = 1%nat) then OFloat <$> to_float x
  else mret (OArray x).

(** An accessor that squeezes a selection. *)
Definition squeezed (selection : res DataArray) : res out :=
  x ← selection; _strongsqueeze x.

(** [dict(m, dim_name=dv)] with [m] unpacked as keywords: the added key
    is the literal word, and a key of that name already in [m] is a
    duplicate keyword. *)
Definition tag_channels (cm : gmap string (gmap string pyval)) (dv : atom)
  : res (gmap string (gmap string pyval)) :=
  if decide (map_Forall (λ _ m, m !! "dim_name" = None) cm)
  then mret ((λ m, <["dim_name" := VAtom dv]> m) <$> cm)
  else raise TypeError.

(** The dictionary comprehension over [zip(result_list, dim_value)]: a
    channel met again replaces the entry written before. *)
Definition merge_channel_maps (result_list : list Result)
    (dim_value : list atom) : res (gmap string (gmap string pyval)) :=
  foldl (λ acc rdv,
           acc ← acc;
           tagged ← tag_channels (channel_map rdv.1) rdv.2;
           mret (tagged ∪ acc))
        (mret ∅) (zip result_list dim_value).

(** [concat_results]. *)
Definition concat_results (result_list : list Result) (c : coord)
  : res Result :=
  index ← match c with
           | CoordTuple dim_name dim_value =>
               mret (mkIndex (Some dim_name) dim_value)
           | CoordIndex index => mret index
           | CoordOther =>
               raise (SMRTError "unknown type for the coord argument")
           end;
  r0 ← match result_list with
        | r0 :: _ => mret r0
        | [] => raise IndexError
        end;
  let ResultCls := type r0 in
  if negb (forallb (λ result, bool_decide (type result = ResultCls))
                   result_list)
  then raise (SMRTError "The results are not all of the same type")
  else
    cm ← (if existsb (λ r, bool_decide (channel_map r ≠ channel_map r0))
                      result_list
           then match c with
                | CoordTuple dim_name dim_value =>
                    merge_channel_maps result_list dim_value
                | _ => raise AssertionError
                end
           else mret (channel_map r0));
    d ← xr_concat (data <$> result_list) index;
    mret (mkResult ResultCls d cm).

(** The first lines of both [sel_data] methods: with a channel, the
    entries of [channel_map[channel]] whose key is in [self.data.dims]
    update the keyword filters. *)
Definition channel_filter (r : Result) (channel : option string)
    (kwargs : gmap string pyval) : res (gmap string pyval) :=
  match channel with
  | None => mret kwargs
  | Some ch =>
      match channel_map r !! ch with
      | None => raise KeyError
      | Some recorded =>
          mret (filter (λ kv, kv.1 ∈ dims (data r)) recorded ∪ kwargs)
      end
  end.

Definition indexers (kwargs : gmap string pyval) : gmap string indexer :=
  IVal <$> kwargs.
End Results.

End Result.

Module PassiveResult.

Section Methods.
Context `{XArray}.

(** [PassiveResult.sel_data]; [drop=True] is passed next to the unpacked
    filters, so a filter of that name is a duplicate keyword. *)
Definition sel_data (self : Result) (channel : option string)
    (kwargs : gmap string pyval) : res DataArray :=
  kwargs ← Result.channel_filter self channel kwargs;
  if decide (is_Some (kwargs !! "drop")) then raise TypeError
  else xr_sel true (data self) (Result.indexers kwargs).

Definition Tb (self : Result) (channel : option string)
    (kwargs : gmap string pyval) : res out :=
  x ← sel_data self channel kwargs;
  Result._strongsqueeze x.

(** [self.data.sel(polarization=p, **kwargs)]. *)
Definition sel_polarization (self : Result) (p : string)
    (kwargs : gmap string pyval) : res DataArray :=
  if decide (is_Some (kwargs !! "polarization")) then raise TypeError
  else xr_sel false (data self)
         (Result.indexers (<["polarization" := VStr p]> kwargs)).

Definition TbV (self : Result) (kwargs : gmap string pyval) : res out :=
  x ← sel_polarization self "V" kwargs;
  Result._strongsqueeze x.

Definition TbH (self : Result) (kwargs : gmap string pyval) : res out :=
  x ← sel_polarization self "H" kwargs;
  Result._strongsqueeze x.

(** [ratio[0]] and [ratio[-1]]. *)
Definition first_char (s : string) : res string :=
  match String.get 0 s with
  | Some c => mret (String c EmptyString)
  | None => raise IndexError
  end.

Definition last_char (s : string) : res string :=
  match String.get (String.length s - 1) s with
  | Some c => mret (String c EmptyString)
  | None => raise IndexError
  end.

Definition polarization_ratio (self : Result) (ratio : string)
    (kwargs : gmap string pyval) : res out :=
  p ← first_char ratio;
  a ← sel_polarization self p kwargs;
  q ← last_char ratio;
  b ← sel_polarization self q kwargs;
  x ← xr_div a b;
  Result._strongsqueeze x.
End Methods.

End PassiveResult.

Module ActiveResult.

Section Methods.
Context `{XArray}.

(** The [return_backscatter] argument: [False], [True] or a string. *)
Inductive backscatter_flag : Type :=
| BFalse
| BTrue
| BStr (s : string).

#[export] Instance backscatter_flag_eq_dec : EqDecision backscatter_flag.
Proof. solve_decision. Defined.

Definition truthy (b : backscatter_flag) : bool :=
  match b with
  | BFalse => false
  | BTrue => true
  | BStr s => bool_decide (s ≠ "")
  end.

(** The resolved angle: a filter value, or the [theta_inc] coordinate of
    the data. *)
Inductive angle : Type :=
| AngVal (v : pyval)
| AngCoord (c : coordinate).

(** The local function [select_theta], called with [drop=True] and the
    remaining filters unpacked; [x] and [drop] are then duplicates. *)
Definition select_theta (x : DataArray) (theta : indexer)
    (kwargs : gmap string pyval) : res DataArray :=
  if decide (is_Some (kwargs !! "drop") ∨ is_Some (kwargs !! "x"))
  then raise TypeError
  else if in_coords "theta" x then
    xr_sel true x
      (<["theta" := theta]> (<["theta_inc" := theta]> (Result.indexers kwargs)))
  else
    xr_sel true x (<["theta_inc" := theta]> (Result.indexers kwargs)).

(** [4 * np.pi * np.cos(np.deg2rad(theta))] on one angle. *)
Definition angle_factor (a : atom) : res F :=
  match a with
  | ANum t => mret (fmul (fmul (of_Z 4) np_pi) (np_cos (np_deg2rad t)))
  | _ => raise TypeError
  end.

Definition coordinate_labels (c : coordinate) : list atom :=
  match c with Coord1 l => l | Coord0 a => [a] end.

(** The product of that factor with the selection. *)
Definition backscatter (theta : angle) (x : DataArray) : res DataArray :=
  match theta with
  | AngVal (VAtom a) =>
      f ← angle_factor a;
      mret {| axes := axes x; scalar_coords := scalar_coords x;
              values := fmul f <$> values x |}
  | AngVal (VSeq l) => fs ← mapM angle_factor l; np_mul fs x
  | AngCoord c => fs ← mapM angle_factor (coordinate_labels c); xr_mul c fs x
  end.

(** [ActiveResult.sel_data]. *)
Definition sel_data (self : Result) (channel : option string)
    (return_backscatter : backscatter_flag) (kwargs : gmap string pyval)
  : res DataArray :=
  kwargs ← Result.channel_filter self channel kwargs;
  if truthy return_backscatter then
    let theta := default VNone (kwargs !! "theta") in
    let kwargs := delete "theta" kwargs in
    let theta_inc := default VNone (kwargs !! "theta_inc") in
    let kwargs := delete "theta_inc" kwargs in
    if bool_decide (theta ≠ VNone ∧ theta_inc ≠ VNone)
       && negb (np_all_eq theta_inc theta)
    then raise (SMRTError
           "theta and theta_inc must be the same when returning backscatter")
    else
      let theta := if decide (theta = VNone) then theta_inc else theta in
      theta ← (if decide (theta = VNone)
                then AngCoord <$> get_coord (data self) "theta_inc"
                else mret (AngVal theta));
      x ← match theta with
           | AngVal (VSeq l) =>
               xs ← mapM (λ t, select_theta (data self) (IVal (VAtom t)) kwargs) l;
               index ← pd_Index_positional l "theta_inc";
               xr_concat xs index
           | AngVal v => select_theta (data self) (IVal v) kwargs
           | AngCoord c => select_theta (data self) (ICoord c) kwargs
           end;
      x ← backscatter theta x;
      mret (if decide (return_backscatter = BStr "dB")
            then Result.dB_array x else x)
  else
    if decide (is_Some (kwargs !! "drop")) then raise TypeError
    else xr_sel true (data self) (Result.indexers kwargs).

(** [sigma] and [sigma_dB] pass [return_backscatter] next to the
    unpacked filters. *)
Definition sigma (self : Result) (channel : option string)
    (kwargs : gmap string pyval) : res out :=
  if decide (is_Some (kwargs !! "return_backscatter")) then raise TypeError
  else
    x ← sel_data self channel (BStr "natural") kwargs;
    Result._strongsqueeze x.

Definition sigma_dB (self : Result) (channel : option string)
    (kwargs : gmap string pyval) : res out :=
  if decide (is_Some (kwargs !! "return_backscatter")) then raise TypeError
  else
    x ← sel_data self channel (BStr "dB") kwargs;
    Result._strongsqueeze x.

(** [self.sigma(polarization_inc=pi, polarization=p, **kwargs)]. *)
Definition sigma_pol (self : Result) (p_inc p : string)
    (channel : option string) (kwargs : gmap string pyval) : res out :=
  if decide (is_Some (kwargs !! "polarization_inc")
             ∨ is_Some (kwargs !! "polarization"))
  then raise TypeError
  else sigma self channel
         (<["polarization_inc" := VStr p_inc]>
            (<["polarization" := VStr p]> kwargs)).

Definition sigmaVV := λ self, sigma_pol self "V" "V".
Definition sigmaHH := λ self, sigma_pol self "H" "H".
Definition sigmaHV := λ self, sigma_pol self "H" "V".
Definition sigmaVH := λ self, sigma_pol self "V" "H".

Definition sigmaVV_dB self channel kwargs :=
  Result.dB <$> sigmaVV self channel kwargs.
Definition sigmaHH_dB self channel kwargs :=
  Result.dB <$> sigmaHH self channel kwargs.
Definition sigmaHV_dB self channel kwargs :=
  Result.dB <$> sigmaHV self channel kwargs.
Definition sigmaVH_dB self channel kwargs :=
  Result.dB <$> sigmaVH self channel kwargs.
End Methods.

End ActiveResult.

(** ** Interfaces and substrates ([smrt/core/interface.py]) *)

Module Interface.

Section Plugins.
Context `{Numeric}.

(** An object: the methods its class gives it and its attributes. *)
Record instance : Type := mkInstance {
  inst_methods : list string;
  inst_attrs : gmap string pyval;
}.

(** A class: the methods it defines and its constructor, called with
    keyword arguments. *)
Record class : Type := mkClass {
  cls_methods : list string;
  cls_init : gmap string pyval → res instance;
}.

(** [Interface.__init__] for a class with the given [args] and
    [optional_args]. *)
Definition Interface_init (methods : list string) (args : list string)
    (optional_args : gmap string pyval) (kwargs : gmap string pyval)
  : res instance :=
  required ←
    mapM (λ arg,
            match kwargs !! arg with
            | Some v => mret (arg, v)
            | None =>
                raise (SMRTError ("Parameter " +:+ arg +:+ " must be specified"))
            end) args;
  let optional :=
    map_imap (λ arg dflt, Some (default dflt (kwargs !! arg))) optional_args in
  mret (mkInstance methods (optional ∪ list_to_map required)).

(** The first argument of [make_interface]: [None], a string, a class,
    or some other object. *)
Inductive identifier : Type :=
| IdNone
| IdStr (name : string)
| IdClass (c : class)
| IdObject (o : instance).

Definition hasattr (o : instance) (name : string) : bool :=
  bool_decide (name ∈ inst_methods o ∨ is_Some (inst_attrs o !! name)).

(** Modelled from the spec: [smrt.core.plugin.import_class], which is not
    among the sources; a name is looked up among the registered
    implementations and an unknown name is an error. *)
Definition import_class (registry : gmap string class) (name : string)
  : res class :=
  match registry !! name with
  | Some c => mret c
  | None => raise (SMRTError ("no plugin named " +:+ name))
  end.

(** Modelled from the spec: [smrt.core.lib.is_sequence] and
    [smrt.core.lib.get], which are not among the sources; [get] extracts
    the i-th element of every sequence-valued argument and reuses every
    scalar-valued argument unchanged; a sequence shorter than the index
    is indexed out of range.  A text string counts as a scalar. *)
Definition is_sequence (v : pyval) : bool :=
  match v with VSeq _ => true | VAtom _ => false end.

Definition get_item (v : pyval) (i : nat) : res pyval :=
  match v with
  | VSeq l =>
      match l !! i with
      | Some a => mret (VAtom a)
      | None => raise IndexError
      end
  | VAtom _ => mret v
  end.

Definition item_or_same (i : nat) (v : pyval) : pyval :=
  match get_item v i with inr w => w | inl _ => v end.

Definition get (kwargs : gmap string pyval) (i : nat)
  : res (gmap string pyval) :=
  if decide (map_Forall (λ _ v, is_ok (get_item v i) = true) kwargs)
  then mret (item_or_same i <$> kwargs)
  else raise IndexError.

(** An identifier that stands for a class: [None] for the default, a
    registered name, or the class itself. *)
Definition resolves_to (Flat : class) (registry : gmap string class)
    (id : identifier) (c : class) : Prop :=
  match id with
  | IdNone => c = Flat
  | IdStr name => registry !! name = Some c
  | IdClass c' => c = c'
  | IdObject _ => False
  end.

(** [len(k)] of a sequence value. *)
Definition seq_len (v : pyval) : nat :=
  match v with VSeq l => length l | VAtom _ => 0%nat end.

(** What [make_interface] returns: one object or a list of objects. *)
Inductive made : Type :=
| MadeOne (o : instance)
| MadeList (l : list instance).

(** [make_interface]; [Flat] is the default class and [registry] the
    plugins [import_class] can find. *)
Definition make_interface (Flat : class) (registry : gmap string class)
    (inst_class_or_modulename : identifier) (broadcast : bool)
    (kwargs : gmap string pyval) : res made :=
  let build (interface_cls : class) : res made :=
    let l := seq_len <$> filter (λ k, is_sequence k = true)
                                (map_to_list kwargs).*2 in
    if broadcast && bool_decide (kwargs ≠ ∅) && bool_decide (l ≠ []) then
      MadeList <$> mapM (λ i, kw ← get kwargs i; cls_init interface_cls kw)
                        (seq 0 (max_list l))
    else MadeOne <$> cls_init interface_cls kwargs in
  match inst_class_or_modulename with
  | IdNone => build Flat
  | IdStr name => interface_cls ← import_class registry name; build interface_cls
  | IdClass c => build c
  | IdObject o =>
      if hasattr o "specular_reflection_matrix" then mret (MadeOne o)
      else raise (SMRTError "The interface must be either the name of a module in the smrt.interface directory, or a class that implements the interface behavior.")
  end.
End Plugins.

End Interface.

Module Substrate.

Section Substrates.
Context `{Numeric}.
(** Permittivities, cosines and reflection matrices are the business of
    the interface plugins; their types are left open. *)
Context {Eps Mu Matrix : Type}.

(** The raw boundary operations an interface class may define, each
    taking [(frequency, eps_1, eps_2, ...)]. *)
Record interface_cls : Type := mkInterfaceCls {
  raw_specular_reflection_matrix :
    option (F → Eps → Eps → Mu → nat → res Matrix);
  raw_coherent_transmission_matrix :
    option (F → Eps → Eps → Mu → nat → res Matrix);
  raw_diffuse_reflection_matrix :
    option (F → Eps → Eps → Mu → Mu → Mu → nat → res Matrix);
  raw_ft_even_diffuse_reflection_matrix :
    option (F → Eps → Eps → Mu → Mu → nat → nat → res Matrix);
}.

(** [SubstrateBase]: a permittivity model is a function of frequency and
    temperature and may be absent. *)
Record SubstrateBase : Type := mkSubstrate {
  temperature : pyval;
  permittivity_model : option (F → pyval → res (option Eps));
}.

(** [SubstrateBase.permittivity]. *)
Definition permittivity (self : SubstrateBase) (frequency : F)
  : res (option Eps) :=
  match permittivity_model self with
  | None => mret None
  | Some model => model frequency (temperature self)
  end.

(** Calls that reach a raw operation of the interface class are logged
    with the permittivity of the second medium they received. *)
Record raw_call : Type := mkRawCall {
  call_name : string;
  call_frequency : F;
  call_eps_2 : Eps;
}.

Definition logged (A : Type) : Type := list raw_call → res A * list raw_call.

Definition delegate {A} (name : string) (frequency : F) (eps_2 : Eps)
    (op : option (res A)) : logged A :=
  λ log,
    match op with
    | Some r => (r, log ++ [mkRawCall name frequency eps_2])
    | None => (raise AttributeError, log)
    end.

(** The error of the missing model; the source appends the name of the
    interface class to the message. *)
Definition no_model {A} : logged A :=
  λ log,
    (raise (SMRTError "No permittivity_model have been given to the substrate"),
     log).

(** The body shared by the four methods built in [decorator]: look the
    permittivity up, raise when there is none, else call the raw
    operation. *)
Definition with_eps_2 {A} (self : SubstrateBase) (frequency : F)
    (call : Eps → logged A) : logged A :=
  λ log,
    match permittivity self frequency with
    | inl e => (inl e, log)
    | inr None => no_model log
    | inr (Some eps_2) => call eps_2 log
    end.

Definition specular_reflection_matrix (cls : interface_cls)
    (self : SubstrateBase) (frequency : F) (eps_1 : Eps) (mu1 : Mu)
    (npol : nat) : logged Matrix :=
  with_eps_2 self frequency (λ eps_2,
    delegate "specular_reflection_matrix" frequency eps_2
      ((λ op, op frequency eps_1 eps_2 mu1 npol)
         <$> raw_specular_reflection_matrix cls)).

Definition emissivity_matrix (cls : interface_cls)
    (self : SubstrateBase) (frequency : F) (eps_1 : Eps) (mu1 : Mu)
    (npol : nat) : logged Matrix :=
  with_eps_2 self frequency (λ eps_2,
    delegate "coherent_transmission_matrix" frequency eps_2
      ((λ op, op frequency eps_1 eps_2 mu1 npol)
         <$> raw_coherent_transmission_matrix cls)).

Definition diffuse_reflection_matrix (cls : interface_cls)
    (self : SubstrateBase) (frequency : F) (eps_1 : Eps) (mu_s mu_i dphi : Mu)
    (npol : nat) : logged Matrix :=
  with_eps_2 self frequency (λ eps_2,
    delegate "diffuse_reflection_matrix" frequency eps_2
      ((λ op, op frequency eps_1 eps_2 mu_s mu_i dphi npol)
         <$> raw_diffuse_reflection_matrix cls)).

Definition ft_even_diffuse_reflection_matrix (cls : interface_cls)
    (self : SubstrateBase) (frequency : F) (eps_1 : Eps) (mu_s mu_i : Mu)
    (m_max npol : nat) : logged Matrix :=
  with_eps_2 self frequency (λ eps_2,
    delegate "ft_even_diffuse_reflection_matrix" frequency eps_2
      ((λ op, op frequency eps_1 eps_2 mu_s mu_i m_max npol)
         <$> raw_ft_even_diffuse_reflection_matrix cls)).

(** The attributes [auto_add] gives the new class: a method is added
    when the decorated class has no attribute of that name and the
    interface class has the raw operation it depends on. *)
Record substrate_cls : Type := mkSubstrateCls {
  m_emissivity_matrix :
    option (SubstrateBase → F → Eps → Mu → nat → logged Matrix);
  m_specular_reflection_matrix :
    option (SubstrateBase → F → Eps → Mu → nat → logged Matrix);
  m_ft_even_diffuse_reflection_matrix :
    option (SubstrateBase → F → Eps → Mu → Mu → nat → nat → logged Matrix);
  m_diffuse_reflection_matrix :
    option (SubstrateBase → F → Eps → Mu → Mu → Mu → nat → logged Matrix);
}.

Definition auto_add {A B} (cls_attrs : list string) (new_method : A)
    (new_method_name : string) (dependency : option B) : option A :=
  if negb (bool_decide (new_method_name ∈ cls_attrs))
     && bool_decide (is_Some dependency)
  then Some new_method else None.

(** [substrate_from_interface(interface_cls)(cls)], [cls_attrs] being the
    attribute names of the decorated class. *)
Definition substrate_from_interface (icls : interface_cls)
    (cls_attrs : list string) : substrate_cls :=
  {| m_emissivity_matrix :=
       auto_add cls_attrs (emissivity_matrix icls) "emissivity_matrix"
         (raw_coherent_transmission_matrix icls);
     m_specular_reflection_matrix :=
       auto_add cls_attrs (specular_reflection_matrix icls)
         "specular_reflection_matrix" (raw_specular_reflection_matrix icls);
     m_ft_even_diffuse_reflection_matrix :=
       auto_add cls_attrs (ft_even_diffuse_reflection_matrix icls)
         "ft_even_diffuse_reflection_matrix"
         (raw_ft_even_diffuse_reflection_matrix icls);
     m_diffuse_reflection_matrix :=
       auto_add cls_attrs (diffuse_reflection_matrix icls)
         "diffuse_reflection_matrix" (raw_diffuse_reflection_matrix icls) |}.
End Substrates.

End Substrate.

(** ** The model driver ([smrt/core/model.py]) *)

Module Model.

Section Models.
Context `{XArray}.
(** Snowpacks and atmospheres are only passed along. *)
Context {Snowpack Atmosphere : Type}.

(** Modelled from the spec: the sensor class ([smrt.core.sensor]), which
    is not among the sources.  A sensor declares its axes in order, each
    with its values; [configurations] lists them, and [iterate]
    decomposes the sensor along a named axis into one narrower sensor per
    value of that axis. *)
Record Sensor : Type := mkSensor {
  sensor_axes : list (string * list atom);
}.

Definition configurations (sensor : Sensor) : list (string * list atom) :=
  sensor_axes sensor.

Definition iterate (sensor : Sensor) (axis : string) : res (list Sensor) :=
  match list_find (λ c, c.1 = axis) (sensor_axes sensor) with
  | Some (i, c) =>
      mret ((λ v, mkSensor (<[i := (axis, [v])]> (sensor_axes sensor)))
              <$> c.2)
  | None => raise AttributeError
  end.

(** What [run] accepts as [snowpack]: one snowpack, a list, a dict, a
    [pd.Series] or a [SensitivityStudy]. *)
Inductive snowpack_arg : Type :=
| OneSnowpack (sp : Snowpack)
| SnowpackList (sps : list Snowpack)
| SnowpackDict (items : list (atom * Snowpack))
| SnowpackSeries (index : Index) (sps : list Snowpack)
| SnowpackStudy (variable : string) (values : list atom) (sps : list Snowpack).

(** The [snowpack_dimension] value while it is being normalised: a tuple
    whose second element may still be [None], or a [pd.Index]. *)
Inductive dim_arg : Type :=
| DimTuple (name : pyval) (values : option (list atom))
| DimIndex (index : Index).

(** [range(n)] as labels. *)
Definition range_labels (n : nat) : list atom :=
  (λ k : nat, ANum (of_Z (Z.of_nat k))) <$> seq 0 n.

(** Modelled from the spec: the snowpack class is not among the sources;
    a snowpack is an object holding layers, a substrate and an
    atmosphere, not a sized container, so [len] of a single snowpack
    raises. *)
Definition len_snowpack (snowpack : Snowpack + list Snowpack) : res Z :=
  match snowpack with
  | inl _ => raise TypeError
  | inr sps => mret (len sps)
  end.

(** [len(snowpack_dimension[1])]: on a tuple the length of its values;
    on a [pd.Index] the length of its second label. *)
Definition len_second (d : dim_arg) : res Z :=
  match d with
  | DimTuple _ (Some values) => mret (len values)
  | DimTuple _ None => raise TypeError
  | DimIndex index =>
      match index_labels index !! 1%nat with
      | None => raise IndexError
      | Some (AStr s) => mret (Z.of_nat (String.length s))
      | Some _ => raise TypeError
      end
  end.

(** The generator [prepare_recursive]. *)
Fixpoint prepare_recursive (snowpack : Snowpack + list Snowpack)
    (sensor : Sensor) (sensor_configurations : list (string * list atom))
  : res (list (Sensor * Snowpack)) :=
  match sensor_configurations with
  | (axis, values) :: rest =>
      subsets ← iterate sensor axis;
      (λ parts, concat parts)
        <$> mapM (λ sensor_subset,
                    prepare_recursive snowpack sensor_subset rest)
                 subsets
  | [] =>
      match snowpack with
      | inr sps => mret (pair sensor <$> sps)
      | inl sp => mret [(sensor, sp)]
      end
  end.

(** [Model.prepare_simulations]; [broadcast_capability] is the
    [_broadcast_capability] of the solver.  The first component is the
    generator, given as the outcome of consuming it. *)
Definition prepare_simulations (broadcast_capability : list string)
    (sensor : Sensor) (snowpack : snowpack_arg)
    (snowpack_dimension : option dim_arg)
  : res (res (list (Sensor * Snowpack)) * list coord) :=
  let '(snowpack, snowpack_dimension) :=
    match snowpack with
    | SnowpackStudy variable values sps =>
        (inr sps, Some (DimTuple (VStr variable) (Some values)))
    | SnowpackDict items =>
        (inr items.*2, Some (DimTuple (VStr "snowpack") (Some items.*1)))
    | SnowpackSeries index sps => (inr sps, Some (DimIndex index))
    | SnowpackList sps => (inr sps, snowpack_dimension)
    | OneSnowpack sp => (inl sp, snowpack_dimension)
    end in
  snowpack_dimension ←
    match snowpack with
    | inr sps =>
        let d := default (DimTuple (VStr "snowpack") None) snowpack_dimension in
        match d with
        | DimTuple name None =>
            mret (Some (DimTuple name (Some (range_labels (length sps)))))
        | DimTuple _ (Some _) => mret (Some d)
        | DimIndex index =>
            match index_labels index with
            | first :: ANone :: _ =>
                mret (Some (DimTuple (VAtom first)
                                     (Some (range_labels (length sps)))))
            | _ :: _ :: _ => mret (Some d)
            | _ => raise IndexError
            end
        end
    | inl _ => mret snowpack_dimension
    end;
  _ ← match snowpack_dimension with
       | None => mret ()
       | Some d =>
           n ← len_snowpack snowpack;
           m ← len_second d;
           if decide (n ≠ m) then
             raise (SMRTError "The list of snowpacks must have the same length as the snowpack_dimension")
           else mret ()
       end;
  _ ← match snowpack_dimension with
       | Some (DimTuple (VAtom (AStr _)) _) => mret ()
       | Some (DimTuple _ _) =>
           raise (SMRTError "When the 'snowpack_dimension' argument is a tuple, the first argument must be a string")
       | _ => mret ()
       end;
  let sensor_configurations :=
    filter (λ c, c.1 ∉ broadcast_capability) (configurations sensor) in
  let simulations := prepare_recursive snowpack sensor sensor_configurations in
  let dimensions := (λ c, CoordTuple c.1 c.2) <$> sensor_configurations in
  let dimensions :=
    match snowpack_dimension with
    | Some (DimTuple (VAtom (AStr name)) (Some values)) =>
        dimensions ++ [CoordTuple name values]
    | Some (DimTuple _ _) => dimensions ++ [CoordOther]
    | Some (DimIndex index) => dimensions ++ [CoordIndex index]
    | None => dimensions
    end in
  mret (simulations, dimensions).

(** The runner objects [run] can be given. *)
Inductive runner : Type :=
| UseSequentialRunner (progressbar : bool)
| UseJoblibParallelRunner
| UseDaskParallelRunner (chunk : Z).

Definition call_runner {A R} (r : runner) (function : A → res R)
    (argument_list : list A) : res (list R) :=
  match r with
  | UseSequentialRunner _ => Runner.SequentialRunner function argument_list
  | UseJoblibParallelRunner => Runner.JoblibParallelRunner function argument_list
  | UseDaskParallelRunner chunk =>
      Runner.DaskParallelRunner chunk function argument_list
  end.

(** A runner whose chunk size, if it has one, is a positive number of
    units. *)
Definition well_configured (r : runner) : Prop :=
  match r with
  | UseDaskParallelRunner chunk => (0 < chunk)%Z
  | _ => True
  end.

(** One turn of the reshaping loop of [run]. *)
Definition fold_dimension (results : list Result) (dimension : coord)
  : res (list Result) :=
  n ← match dimension with
       | CoordTuple _ values => mret (len values)
       | CoordIndex index => mret (len (index_labels index))
       | CoordOther => raise TypeError
       end;
  starts ← range 0 (len results) n;
  mapM (λ i, Result.concat_results (slice results i (i + n)) dimension) starts.

(** The whole loop, over [reversed(dimensions)]. *)
Definition reshape (results : list Result) (dimensions : list coord)
  : res (list Result) :=
  foldl (λ acc dimension, results ← acc; fold_dimension results dimension)
        (mret results) (reverse dimensions).

(** The number of values of an axis, and the number of units a list of
    axes stands for. *)
Definition coord_len (c : coord) : nat :=
  match c with
  | CoordTuple _ values => length values
  | CoordIndex index => length (index_labels index)
  | CoordOther => 0%nat
  end.

Definition expected_units (dimensions : list coord) : nat :=
  foldr Nat.mul 1%nat (coord_len <$> dimensions).

(** The axes of a sensor are distinct attributes; a [pd.Series] has as
    many labels as values; the documented forms of [snowpack_dimension]
    are [None] and a tuple. *)
Definition distinct_axes (sensor : Sensor) : Prop :=
  NoDup (sensor_axes sensor).*1.

Definition series_consistent (snowpack : snowpack_arg) : Prop :=
  match snowpack with
  | SnowpackSeries index sps => length (index_labels index) = length sps
  | _ => True
  end.

Definition documented_dimension (d : option dim_arg) : Prop :=
  match d with
  | Some (DimIndex _) => False
  | _ => True
  end.

(** Looking the axis of each of these configurations up in the sensor
    finds that configuration. *)
Definition found_in (sensor : Sensor)
    (sensor_configurations : list (string * list atom)) : Prop :=
  ∀ c, c ∈ sensor_configurations →
    ∃ i, list_find (λ c' : string * list atom, c'.1 = c.1)
                   (sensor_axes sensor) = Some (i, c).

(** The number of snowpacks a unit is made for. *)
Definition snowpack_count (snowpack : Snowpack + list Snowpack) : nat :=
  match snowpack with inl _ => 1%nat | inr sps => length sps end.

(** [Model.run]; [run_single_simulation] builds the layer models and
    calls the solver, both external. *)
Definition run
    (run_single_simulation : Sensor * Snowpack → option Atmosphere → res Result)
    (broadcast_capability : list string)
    (sensor : Sensor) (snowpack : snowpack_arg)
    (atmosphere : option Atmosphere) (snowpack_dimension : option dim_arg)
    (progressbar parallel_computation : bool) (runner_arg : option runner)
  : res Result :=
  if decide (is_Some atmosphere) then
    raise (DeprecationWarning "The atmosphere argument of the run method is going to be depreciated.")
  else
    '(simulations, dimensions) ←
      prepare_simulations broadcast_capability sensor snowpack snowpack_dimension;
    r ← match runner_arg with
         | Some r => mret r
         | None =>
             if parallel_computation then
               if progressbar then
                 raise (SMRTError "Parallel computation is incompatible with progressbar")
               else mret UseJoblibParallelRunner
             else mret (UseSequentialRunner progressbar)
         end;
    simulations ← simulations;
    results ← call_runner r (λ args, run_single_simulation args.1 args.2)
                 ((λ simul, (simul, atmosphere)) <$> simulations);
    results ← reshape results dimensions;
    match results with
    | [result] => mret result
    | _ => raise AssertionError
    end.
End Models.

End Model.

(** ** Making and opening results *)

Module ResultFactory.

Section Factory.
Context `{XArray}.

(** [Result.__init__] as the constructor of a class, given an
    [xr.DataArray]: the base class has no [mode] and refuses; a subclass
    keeps the array, and [channel_map or dict()] is its channel map.  (The
    mode is also written into the attributes of the array, which are not
    part of [DataArray] here.) *)
Definition Result_init (cls : option ResultClass) (intensity : DataArray)
    (channel_map : option (gmap string (gmap string pyval))) : res Result :=
  match cls with
  | Some c => mret (mkResult c intensity (default ∅ channel_map))
  | None =>
      raise (SMRTError "Result base class is abstract, uses a subclass instead. The subclass must define the 'mode' attribute")
  end.

(** What [make_result] is given as [sensor]: an object with the
    attributes [mode] and [channel_map], or a text string, which has
    neither. *)
Inductive sensor_like : Type :=
| SensorObject (mode : string)
    (channel_map : option (gmap string (gmap string pyval)))
| SensorStr (s : string).

(** [make_result], called with the array as its only other argument. *)
Definition make_result (sensor : sensor_like) (intensity : DataArray)
  : res Result :=
  match sensor with
  | SensorStr _ => raise AttributeError
  | SensorObject mode channel_map =>
      if decide (mode = "A")
      then Result_init (Some ClsActiveResult) intensity channel_map
      else Result_init (Some ClsPassiveResult) intensity channel_map
  end.

(** Reading a file and converting a coordinate to one-character strings
    are xarray's. *)
Context (xr_open_dataarray : string → res DataArray).
Context (astype_U1 : DataArray → string → res DataArray).

(** [getattr(data.attrs, 'mode', None)]: [attrs] is a dictionary, and
    the keys of a dictionary are not attributes of it. *)
Definition getattr_attrs_mode (data : DataArray) : option string := None.

(** [mode not in 'AP'] is a substring test. *)
Definition in_AP (mode : string) : bool :=
  bool_decide (mode ∈ [""; "A"; "P"; "AP"]).

(** [open_result]. *)
Definition open_result (filename : string) : res Result :=
  data ← xr_open_dataarray filename;
  data ← foldl (λ acc d,
                  data ← acc;
                  if String.prefix "polarization" d then astype_U1 data d
                  else mret data)
               (mret data) (dims data);
  let mode := getattr_attrs_mode data in
  let mode :=
    match mode with
    | Some mode' =>
        if in_AP mode' then mode'
        else if in_coords "theta_inc" data then "A" else "P"
    | None => if in_coords "theta_inc" data then "A" else "P"
    end in
  make_result (SensorStr mode) data.
End Factory.

End ResultFactory.

(** ** Building a model and running one unit *)

Module ModelSetup.

Section Setup.
Context `{XArray}.
Context {Sensor Snowpack Layer Atmosphere EMModel : Type}.

(** Modelled from the spec: the snowpack class is not among the sources;
    a snowpack is an ordered sequence of layers plus an optional
    atmosphere, and [nlayer] equals the layer count. *)
Context (layers : Snowpack → list Layer).
Context (sp_atmosphere : Snowpack → option Atmosphere).

Definition nlayer (snowpack : Snowpack) : nat := length (layers snowpack).

(** An electromagnetic model class is called with the sensor, the layer
    and keyword options. *)
Definition emmodel_cls : Type :=
  Sensor → Layer → gmap string pyval → res EMModel.

(** A solver object: its [_reentrant] attribute, false when it has none,
    and its [solve] method. *)
Record solver : Type := mkSolver {
  reentrant : bool;
  solve : Snowpack → list EMModel → Sensor → option Atmosphere → res Result;
}.

(** A solver class is called with keyword options. *)
Definition solver_cls : Type := gmap string pyval → res solver.

(** What is given as an [emmodel]: a name, a class, or an object that is
    neither; one of them or a sequence of them. *)
Inductive emmodel_id : Type :=
| EmStr (name : string)
| EmClass (c : emmodel_cls)
| EmObject.

Inductive emmodel_arg : Type :=
| EmOne (e : emmodel_id)
| EmSeq (l : list emmodel_id).

(** What is given as [rtsolver] when it is not [None]: a name, a class or
    a solver object. *)
Inductive rtsolver_arg : Type :=
| RtStr (name : string)
| RtClass (c : solver_cls)
| RtInstance (s : solver).

(** What a model holds after construction. *)
Inductive emmodel_val : Type :=
| OneModel (c : emmodel_cls)
| ModelList (l : list emmodel_cls).

Inductive rtsolver_val : Type :=
| SolverClass (c : solver_cls)
| SolverInstance (s : solver).

(** Option dictionaries are objects that several holders can refer to:
    the store lists the dictionaries alive, and a reference is a position
    in it.  Options are given as a dictionary or as a list of
    dictionaries. *)
Definition loc : Type := nat.

Definition heap : Type := list (gmap string pyval).

Inductive options : Type :=
| OptDict (l : loc)
| OptList (dicts : list loc).

(** [dict()]. *)
Definition alloc (d : gmap string pyval) (h : heap) : loc * heap :=
  (length h, h ++ [d]).

Definition read (h : heap) (l : loc) : gmap string pyval :=
  default ∅ (h !! l).

Record Model : Type := mkModel {
  emmodel : emmodel_val;
  rtsolver : option rtsolver_val;
  emmodel_options : options;
  rtsolver_options : options;
}.

(** Modelled from the spec: [smrt.core.plugin.import_class], which is not
    among the sources; a name is looked up among the registered
    implementations and an unknown name is an error. *)
Definition import_class {C} (registry : gmap string C) (name : string)
  : res C :=
  match registry !! name with
  | Some c => mret c
  | None => raise (SMRTError ("no plugin named " +:+ name))
  end.

Context (emmodels : gmap string emmodel_cls).
Context (rtsolvers : gmap string solver_cls).

(** [get_emmodel]. *)
Definition get_emmodel (emmodel : emmodel_id) : res emmodel_cls :=
  match emmodel with
  | EmStr name => import_class emmodels name
  | EmClass c => mret c
  | EmObject => raise AssertionError
  end.

(** [make_emmodel], called with the options unpacked next to its own
    parameters [emmodel], [sensor] and [layer]: an option of such a name
    is a duplicate keyword, and the call raises before the body runs.
    [sensor] is a sensor by its type. *)
Definition make_emmodel (emmodel : emmodel_id) (sensor : Sensor)
    (layer : Layer) (emmodel_options : gmap string pyval) : res EMModel :=
  if decide (is_Some (emmodel_options !! "emmodel")
             ∨ is_Some (emmodel_options !! "sensor")
             ∨ is_Some (emmodel_options !! "layer"))
  then raise TypeError
  else
    emmodel ← get_emmodel emmodel;
    emmodel sensor layer emmodel_options.

(** [Model.__init__]: options that are given are kept as they are, the
    same object; options that are not given are a new empty dictionary. *)
Definition Model_init (emmodel : emmodel_arg) (rtsolver : option rtsolver_arg)
    (emmodel_options rtsolver_options : option options) (h : heap)
  : res (Model * heap) :=
  emmodel ← match emmodel with
             | EmSeq l => ModelList <$> mapM get_emmodel l
             | EmOne e => OneModel <$> get_emmodel e
             end;
  rtsolver ← match rtsolver with
              | Some (RtStr name) =>
                  (λ c, Some (SolverClass c)) <$> import_class rtsolvers name
              | Some (RtClass c) => mret (Some (SolverClass c))
              | Some (RtInstance s) => mret (Some (SolverInstance s))
              | None => mret None
              end;
  let '(emmodel_options, h) :=
    match emmodel_options with
    | Some o => (o, h)
    | None => let '(l, h) := alloc ∅ h in (OptDict l, h)
    end in
  let '(rtsolver_options, h) :=
    match rtsolver_options with
    | Some o => (o, h)
    | None => let '(l, h) := alloc ∅ h in (OptDict l, h)
    end in
  mret (mkModel emmodel rtsolver emmodel_options rtsolver_options, h).

(** [make_model]. *)
Definition make_model (emmodel : emmodel_arg) (rtsolver : option rtsolver_arg)
    (emmodel_options rtsolver_options emmodel_kwargs rtsolver_kwargs
       : option options) (h : heap) : res (Model * heap) :=
  if decide (is_Some emmodel_kwargs) then
    raise (DeprecationWarning "Use emmodel_options instead of emmodel_kwargs")
  else if decide (is_Some rtsolver_kwargs) then
    raise (DeprecationWarning "Use rtsolver_options instead of rtsolver_kwargs")
  else Model_init emmodel rtsolver emmodel_options rtsolver_options h.

(** [dict.update(kwargs)] on the dictionary at [l]. *)
Definition update (l : loc) (kwargs : gmap string pyval) (h : heap) : heap :=
  alter (λ d, kwargs ∪ d) l h.

(** [Model.set_rtsolver_options]; a list has no [update]. *)
Definition set_rtsolver_options (self : Model) (opts : option options)
    (kwargs : gmap string pyval) (h : heap) : res (Model * heap) :=
  self ← match opts with
          | Some (OptDict l) =>
              mret (mkModel (emmodel self) (rtsolver self)
                            (emmodel_options self) (OptDict l))
          | Some (OptList _) => raise (SMRTError "options must be a dict")
          | None => mret self
          end;
  match rtsolver_options self with
  | OptDict l => mret (self, update l kwargs h)
  | OptList _ => raise AttributeError
  end.

(** [Model.set_emmodel_options]. *)
Definition set_emmodel_options (self : Model) (opts : option options)
    (kwargs : gmap string pyval) (h : heap) : res (Model * heap) :=
  self ← match opts with
          | Some (OptDict l) =>
              mret (mkModel (emmodel self) (rtsolver self)
                            (OptDict l) (rtsolver_options self))
          | Some (OptList _) => raise (SMRTError "options must be a dict")
          | None => mret self
          end;
  match emmodel_options self with
  | OptDict l => mret (self, update l kwargs h)
  | OptList _ => raise AttributeError
  end.

(** [Model.run_single_simulation]; the result is [None] without a
    solver.  [zip] ends with the layers when one model is cycled. *)
Definition run_single_simulation (self : Model)
    (simulation : Sensor * Snowpack) (atmosphere : option Atmosphere)
    (h : heap) : res (option Result) :=
  let '(sensor, snowpack) := simulation in
  emmodel_list ←
    match emmodel self with
    | ModelList l =>
        if decide (length l = nlayer snowpack) then mret l
        else raise AssertionError
    | OneModel c => mret (replicate (length (layers snowpack)) c)
    end;
  emmodel_instances ←
    mapM (λ '(i, (emmodel, layer)),
            emmodel_options ←
              match emmodel_options self with
              | OptList dicts =>
                  match dicts !! i with
                  | Some l => mret (read h l)
                  | None => raise IndexError
                  end
              | OptDict l => mret (read h l)
              end;
            make_emmodel (EmClass emmodel) sensor layer emmodel_options)
         (imap pair (zip emmodel_list (layers snowpack)));
  match rtsolver self with
  | None => mret None
  | Some (SolverClass c) =>
      rtsolver_options ←
        match rtsolver_options self with
        | OptDict l => mret (read h l)
        | OptList _ => raise TypeError
        end;
      rtsolver ← c rtsolver_options;
      Some <$> solve rtsolver snowpack emmodel_instances sensor
                 (match sp_atmosphere snowpack with
                  | Some a => Some a
                  | None => atmosphere
                  end)
  | Some (SolverInstance s) =>
      if reentrant s then
        Some <$> solve s snowpack emmodel_instances sensor
                   (match sp_atmosphere snowpack with
                    | Some a => Some a
                    | None => atmosphere
                    end)
      else raise (SMRTError "This solver can not be used in instance mode without")
  end.
End Setup.

End ModelSetup.

(** ** A small array library to run examples on

    Integers stand in for the floats, and a direct implementation of
    selection by label and of concatenation stands in for xarray.  Only the
    examples use it; every general statement below is about an arbitrary
    [Numeric] and [XArray]. *)

Module Ref.

#[global] Instance numeric : Numeric := {|
  F := Z;
  of_Z := id;
  fmul := Z.mul;
  np_pi := 3%Z;
  np_cos := λ _, 1%Z;
  np_deg2rad := id;
  np_log10 := Z.log2;
|}.

Definition product (l : list nat) : nat := foldr Nat.mul 1%nat l.

(** Keep position [j] of the axis at position [k]. *)
Definition take_at (k j : nat) (x : DataArray) : DataArray :=
  let inner := product (drop (S k) (shape x)) in
  let block := (length (default [] (snd <$> axes x !! k)) * inner)%nat in
  let outer := product (take k (shape x)) in
  {| axes := delete k (axes x);
     scalar_coords := scalar_coords x;
     values :=
       flat_map (λ i, take inner (drop (i * block + j * inner) (values x)))
                (seq 0 outer) |}.

Definition sel_one (drop : bool) (x : res DataArray) (name : string)
    (ix : indexer) : res DataArray :=
  x ← x;
  match ix, list_find (λ a, a.1 = name) (axes x) with
  | (IVal (VAtom a) | ICoord (Coord0 a) | ICoord (Coord1 [a])),
    Some (k, (_, labels)) =>
      match list_find (λ b, b = a) labels with
      | Some (j, _) =>
          let y := take_at k j x in
          mret (if drop then y
                else {| axes := axes y;
                        scalar_coords := scalar_coords y ++ [(name, a)];
                        values := values y |})
      | None => raise KeyError
      end
  | _, _ => raise KeyError
  end.

Definition sel (drop : bool) (x : DataArray) (indexers : gmap string indexer)
  : res DataArray :=
  foldl (λ acc kv, sel_one drop acc kv.1 kv.2) (mret x) (map_to_list indexers).

Definition concat (arrays : list DataArray) (index : Index) : res DataArray :=
  match arrays with
  | [] => raise ValueError
  | x0 :: _ =>
      if decide (length arrays = length (index_labels index)) then
        mret {| axes := (default "concat_dim" (index_name index),
                         index_labels index) :: axes x0;
                scalar_coords := scalar_coords x0;
                values := mjoin (values <$> arrays) |}
      else raise ValueError
  end.

Definition div (a b : DataArray) : res DataArray :=
  mret {| axes := axes a; scalar_coords := scalar_coords a;
          values := zip_with Z.div (values a) (values b) |}.

Definition scale_first_axis (factors : list Z) (x : DataArray) : res DataArray :=
  let inner := product (drop 1 (shape x)) in
  if decide (length factors = default 1%nat (shape x !! 0%nat)) then
    mret {| axes := axes x; scalar_coords := scalar_coords x;
            values :=
              mjoin (imap (λ i f, Z.mul f <$> take inner (drop (i * inner) (values x)))
                          factors) |}
  else raise ValueError.

#[global] Instance xarray : XArray := {|
  xr_sel := sel;
  xr_concat := concat;
  xr_div := div;
  np_mul := scale_first_axis;
  xr_mul := λ _, scale_first_axis;
  pd_Index_positional := λ _ _, raise TypeError;
  np_all_eq := λ a b, bool_decide (a = b);
  np_all_eq_same := λ a b, bool_decide_eq_true_1 (a = b);
|}.

(** The same library with a number that does not compare equal to
    itself, as a NaN does; here it is -1. *)
Definition xarray_with_nan : XArray := {|
  xr_sel := sel;
  xr_concat := concat;
  xr_div := div;
  np_mul := scale_first_axis;
  xr_mul := λ _, scale_first_axis;
  pd_Index_positional := λ _ _, raise TypeError;
  np_all_eq := λ a b, bool_decide (a = b) && bool_decide (a ≠ VNum (-1)%Z);
  np_all_eq_same := λ a b Hab,
    bool_decide_eq_true_1 (a = b) (proj1 (andb_prop _ _ Hab));
|}.

Definition num (z : Z) : pyval := VNum z.

(** A passive result with two frequencies and two polarizations, and the
    four channels of such a radiometer. *)
Definition passive : Result :=
  {| type := ClsPassiveResult;
     data := {| axes := [("frequency", [ANum 19; ANum 37]%Z);
                         ("polarization", [AStr "V"; AStr "H"])];
                scalar_coords := [];
                values := [242; 230; 202; 187]%Z |};
     channel_map :=
       {[ "19V" := {[ "frequency" := num 19; "polarization" := VStr "V" ]};
          "19H" := {[ "frequency" := num 19; "polarization" := VStr "H" ]};
          "37V" := {[ "frequency" := num 37; "polarization" := VStr "V" ]};
          "37H" := {[ "frequency" := num 37; "polarization" := VStr "H";
                      "theta" := num 55 ]} ]} |}.

(** An active result at one incidence angle. *)
Definition active : Result :=
  {| type := ClsActiveResult;
     data := {| axes := [("theta_inc", [ANum 45]%Z);
                         ("polarization_inc", [AStr "V"; AStr "H"]);
                         ("theta", [ANum 45]%Z);
                         ("polarization", [AStr "V"; AStr "H"])];
                scalar_coords := [];
                values := [8; 1; 2; 16]%Z |};
     channel_map := ∅ |}.

(** Two passive results of sensors with different channels. *)
Definition at19 : Result :=
  {| type := ClsPassiveResult;
     data := {| axes := [("polarization", [AStr "V"; AStr "H"])];
                scalar_coords := [("frequency", ANum 19%Z)];
                values := [242; 230]%Z |};
     channel_map := {[ "19V" := {[ "polarization" := VStr "V" ]} ]} |}.

Definition at37 : Result :=
  {| type := ClsPassiveResult;
     data := {| axes := [("polarization", [AStr "V"; AStr "H"])];
                scalar_coords := [("frequency", ANum 37%Z)];
                values := [202; 187]%Z |};
     channel_map := {[ "37V" := {[ "polarization" := VStr "V" ]} ]} |}.

(** A radiometer with two frequencies and one angle. *)
Definition radiometer : Model.Sensor :=
  Model.mkSensor [("frequency", [ANum 19; ANum 37]%Z); ("theta", [ANum 55]%Z)].

(** An interface class with one required and one optional parameter. *)
Definition rough : Interface.class :=
  Interface.mkClass ["specular_reflection_matrix"]
    (Interface.Interface_init ["specular_reflection_matrix"]
       ["roughness_rms"] {[ "corr_length" := num 5 ]}).

(** An active result whose channel [ch] records the scattering angle. *)
Definition scatterometer : Result :=
  {| type := ClsActiveResult;
     data := {| axes := [("theta_inc", [ANum 40]%Z);
                         ("theta", [ANum 40]%Z);
                         ("polarization_inc", [AStr "V"; AStr "H"]);
                         ("polarization", [AStr "V"; AStr "H"])];
                scalar_coords := [];
                values := [8; 1; 2; 16]%Z |};
     channel_map := {[ "ch" := {[ "theta" := num 40 ]} ]} |}.

End Ref.


(** * Properties *)

(** ** The exception monad *)

Section ResFacts.
Context {A B : Type}.
Implicit Types (f : A → res B) (l : list A).

Lemma mapM_res_nil f : mapM f [] = inr [].
Proof. reflexivity. Qed.

Lemma mapM_res_cons f x l :
  mapM f (x :: l) = y ← f x; k ← mapM f l; mret (y :: k).
Proof. reflexivity. Qed.

(** [mapM] succeeds exactly when the function succeeds on every element,
    and then gives the results position by position. *)
Lemma mapM_res_Forall2 f l (k : list B) :
  mapM f l = inr k ↔ Forall2 (λ x y, f x = inr y) l k.
Proof.
  revert k. induction l as [|x l IH]; intros k; simpl.
  - split.
    + intros [= <-]. constructor.
    + intros Hk. inversion Hk. reflexivity.
  - split.
    + destruct (f x) as [e|y] eqn:Hx; simpl; [discriminate|].
      destruct (mapM f l) as [e|k'] eqn:Hl; simpl; [discriminate|].
      intros [= <-]. constructor; [done|]. by apply IH.
    + intros Hk. inversion Hk as [|? y ? k' Hy Hk']; subst.
      rewrite Hy. simpl. apply IH in Hk'. rewrite Hk'. reflexivity.
Qed.

Lemma mapM_res_length f l k : mapM f l = inr k → length k = length l.
Proof.
  intros Hk. apply mapM_res_Forall2 in Hk.
  symmetry. by eapply Forall2_length.
Qed.

Lemma mapM_res_fails f l x e :
  x ∈ l → f x = inl e → is_ok (mapM f l) = false.
Proof.
  intros Hin Hx. destruct (mapM f l) as [|k] eqn:Hk; [done|].
  apply mapM_res_Forall2 in Hk.
  apply list_elem_of_lookup in Hin as [i Hi].
  destruct (Forall2_lookup_l _ _ _ _ _ Hk Hi) as (y & _ & Hy). congruence.
Qed.

Lemma mapM_res_app f l1 l2 :
  mapM f (l1 ++ l2) = k1 ← mapM f l1; k2 ← mapM f l2; mret (k1 ++ k2).
Proof.
  induction l1 as [|x l1 IH]; simpl.
  - by destruct (mapM f l2).
  - destruct (f x); simpl; [done|]. rewrite IH.
    destruct (mapM f l1); simpl; [done|]. by destruct (mapM f l2).
Qed.

Lemma mapM_res_ext f g l : (∀ x, x ∈ l → f x = g x) → mapM f l = mapM g l.
Proof.
  induction l as [|x l IH]; intros Hfg; simpl; [done|].
  rewrite Hfg by left. rewrite IH; [done|].
  intros y Hy. apply Hfg. by right.
Qed.
End ResFacts.

Lemma mapM_res_fmap {A B C} (g : A → B) (f : B → res C) (l : list A) :
  mapM f (g <$> l) = mapM (λ x, f (g x)) l.
Proof.
  induction l as [|x l IH]; [done|].
  rewrite fmap_cons, !mapM_res_cons, IH. reflexivity.
Qed.

(** ** Ranges and slices *)

Lemma range_positive (stop step : Z) :
  (0 < step)%Z →
  range 0 stop step
  = inr ((λ k : nat, (Z.of_nat k * step)%Z)
           <$> seq 0 (Z.to_nat ((stop + step - 1) `div` step))).
Proof.
  intros Hstep. unfold range.
  destruct (decide (step = 0)%Z) as [->|_]; [lia|].
  destruct (decide (0 < step)%Z); [|lia].
  replace (stop - 0 + step - 1)%Z with (stop + step - 1)%Z by lia.
  reflexivity.
Qed.

(** The number of starts covers the list. *)
Lemma range_count_covers (n step : Z) :
  (0 < step)%Z → (0 ≤ n)%Z →
  (n ≤ Z.of_nat (Z.to_nat ((n + step - 1) `div` step)) * step)%Z.
Proof.
  intros Hstep Hn.
  assert (0 ≤ (n + step - 1) `div` step)%Z by (apply Z.div_pos; lia).
  rewrite Z2Nat.id by done.
  pose proof (Z.mul_succ_div_gt (n + step - 1) step Hstep). lia.
Qed.

Lemma slice_chunk {A} (l : list A) (k n : nat) :
  slice l (Z.of_nat k * Z.of_nat n) (Z.of_nat k * Z.of_nat n + Z.of_nat n)
  = take n (drop (k * n) l).
Proof.
  unfold slice. f_equal; [lia|]. f_equal. lia.
Qed.

(** Consecutive chunks of [n] elements, enough of them, make up the list. *)
Lemma chunks_concat {A} (n : nat) (l : list A) (count : nat) :
  (0 < n)%nat → (length l ≤ count * n)%nat →
  mjoin ((λ k, take n (drop (k * n) l)) <$> seq 0 count) = l.
Proof.
  intros Hn. revert l. induction count as [|count IH]; intros l Hlen.
  - simpl in *. destruct l; [done|simpl in Hlen; lia].
  - rewrite <-cons_seq, fmap_cons. simpl. rewrite drop_0.
    rewrite <-fmap_S_seq, <-list_fmap_compose.
    transitivity (take n l ++ drop n l); [|apply take_drop].
    f_equal. etrans; [|apply (IH (drop n l)); rewrite length_drop; lia].
    f_equal. apply list_fmap_ext. intros _ k _. simpl.
    rewrite drop_drop. reflexivity.
Qed.

Lemma foldl_app_mjoin {A I} (g : I → list A) (starts : list I) (init : list A) :
  foldl (λ acc i, acc ++ g i) init starts = init ++ mjoin (g <$> starts).
Proof.
  revert init. induction starts as [|i starts IH]; intros init; simpl.
  - by rewrite app_nil_r.
  - rewrite IH. by rewrite <-app_assoc.
Qed.

(** ** Runners *)

Section RunnerFacts.
Context {A R : Type}.
Implicit Types (function : A → res R) (argument_list : list A).

Lemma JoblibParallelRunner_sequential function argument_list :
  Runner.JoblibParallelRunner function argument_list
  = Runner.SequentialRunner function argument_list.
Proof.
  unfold Runner.JoblibParallelRunner, Runner.Parallel, Runner.SequentialRunner.
  by rewrite mapM_res_fmap.
Qed.

(** The futures gathered by the dask runner are those of the units, in
    the order of the units. *)
Lemma DaskParallelRunner_futures function argument_list (n : nat) :
  (0 < n)%nat →
  foldl (λ futures i,
           futures ++ Runner.client_map function
                        (slice argument_list i (i + Z.of_nat n)))
        []
        ((λ k : nat, (Z.of_nat k * Z.of_nat n)%Z)
           <$> seq 0 (Z.to_nat ((len argument_list + Z.of_nat n - 1)
                                  `div` Z.of_nat n)))
  = function <$> argument_list.
Proof.
  intros Hn. rewrite foldl_app_mjoin. simpl.
  rewrite <-list_fmap_compose. unfold Runner.client_map.
  erewrite list_fmap_ext; last first.
  { intros i k _. simpl. rewrite slice_chunk. rewrite fmap_take, fmap_drop.
    reflexivity. }
  apply (chunks_concat n (function <$> argument_list)); [done|].
  rewrite length_fmap.
  pose proof (range_count_covers (len argument_list) (Z.of_nat n)) as Hc.
  unfold len in *. nia.
Qed.

Lemma DaskParallelRunner_sequential (chunk : Z) function argument_list :
  (0 < chunk)%Z →
  Runner.DaskParallelRunner chunk function argument_list
  = Runner.SequentialRunner function argument_list.
Proof.
  intros Hchunk. unfold Runner.DaskParallelRunner, Runner.SequentialRunner.
  rewrite range_positive by done. simpl.
  rewrite <-(Z2Nat.id chunk) by lia.
  rewrite DaskParallelRunner_futures by lia.
  unfold Runner.client_gather. by rewrite mapM_res_fmap.
Qed.
End RunnerFacts.

Section RunFacts.
Context `{XArray} {Snowpack Atmosphere : Type}.

Lemma call_runner_mapM {A R} (r : Model.runner) (function : A → res R)
    (argument_list : list A) :
  Model.well_configured r →
  Model.call_runner r function argument_list = mapM function argument_list.
Proof.
  destruct r as [pb| |chunk]; simpl; intros Hr.
  - reflexivity.
  - apply JoblibParallelRunner_sequential.
  - by apply DaskParallelRunner_sequential.
Qed.

(** Units that all succeed make the list comprehension succeed. *)
Lemma mapM_res_total {A R} (function : A → res R) (argument_list : list A) :
  (∀ args, args ∈ argument_list → is_ok (function args) = true) →
  ∃ results, mapM function argument_list = inr results.
Proof.
  induction argument_list as [|x l IH]; intros Hok; simpl; [by eexists|].
  pose proof (Hok x ltac:(by left)) as Hx.
  destruct (function x) as [e|y]; [done|].
  destruct IH as [k ->]; [intros args Hargs; apply Hok; by right|].
  by eexists.
Qed.

(** C1 (as amended): whatever the unit function and the argument tuples,
    when every unit succeeds, the sequential runner, the joblib runner and
    the dask runner with a positive chunk size all return the results of
    the units, one per unit, in the order of the units.  A run of the
    model whose units succeed therefore folds to the same result with any
    of them. *)
Theorem runners_return_results_in_input_order (r1 r2 : Model.runner) :
  Model.well_configured r1 → Model.well_configured r2 →
  (∀ (A R : Type) (function : A → res R) (argument_list : list A),
      (∀ args, args ∈ argument_list → is_ok (function args) = true) →
      ∃ results,
        Model.call_runner r1 function argument_list = inr results
        ∧ Model.call_runner r2 function argument_list = inr results
        ∧ Forall2 (λ args result, function args = inr result)
                  argument_list results)
  ∧ (∀ (run_single_simulation :
          Model.Sensor * Snowpack → option Atmosphere → res Result)
       broadcast_capability sensor snowpack atmosphere snowpack_dimension
       progressbar parallel_computation,
      (∀ simulation, is_ok (run_single_simulation simulation None) = true) →
      Model.run run_single_simulation broadcast_capability sensor snowpack
        atmosphere snowpack_dimension progressbar parallel_computation
        (Some r1)
      = Model.run run_single_simulation broadcast_capability sensor snowpack
          atmosphere snowpack_dimension progressbar parallel_computation
          (Some r2)).
Proof.
  intros H1 H2.
  assert (Hboth : ∀ (A R : Type) (function : A → res R) (argument_list : list A),
    (∀ args, args ∈ argument_list → is_ok (function args) = true) →
    ∃ results,
      Model.call_runner r1 function argument_list = inr results
      ∧ Model.call_runner r2 function argument_list = inr results
      ∧ Forall2 (λ args result, function args = inr result)
                argument_list results).
  { intros A R function argument_list Hok.
    destruct (mapM_res_total function argument_list Hok) as [results Hres].
    exists results. rewrite !call_runner_mapM by done.
    split; [done|]. split; [done|]. by apply mapM_res_Forall2. }
  split; [exact Hboth|].
  intros run_single_simulation broadcast_capability sensor snowpack atmosphere
    snowpack_dimension progressbar parallel_computation Hok.
  unfold Model.run.
  destruct (decide (is_Some atmosphere)) as [Hatm|Hatm]; [done|].
  assert (atmosphere = None) as ->.
  { destruct atmosphere; [|done]. exfalso. apply Hatm. by eexists. }
  destruct (Model.prepare_simulations _ _ _ _) as [e|[sims dims]];
    simpl; [done|].
  destruct sims as [e|sims]; simpl; [done|].
  destruct (Hboth _ _ (λ args : (Model.Sensor * Snowpack) * option Atmosphere,
                         run_single_simulation args.1 args.2)
              ((λ simul, (simul, None)) <$> sims))
    as (results & -> & -> & _); [|done].
  intros [simul atm] Hin. simpl.
  apply list_elem_of_fmap in Hin as (s0 & [= -> ->] & _). apply Hok.
Qed.
End RunFacts.

(** C1, witness: the joblib runner against a dask runner with chunks of
    ten units. *)
Lemma runners_return_results_in_input_order_witness :
  Model.well_configured Model.UseJoblibParallelRunner
  ∧ Model.well_configured (Model.UseDaskParallelRunner 10)
  ∧ ∃ results,
      Model.call_runner Model.UseJoblibParallelRunner
        (λ x : Z, inr (x + 1)%Z : res Z) [1; 2; 3]%Z = inr results
      ∧ Model.call_runner (Model.UseDaskParallelRunner 10)
          (λ x : Z, inr (x + 1)%Z : res Z) [1; 2; 3]%Z = inr results
      ∧ Forall2 (λ args result, (inr (args + 1)%Z : res Z) = inr result)
                [1; 2; 3]%Z results.
Proof.
  assert (Hj : Model.well_configured Model.UseJoblibParallelRunner)
    by exact I.
  assert (Hd : Model.well_configured (Model.UseDaskParallelRunner 10))
    by (simpl; lia).
  split; [exact Hj|]. split; [exact Hd|].
  apply (proj1 (runners_return_results_in_input_order
                  (Snowpack := unit) (Atmosphere := unit) _ _ Hj Hd)
               Z Z (λ x : Z, inr (x + 1)%Z) [1; 2; 3]%Z).
  intros args _. reflexivity.
Defined.

(** C1, as stated, fails for a dask runner built with a negative chunk
    size: the range of chunk starts is empty, no unit is submitted, and the
    runner returns no result for its one unit. *)
Lemma dask_negative_chunk_returns_nothing :
  Runner.DaskParallelRunner (-1) (λ x : Z, inr (x + 1)%Z : res Z) [1%Z] = inr []
  ∧ Runner.SequentialRunner (λ x : Z, inr (x + 1)%Z : res Z) [1%Z] = inr [2%Z].
Proof. split; reflexivity. Qed.

(** ** Squeezing accessors *)

Section SqueezeFacts.
Context `{XArray}.

Lemma squeeze_values (x : DataArray) : values (squeeze x) = values x.
Proof. reflexivity. Qed.

Lemma squeeze_no_unit_axis (x : DataArray) :
  Forall (λ a, length a.2 ≠ 1%nat) (axes (squeeze x)).
Proof. apply Forall_forall. intros a Ha. by apply list_elem_of_filter in Ha as [? _]. Qed.

Lemma squeeze_axes_sublist (x : DataArray) :
  axes (squeeze x) `sublist_of` axes x.
Proof. apply sublist_filter. Qed.

Lemma product_without_units (l : list (string * list atom)) :
  foldr Nat.mul 1%nat
    ((λ a, length a.2) <$> filter (λ a, length a.2 ≠ 1%nat) l)
  = foldr Nat.mul 1%nat ((λ a, length a.2) <$> l).
Proof.
  induction l as [|a l IH]; [done|].
  rewrite filter_cons.
  destruct (decide (length a.2 ≠ 1%nat)) as [|Hone].
  - rewrite !fmap_cons. cbn [foldr]. by rewrite IH.
  - rewrite fmap_cons. cbn [foldr]. rewrite IH.
    destruct (decide (length a.2 = 1%nat)) as [->|]; [lia|done].
Qed.

Lemma squeeze_size (x : DataArray) : size (squeeze x) = size x.
Proof. apply product_without_units. Qed.

(** On an array whose data fit its shape, [_strongsqueeze] gives the bare
    number when there is exactly one, and the squeezed array otherwise. *)
Lemma strongsqueeze_spec (x : DataArray) :
  wf x →
  Result._strongsqueeze x
  = inr (match values x with [v] => OFloat v | _ => OArray (squeeze x) end).
Proof.
  unfold wf, Result._strongsqueeze. intros Hwf.
  rewrite squeeze_size. unfold to_float. rewrite squeeze_values.
  destruct (decide (size x = 1%nat)) as [Hone|Hmany].
  - rewrite Hone in Hwf. destruct (values x) as [|v [|w l]]; simplify_eq/=. done.
  - destruct (values x) as [|v [|w l]]; simpl in *; [done| |done].
    by rewrite <-Hwf in Hmany.
Qed.

(** Decibels commute with squeezing. *)
Lemma strongsqueeze_dB (x : DataArray) :
  Result._strongsqueeze (Result.dB_array x)
  = Result.dB <$> Result._strongsqueeze x.
Proof.
  unfold Result._strongsqueeze.
  change (size (squeeze (Result.dB_array x))) with (size (squeeze x)).
  destruct (decide (size (squeeze x) = 1%nat)); [|done].
  unfold to_float. simpl. by destruct (values x) as [|v [|w l]].
Qed.

Lemma squeezed_dB (selection : res DataArray) :
  Result.squeezed (Result.dB_array <$> selection)
  = Result.dB <$> Result.squeezed selection.
Proof. destruct selection as [e|x]; [done|]. apply strongsqueeze_dB. Qed.

(** C6: every accessor that may return a scalar is [_strongsqueeze]
    applied to its selection (for the decibel wrappers: to the selection
    in decibels), and [_strongsqueeze] drops every dimension of length one
    without touching the values, returning the bare number when the
    selection holds exactly one and the reduced array otherwise. *)
Theorem scalar_accessors_squeeze :
  (∀ x : DataArray,
      wf x →
      values (squeeze x) = values x
      ∧ Forall (λ a, length a.2 ≠ 1%nat) (axes (squeeze x))
      ∧ axes (squeeze x) `sublist_of` axes x
      ∧ Result._strongsqueeze x
        = inr (match values x with
               | [v] => OFloat v
               | _ => OArray (squeeze x)
               end))
  ∧ (∀ self channel kwargs,
        PassiveResult.Tb self channel kwargs
        = Result.squeezed (PassiveResult.sel_data self channel kwargs))
  ∧ (∀ self kwargs,
        PassiveResult.TbV self kwargs
        = Result.squeezed (PassiveResult.sel_polarization self "V" kwargs)
        ∧ PassiveResult.TbH self kwargs
          = Result.squeezed (PassiveResult.sel_polarization self "H" kwargs))
  ∧ (∀ self ratio kwargs,
        PassiveResult.polarization_ratio self ratio kwargs
        = Result.squeezed
            (p ← PassiveResult.first_char ratio;
             a ← PassiveResult.sel_polarization self p kwargs;
             q ← PassiveResult.last_char ratio;
             b ← PassiveResult.sel_polarization self q kwargs;
             xr_div a b))
  ∧ (∀ self channel kwargs,
        ∃ selection,
          ActiveResult.sigma self channel kwargs = Result.squeezed selection
          ∧ ActiveResult.sigma_dB self channel kwargs
            = Result.squeezed (Result.dB_array <$> selection))
  ∧ (∀ self p_inc p channel kwargs,
        ∃ selection,
          ActiveResult.sigma_pol self p_inc p channel kwargs
          = Result.squeezed selection
          ∧ Result.dB <$> ActiveResult.sigma_pol self p_inc p channel kwargs
            = Result.squeezed (Result.dB_array <$> selection)).
Proof.
  split; [|split; [|split; [|split; [|split]]]].
  - intros x Hwf. split; [apply squeeze_values|].
    split; [apply squeeze_no_unit_axis|].
    split; [apply squeeze_axes_sublist|]. by apply strongsqueeze_spec.
  - reflexivity.
  - intros; split; reflexivity.
  - intros self ratio kwargs.
    unfold PassiveResult.polarization_ratio, Result.squeezed.
    destruct (PassiveResult.first_char ratio); simpl; [done|].
    destruct (PassiveResult.sel_polarization self _ kwargs); simpl; [done|].
    destruct (PassiveResult.last_char ratio); simpl; [done|].
    destruct (PassiveResult.sel_polarization self _ kwargs); simpl; [done|].
    by destruct (xr_div _ _).
  - intros self channel kwargs.
    unfold ActiveResult.sigma, ActiveResult.sigma_dB.
    destruct (decide (is_Some (kwargs !! "return_backscatter"))).
    + by exists (inl TypeError).
    + exists (ActiveResult.sel_data self channel (ActiveResult.BStr "natural") kwargs).
      split; [done|]. unfold Result.squeezed.
      unfold ActiveResult.sel_data.
      destruct (Result.channel_filter self channel kwargs) as [e|kw]; [done|].
      simpl. destruct (_ && _); [done|].
      destruct (if decide _ then _ else _) as [e|theta]; simpl; [done|].
      destruct (match theta with ActiveResult.AngVal _ => _ | _ => _ end); simpl; [done|].
      by destruct (ActiveResult.backscatter theta _).
  - intros self p_inc p channel kwargs. unfold ActiveResult.sigma_pol.
    destruct (decide _).
    + by exists (inl TypeError).
    + unfold ActiveResult.sigma.
      destruct (decide _).
      * by exists (inl TypeError).
      * eexists. split; [reflexivity|]. by rewrite squeezed_dB.
Qed.
End SqueezeFacts.

(** C6, witness: [TbH] of the example radiometer at 37 GHz is a bare
    number, and the data of that result fit its shape. *)
Lemma scalar_accessors_squeeze_witness :
  wf (data Ref.passive)
  ∧ Result._strongsqueeze (data Ref.passive)
    = inr (OArray (squeeze (data Ref.passive)))
  ∧ PassiveResult.TbH Ref.passive {[ "frequency" := Ref.num 37 ]}
    = inr (OFloat 187%Z).
Proof.
  assert (Hwf : wf (data Ref.passive)) by reflexivity.
  split; [exact Hwf|]. split.
  - exact (proj2 (proj2 (proj2
      (proj1 scalar_accessors_squeeze _ Hwf)))).
  - vm_compute. reflexivity.
Defined.

(** ** Backscatter in linear units and in decibels *)

Section BackscatterFacts.
Context `{XArray}.

(** With ["dB"] the selection is the one made for ["natural"], in
    decibels. *)
Lemma sel_data_dB (self : Result) channel kwargs :
  ActiveResult.sel_data self channel (ActiveResult.BStr "dB") kwargs
  = Result.dB_array
      <$> ActiveResult.sel_data self channel (ActiveResult.BStr "natural") kwargs.
Proof.
  unfold ActiveResult.sel_data.
  destruct (Result.channel_filter self channel kwargs) as [e|kw]; [done|].
  simpl. destruct (_ && _); [done|].
  destruct (if decide _ then _ else _) as [e|theta]; simpl; [done|].
  destruct (match theta with ActiveResult.AngVal _ => _ | _ => _ end);
    simpl; [done|].
  by destruct (ActiveResult.backscatter theta _).
Qed.

(** The selection behind [sigma] for an explicit numeric angle: the data
    selected at that angle, every value multiplied by
    [4 * pi * cos(deg2rad(theta))]. *)
Lemma sel_data_natural_scalar (self : Result) kwargs (t : F) :
  kwargs !! "theta" = Some (VNum t) →
  kwargs !! "theta_inc" = None →
  ActiveResult.sel_data self None (ActiveResult.BStr "natural") kwargs
  = x ← ActiveResult.select_theta (data self) (IVal (VNum t))
          (delete "theta_inc" (delete "theta" kwargs));
    mret {| axes := axes x; scalar_coords := scalar_coords x;
            values := fmul (fmul (fmul (of_Z 4) np_pi) (np_cos (np_deg2rad t)))
                        <$> values x |}.
Proof.
  intros Ht Hti. unfold ActiveResult.sel_data. simpl.
  rewrite Ht. rewrite lookup_delete_ne by done. rewrite Hti. reflexivity.
Qed.

(** C7: for every active result and every selection, [sigma_dB] is ten
    times the decimal logarithm of [sigma], and so are the decibel
    wrappers of the fixed-polarization accessors; for an explicit numeric
    angle, [sigma] is the squeezed selection multiplied by
    [4 * pi * cos(theta)]. *)
Theorem sigma_dB_is_dB_of_sigma :
  (∀ (self : Result) channel kwargs,
      ActiveResult.sigma_dB self channel kwargs
      = Result.dB <$> ActiveResult.sigma self channel kwargs)
  ∧ (∀ (self : Result) p_inc p channel kwargs,
        Result.dB <$> ActiveResult.sigma_pol self p_inc p channel kwargs
        = if decide (is_Some (kwargs !! "polarization_inc")
                     ∨ is_Some (kwargs !! "polarization"))
          then raise TypeError
          else ActiveResult.sigma_dB self channel
                 (<["polarization_inc" := VStr p_inc]>
                    (<["polarization" := VStr p]> kwargs)))
  ∧ (∀ (self : Result) kwargs (t : F),
        kwargs !! "theta" = Some (VNum t) →
        kwargs !! "theta_inc" = None →
        kwargs !! "return_backscatter" = None →
        ActiveResult.sigma self None kwargs
        = x ← ActiveResult.select_theta (data self) (IVal (VNum t))
                (delete "theta_inc" (delete "theta" kwargs));
          Result._strongsqueeze
            {| axes := axes x; scalar_coords := scalar_coords x;
               values :=
                 fmul (fmul (fmul (of_Z 4) np_pi) (np_cos (np_deg2rad t)))
                   <$> values x |}).
Proof.
  assert (Hdb : ∀ (self : Result) channel kwargs,
             ActiveResult.sigma_dB self channel kwargs
             = Result.dB <$> ActiveResult.sigma self channel kwargs).
  { intros self channel kwargs. unfold ActiveResult.sigma_dB, ActiveResult.sigma.
    destruct (decide _); [done|].
    rewrite sel_data_dB. apply squeezed_dB. }
  split; [exact Hdb|]. split.
  - intros self p_inc p channel kwargs. unfold ActiveResult.sigma_pol.
    destruct (decide _); [done|]. by rewrite Hdb.
  - intros self kwargs t Ht Hti Hrb. unfold ActiveResult.sigma.
    rewrite Hrb.
    destruct (decide (is_Some None)) as [[? [=]]|_].
    rewrite (sel_data_natural_scalar _ _ t) by done.
    by destruct (ActiveResult.select_theta _ _ _).
Qed.
End BackscatterFacts.

(** C7, witness: the example active result at its angle of 45 degrees. *)
Lemma sigma_dB_is_dB_of_sigma_witness :
  ({[ "theta" := Ref.num 45 ]} : gmap string pyval) !! "theta"
  = Some (VNum 45%Z)
  ∧ ActiveResult.sigma Ref.active None {[ "theta" := Ref.num 45 ]}
    = inr (OArray
             {| axes := [("polarization_inc", [AStr "V"; AStr "H"]);
                         ("polarization", [AStr "V"; AStr "H"])];
                scalar_coords := [];
                values := [96; 12; 24; 192]%Z |}).
Proof.
  assert (Ht : ({[ "theta" := Ref.num 45 ]} : gmap string pyval) !! "theta"
               = Some (VNum 45%Z)) by reflexivity.
  split; [exact Ht|].
  rewrite (proj2 (proj2 sigma_dB_is_dB_of_sigma) Ref.active _ 45%Z Ht
             eq_refl eq_refl).
  vm_compute. reflexivity.
Defined.

(** ** Selection by channel *)

Section ChannelFacts.
Context `{XArray}.

Lemma channel_filter_lookup (self : Result) ch recorded kwargs :
  channel_map self !! ch = Some recorded →
  Result.channel_filter self (Some ch) kwargs
  = inr (filter (λ kv, kv.1 ∈ dims (data self)) recorded ∪ kwargs).
Proof. intros Hch. unfold Result.channel_filter. by rewrite Hch. Qed.

Lemma filter_dims_agree (ds : list string) (m1 m2 : gmap string pyval) :
  (∀ k, k ∈ ds → m1 !! k = m2 !! k) →
  filter (λ kv : string * pyval, kv.1 ∈ ds) m1
  = filter (λ kv : string * pyval, kv.1 ∈ ds) m2.
Proof.
  intros Hagree. apply map_eq. intros k. rewrite !map_lookup_filter.
  destruct (decide (k ∈ ds)) as [Hk|Hk].
  - by rewrite Hagree.
  - destruct (m1 !! k), (m2 !! k); simpl; by rewrite ?option_guard_False.
Qed.

(** C9: with a channel of the channel map, [sel_data] (of a passive or
    of an active result) updates the filters with exactly those recorded
    coordinates whose key is a dimension of the stored array.  The other
    recorded coordinates never reach the selection: the call is the call
    without channel on the updated filters, and two channel entries that
    agree on the dimensions give the same outcome. *)
Theorem channel_coordinates_outside_dims_ignored
    (self : Result) (ch : string) (recorded kwargs : gmap string pyval) :
  channel_map self !! ch = Some recorded →
  let merged := filter (λ kv, kv.1 ∈ dims (data self)) recorded ∪ kwargs in
  Result.channel_filter self (Some ch) kwargs = inr merged
  ∧ (∀ k v, recorded !! k = Some v → k ∈ dims (data self) →
            merged !! k = Some v)
  ∧ (∀ k, k ∉ dims (data self) → merged !! k = kwargs !! k)
  ∧ (∀ k, recorded !! k = None → merged !! k = kwargs !! k)
  ∧ PassiveResult.sel_data self (Some ch) kwargs
    = PassiveResult.sel_data self None merged
  ∧ (∀ rb, ActiveResult.sel_data self (Some ch) rb kwargs
           = ActiveResult.sel_data self None rb merged)
  ∧ (∀ (self' : Result) recorded',
        data self' = data self →
        channel_map self' !! ch = Some recorded' →
        (∀ k, k ∈ dims (data self) → recorded' !! k = recorded !! k) →
        PassiveResult.sel_data self' (Some ch) kwargs
        = PassiveResult.sel_data self (Some ch) kwargs
        ∧ ∀ rb, ActiveResult.sel_data self' (Some ch) rb kwargs
                = ActiveResult.sel_data self (Some ch) rb kwargs).
Proof.
  intros Hch merged.
  pose proof (channel_filter_lookup self ch recorded kwargs Hch) as Hcf.
  split; [exact Hcf|]. split; [|split; [|split; [|split; [|split]]]].
  - intros k v Hk Hdim. subst merged.
    rewrite lookup_union_l'; [by apply map_lookup_filter_Some_2|].
    exists v. by apply map_lookup_filter_Some_2.
  - intros k Hdim. subst merged. apply lookup_union_r.
    apply map_lookup_filter_None_2. right. intros v _. exact Hdim.
  - intros k Hk. subst merged. apply lookup_union_r.
    apply map_lookup_filter_None_2. by left.
  - unfold PassiveResult.sel_data. by rewrite Hcf.
  - intros rb. unfold ActiveResult.sel_data. by rewrite Hcf.
  - intros self' recorded' Hdata Hch' Hagree.
    unfold PassiveResult.sel_data, ActiveResult.sel_data.
    rewrite Hcf, (channel_filter_lookup self' ch recorded' kwargs Hch').
    rewrite Hdata, (filter_dims_agree _ recorded' recorded Hagree). done.
Qed.

(** C5 (as amended): when backscatter is asked for and the filters in
    effect, after the recorded coordinates of the channel have updated
    the keyword filters, hold a [theta] and a [theta_inc] that are both
    given and differ, the call raises the error of inconsistent angles;
    so do [sigma] and [sigma_dB]. *)
Theorem inconsistent_angles_rejected (self : Result) channel rb
    (kwargs merged : gmap string pyval) (theta theta_inc : pyval) :
  ActiveResult.truthy rb = true →
  Result.channel_filter self channel kwargs = inr merged →
  merged !! "theta" = Some theta →
  merged !! "theta_inc" = Some theta_inc →
  theta ≠ VNone → theta_inc ≠ VNone → theta ≠ theta_inc →
  let error : exn :=
    SMRTError "theta and theta_inc must be the same when returning backscatter" in
  ActiveResult.sel_data self channel rb kwargs = inl error
  ∧ (kwargs !! "return_backscatter" = None →
     ActiveResult.sigma self channel kwargs = inl error
     ∧ ActiveResult.sigma_dB self channel kwargs = inl error)
  ∧ (channel = None → merged = kwargs).
Proof.
  intros Hrb Hcf Ht Hti Hn Hni Hne error.
  assert (Hsel : ∀ rb', ActiveResult.truthy rb' = true →
            ActiveResult.sel_data self channel rb' kwargs = inl error).
  { intros rb' Hrb'. unfold ActiveResult.sel_data. rewrite Hcf. simpl.
    rewrite Hrb', Ht. rewrite lookup_delete_ne by done. rewrite Hti. simpl.
    rewrite bool_decide_eq_true_2 by done.
    destruct (np_all_eq theta_inc theta) eqn:Heq; [|done].
    apply np_all_eq_same in Heq. congruence. }
  split; [by apply Hsel|]. split.
  - intros Hkw. unfold ActiveResult.sigma, ActiveResult.sigma_dB.
    rewrite Hkw. destruct (decide (is_Some None)) as [[? [=]]|_].
    rewrite !Hsel by done. done.
  - intros ->. simpl in Hcf. by injection Hcf.
Qed.
End ChannelFacts.

(** C9, witness: channel 37H of the example radiometer also records an
    angle, which is no dimension of the data; [Tb] is the brightness
    temperature at 37 GHz, H polarization. *)
Lemma channel_coordinates_outside_dims_ignored_witness :
  channel_map Ref.passive !! "37H"
  = Some {[ "frequency" := Ref.num 37; "polarization" := VStr "H";
            "theta" := Ref.num 55 ]}
  ∧ PassiveResult.sel_data Ref.passive (Some "37H") ∅
    = PassiveResult.sel_data Ref.passive None
        {[ "frequency" := Ref.num 37; "polarization" := VStr "H" ]}
  ∧ PassiveResult.Tb Ref.passive (Some "37H") ∅ = inr (OFloat 187%Z).
Proof.
  assert (Hch : channel_map Ref.passive !! "37H"
                = Some {[ "frequency" := Ref.num 37; "polarization" := VStr "H";
                          "theta" := Ref.num 55 ]}) by (vm_compute; reflexivity).
  split; [exact Hch|]. split.
  - etrans.
    + exact (proj1 (proj2 (proj2 (proj2 (proj2
        (channel_coordinates_outside_dims_ignored Ref.passive "37H" _ ∅ Hch)))))).
    + vm_compute. reflexivity.
  - vm_compute. reflexivity.
Defined.

(** C5, witness: angles of 45 and 40 degrees on the example active
    result. *)
Lemma inconsistent_angles_rejected_witness :
  ActiveResult.sigma Ref.active None
    {[ "theta" := Ref.num 45; "theta_inc" := Ref.num 40 ]}
  = inl (SMRTError
           "theta and theta_inc must be the same when returning backscatter").
Proof.
  refine (proj1 (proj1 (proj2 (inconsistent_angles_rejected Ref.active None
            (ActiveResult.BStr "natural")
            {[ "theta" := Ref.num 45; "theta_inc" := Ref.num 40 ]}
            {[ "theta" := Ref.num 45; "theta_inc" := Ref.num 40 ]}
            (Ref.num 45) (Ref.num 40) _ _ _ _ _ _ _)) _));
    try reflexivity; try discriminate.
Defined.

(** C5, as stated, fails when a channel is given: the angle the channel
    records replaces the [theta] of the call, the two angles then agree,
    and the call returns the backscatter at 40 degrees although it was
    made with 30 and 40. *)
Lemma channel_overrides_inconsistent_angle :
  ActiveResult.sigma Ref.scatterometer (Some "ch")
    {[ "theta" := Ref.num 30; "theta_inc" := Ref.num 40 ]}
  = ActiveResult.sigma Ref.scatterometer None {[ "theta" := Ref.num 40 ]}
  ∧ is_ok (ActiveResult.sigma Ref.scatterometer (Some "ch")
             {[ "theta" := Ref.num 30; "theta_inc" := Ref.num 40 ]}) = true.
Proof. split; vm_compute; reflexivity. Qed.

(** ** Broadcasting of construction arguments *)

Section BroadcastFacts.
Context `{Numeric}.
Implicit Types (kwargs : gmap string pyval).

(** The lengths collected by [make_interface]. *)
Lemma sequence_lengths kwargs (n : nat) :
  (∃ k l, kwargs !! k = Some (VSeq l)) →
  (∀ k l, kwargs !! k = Some (VSeq l) → length l = n) →
  let lens := Interface.seq_len
                <$> filter (λ v, Interface.is_sequence v = true)
                           (map_to_list kwargs).*2 in
  lens ≠ [] ∧ max_list lens = n.
Proof.
  intros (k & l & Hk) Hlen lens.
  assert (Hall : ∀ m, m ∈ lens → m = n).
  { intros m Hm. apply list_elem_of_fmap in Hm as (v & -> & Hv).
    apply list_elem_of_filter in Hv as [Hseq Hv].
    apply list_elem_of_fmap in Hv as ([k' v'] & -> & Hkv).
    apply elem_of_map_to_list in Hkv. simpl in *.
    destruct v' as [a|l']; [done|]. simpl. by eapply Hlen. }
  assert (Hin : n ∈ lens).
  { rewrite <-(Hlen k l Hk). apply list_elem_of_fmap. exists (VSeq l).
    split; [done|]. apply list_elem_of_filter. split; [done|].
    apply list_elem_of_fmap. exists (k, VSeq l). split; [done|].
    by apply elem_of_map_to_list. }
  assert (Hne : lens ≠ []) by (intros Hnil; rewrite Hnil in Hin; inversion Hin).
  split; [done|]. apply Hall. by apply max_list_elem_of.
Qed.

Lemma get_in_range kwargs (n i : nat) :
  (∀ k l, kwargs !! k = Some (VSeq l) → length l = n) →
  (i < n)%nat →
  Interface.get kwargs i = inr (Interface.item_or_same i <$> kwargs).
Proof.
  intros Hlen Hi. unfold Interface.get.
  destruct (decide _) as [|Hbad]; [done|]. exfalso. apply Hbad.
  intros k v Hk. destruct v as [a|l]; [done|]. simpl.
  destruct (lookup_lt_is_Some_2 l i) as [a Ha]; [|by rewrite Ha].
  by rewrite (Hlen k l Hk).
Qed.

Lemma make_interface_broadcast_eq Flat registry id cls kwargs (n : nat) :
  Interface.resolves_to Flat registry id cls →
  (∃ k l, kwargs !! k = Some (VSeq l)) →
  (∀ k l, kwargs !! k = Some (VSeq l) → length l = n) →
  Interface.make_interface Flat registry id true kwargs
  = Interface.MadeList
      <$> mapM (λ i, Interface.cls_init cls (Interface.item_or_same i <$> kwargs))
               (seq 0 n).
Proof.
  intros Hid Hseq Hlen.
  destruct (sequence_lengths kwargs n Hseq Hlen) as [Hne Hmax].
  assert (Hkw : kwargs ≠ ∅).
  { destruct Hseq as (k & l & Hk). intros ->. by rewrite lookup_empty in Hk. }
  assert (Hbuild :
    (if true && bool_decide (kwargs ≠ ∅)
        && bool_decide (Interface.seq_len
                          <$> filter (λ v, Interface.is_sequence v = true)
                                     (map_to_list kwargs).*2 ≠ [])
     then Interface.MadeList
            <$> mapM (λ i, kw ← Interface.get kwargs i; Interface.cls_init cls kw)
                     (seq 0 (max_list (Interface.seq_len
                          <$> filter (λ v, Interface.is_sequence v = true)
                                     (map_to_list kwargs).*2)))
     else Interface.MadeOne <$> Interface.cls_init cls kwargs)
    = Interface.MadeList
        <$> mapM (λ i, Interface.cls_init cls (Interface.item_or_same i <$> kwargs))
                 (seq 0 n)).
  { rewrite !bool_decide_eq_true_2 by done. simpl. rewrite Hmax.
    f_equal. apply mapM_res_ext. intros i Hi.
    apply elem_of_seq in Hi. by rewrite (get_in_range kwargs n i) by (done || lia). }
  unfold Interface.make_interface.
  destruct id as [|name|c|o]; simpl in Hid.
  - subst cls. exact Hbuild.
  - unfold Interface.import_class. rewrite Hid. exact Hbuild.
  - subst c. exact Hbuild.
  - done.
Qed.

(** C2 (as amended): with broadcasting left on, an identifier that stands
    for a class, and keyword arguments of which at least one is a sequence,
    all sequences having the same length [n], [make_interface] builds one
    instance per index below [n]; the instance of index [i] is constructed
    with the i-th element of every sequence and with every scalar argument
    unchanged.  When the constructions succeed the result is the list of
    these [n] instances. *)
Theorem make_interface_broadcasts Flat registry id cls kwargs (n : nat) :
  Interface.resolves_to Flat registry id cls →
  (∃ k l, kwargs !! k = Some (VSeq l)) →
  (∀ k l, kwargs !! k = Some (VSeq l) → length l = n) →
  Interface.make_interface Flat registry id true kwargs
  = Interface.MadeList
      <$> mapM (λ i, Interface.cls_init cls (Interface.item_or_same i <$> kwargs))
               (seq 0 n)
  ∧ (∀ i k l a, kwargs !! k = Some (VSeq l) → l !! i = Some a →
                (Interface.item_or_same i <$> kwargs) !! k = Some (VAtom a))
  ∧ (∀ i k a, kwargs !! k = Some (VAtom a) →
              (Interface.item_or_same i <$> kwargs) !! k = Some (VAtom a))
  ∧ (∀ i k, kwargs !! k = None →
            (Interface.item_or_same i <$> kwargs) !! k = None)
  ∧ (∀ made,
        Interface.make_interface Flat registry id true kwargs = inr made →
        ∃ insts,
          made = Interface.MadeList insts
          ∧ length insts = n
          ∧ ∀ i, (i < n)%nat →
              ∃ o, insts !! i = Some o
                   ∧ Interface.cls_init cls (Interface.item_or_same i <$> kwargs)
                     = inr o).
Proof.
  intros Hid Hseq Hlen.
  pose proof (make_interface_broadcast_eq Flat registry id cls kwargs n
                Hid Hseq Hlen) as Heq.
  split; [exact Heq|]. split; [|split; [|split]].
  - intros i k l a Hk Ha. rewrite lookup_fmap, Hk. simpl.
    unfold Interface.item_or_same. simpl. by rewrite Ha.
  - intros i k a Hk. by rewrite lookup_fmap, Hk.
  - intros i k Hk. by rewrite lookup_fmap, Hk.
  - intros made Hmade. rewrite Heq in Hmade.
    destruct (mapM _ (seq 0 n)) as [e|insts] eqn:Hm; [done|].
    simpl in Hmade. injection Hmade as <-.
    exists insts. split; [done|].
    pose proof (mapM_res_length _ _ _ Hm) as Hl. rewrite length_seq in Hl.
    split; [done|]. intros i Hi.
    apply mapM_res_Forall2 in Hm.
    destruct (Forall2_lookup_l _ _ _ i i Hm) as (o & Ho & Hinit).
    { by apply lookup_seq_lt. }
    by exists o.
Qed.
End BroadcastFacts.

(** C2, witness: one scalar argument and one sequence of three elements
    give three instances. *)
Lemma make_interface_broadcasts_witness :
  ∃ o1 o2 o3,
    Interface.make_interface Ref.rough ∅ (Interface.IdClass Ref.rough) true
      {[ "roughness_rms" := Ref.num 1;
         "corr_length" := VSeq [ANum 10; ANum 20; ANum 30]%Z ]}
    = inr (Interface.MadeList [o1; o2; o3])
    ∧ Interface.inst_attrs o2
      = {[ "roughness_rms" := Ref.num 1; "corr_length" := Ref.num 20 ]}.
Proof.
  pose (kwargs := ({[ "roughness_rms" := Ref.num 1;
                      "corr_length" := VSeq [ANum 10; ANum 20; ANum 30]%Z ]}
                   : gmap string pyval)).
  assert (Hseq : ∃ k l, kwargs !! k = Some (VSeq l)).
  { exists "corr_length". eexists. reflexivity. }
  assert (Hlen : ∀ k l, kwargs !! k = Some (VSeq l) → length l = 3%nat).
  { intros k l. subst kwargs.
    destruct (decide (k = "roughness_rms")) as [->|Hk1].
    - rewrite lookup_insert_eq. discriminate.
    - rewrite lookup_insert_ne by done.
      destruct (decide (k = "corr_length")) as [->|Hk2].
      + rewrite lookup_singleton_eq. by intros [= <-].
      + rewrite lookup_singleton_ne by done. discriminate. }
  pose proof (proj1 (make_interface_broadcasts Ref.rough ∅
                (Interface.IdClass Ref.rough) Ref.rough kwargs 3
                eq_refl Hseq Hlen)) as Heq.
  eexists _, _, _. split.
  - etrans; [exact Heq|]. vm_compute. reflexivity.
  - vm_compute. reflexivity.
Defined.

(** C2, as stated, fails when broadcasting is switched off: the sequence
    is handed to the constructor as it is and a single instance comes
    back. *)
Lemma make_interface_without_broadcast :
  ∃ o,
    Interface.make_interface Ref.rough ∅ (Interface.IdClass Ref.rough) false
      {[ "roughness_rms" := Ref.num 1;
         "corr_length" := VSeq [ANum 10; ANum 20; ANum 30]%Z ]}
    = inr (Interface.MadeOne o)
    ∧ Interface.inst_attrs o !! "corr_length"
      = Some (VSeq [ANum 10; ANum 20; ANum 30]%Z).
Proof. eexists. split; vm_compute; reflexivity. Qed.

(** ** Substrates without a permittivity model *)

Section SubstrateFacts.
Context `{Numeric} {Eps Mu Matrix : Type}.
Implicit Types (icls : Substrate.interface_cls (Eps := Eps) (Mu := Mu) (Matrix := Matrix)).
Implicit Types (self : Substrate.SubstrateBase (Eps := Eps)).

Lemma with_eps_2_no_model {A} self frequency
    (call : Eps → Substrate.logged A) (log : list Substrate.raw_call) :
  Substrate.permittivity_model self = None →
  Substrate.with_eps_2 self frequency call log
  = (inl (SMRTError "No permittivity_model have been given to the substrate"),
     log).
Proof.
  intros Hnone. unfold Substrate.with_eps_2, Substrate.permittivity.
  by rewrite Hnone.
Qed.

(** With a model that gives a permittivity, the raw operation is called
    with it. *)
Lemma specular_reflection_matrix_delegates icls self model op
    frequency eps_1 eps_2 mu1 npol log :
  Substrate.permittivity_model self = Some model →
  model frequency (Substrate.temperature self) = inr (Some eps_2) →
  Substrate.raw_specular_reflection_matrix icls = Some op →
  Substrate.specular_reflection_matrix icls self frequency eps_1 mu1 npol log
  = (op frequency eps_1 eps_2 mu1 npol,
     log ++ [Substrate.mkRawCall "specular_reflection_matrix" frequency eps_2]).
Proof.
  intros Hmodel Heps Hop.
  unfold Substrate.specular_reflection_matrix, Substrate.with_eps_2,
    Substrate.permittivity.
  rewrite Hmodel, Heps, Hop. reflexivity.
Qed.

(** C8: on a substrate without permittivity model, each of the four
    boundary operations that [substrate_from_interface] derives raises the
    error of the missing model and leaves the log of raw calls as it was:
    the operation of the interface class is not called, with no
    permittivity whatsoever. *)
Theorem derived_operations_need_permittivity_model icls
    (cls_attrs : list string) self (log : list Substrate.raw_call) :
  Substrate.permittivity_model self = None →
  let newcls := Substrate.substrate_from_interface icls cls_attrs in
  let failure {A} : res A * list Substrate.raw_call :=
    (inl (SMRTError "No permittivity_model have been given to the substrate"),
     log) in
  (∀ method frequency eps_1 mu1 npol,
      Substrate.m_specular_reflection_matrix newcls = Some method →
      method self frequency eps_1 mu1 npol log = failure)
  ∧ (∀ method frequency eps_1 mu1 npol,
        Substrate.m_emissivity_matrix newcls = Some method →
        method self frequency eps_1 mu1 npol log = failure)
  ∧ (∀ method frequency eps_1 mu_s mu_i dphi npol,
        Substrate.m_diffuse_reflection_matrix newcls = Some method →
        method self frequency eps_1 mu_s mu_i dphi npol log = failure)
  ∧ (∀ method frequency eps_1 mu_s mu_i m_max npol,
        Substrate.m_ft_even_diffuse_reflection_matrix newcls = Some method →
        method self frequency eps_1 mu_s mu_i m_max npol log = failure).
Proof.
  intros Hnone newcls failure. subst newcls failure.
  unfold Substrate.substrate_from_interface, Substrate.auto_add. simpl.
  repeat split; intros method; intros;
    destruct (negb _ && _); simplify_eq;
    by apply with_eps_2_no_model.
Qed.
End SubstrateFacts.

(** C8, witness: a substrate built on an interface class that has the
    specular reflection, with a temperature and no model. *)
Lemma derived_operations_need_permittivity_model_witness :
  let icls : Substrate.interface_cls :=
    Substrate.mkInterfaceCls
      (Some (λ (frequency eps_1 eps_2 mu1 : Z) (npol : nat), inr eps_2 : res Z))
      None None None in
  let self : Substrate.SubstrateBase (Eps := Z) :=
    Substrate.mkSubstrate (Ref.num 270) None in
  Substrate.permittivity_model self = None
  ∧ ∃ method,
      Substrate.m_specular_reflection_matrix
        (Substrate.substrate_from_interface icls []) = Some method
      ∧ method self 37%Z 1%Z 1%Z 2%nat []
        = (inl (SMRTError "No permittivity_model have been given to the substrate"),
           []).
Proof.
  intros icls self. split; [reflexivity|].
  eexists. split; [reflexivity|].
  exact (proj1 (derived_operations_need_permittivity_model icls [] self []
                  eq_refl) _ 37%Z 1%Z 1%Z 2%nat eq_refl).
Defined.

(** ** Concatenation of results *)

Section ConcatFacts.
Context `{XArray}.

(** Every entry of a tagged channel map is an entry of the source with
    one key added, and that key is the word [dim_name]. *)
Lemma tag_channels_entries cm (dv : atom) tagged :
  Result.tag_channels cm dv = inr tagged →
  ∀ ch m, tagged !! ch = Some m →
    ∃ m0, cm !! ch = Some m0 ∧ m = <["dim_name" := VAtom dv]> m0.
Proof.
  unfold Result.tag_channels. destruct (decide _) as [Hall|]; [|done].
  intros [= <-] ch m. rewrite lookup_fmap.
  destruct (cm !! ch) as [m0|]; simpl; [|done].
  intros [= <-]. by exists m0.
Qed.

Lemma merge_channel_maps_entries (result_list : list Result)
    (dim_value : list atom) cm :
  Result.merge_channel_maps result_list dim_value = inr cm →
  ∀ ch m, cm !! ch = Some m →
    ∃ r dv m0, (r, dv) ∈ zip result_list dim_value
               ∧ channel_map r !! ch = Some m0
               ∧ m = <["dim_name" := VAtom dv]> m0.
Proof.
  unfold Result.merge_channel_maps.
  generalize (zip result_list dim_value). intros pairs. revert cm.
  induction pairs as [|[r dv] pairs IH] using rev_ind; intros cm.
  - simpl. intros [= <-] ch m. by rewrite lookup_empty.
  - rewrite foldl_app. simpl.
    destruct (foldl _ _ pairs) as [e|acc]; simpl; [done|].
    destruct (Result.tag_channels (channel_map r) dv) as [e|tagged] eqn:Ht;
      simpl; [done|].
    intros [= <-] ch m Hm. apply lookup_union_Some_raw in Hm as [Hm|[_ Hm]].
    + destruct (tag_channels_entries _ _ _ Ht ch m Hm) as (m0 & Hm0 & ->).
      exists r, dv, m0. split; [|done]. apply elem_of_app. right. by left.
    + destruct (IH acc eq_refl ch m Hm) as (r' & dv' & m0 & Hin & Hm0 & ->).
      exists r', dv', m0. split; [|done]. apply elem_of_app. by left.
Qed.

(** When the channel maps differ, the value of the new axis is recorded
    in every channel under the key [dim_name], whatever the name of the
    axis; under the name of the axis the channel has what its source had
    there. *)
Lemma concat_results_tag_key (result_list : list Result) dim_name dim_value
    (result r0 : Result) :
  dim_name ≠ "dim_name" →
  head result_list = Some r0 →
  existsb (λ r, bool_decide (channel_map r ≠ channel_map r0)) result_list
  = true →
  Result.concat_results result_list (CoordTuple dim_name dim_value)
  = inr result →
  ∀ ch m, channel_map result !! ch = Some m →
    ∃ r dv m0, (r, dv) ∈ zip result_list dim_value
               ∧ channel_map r !! ch = Some m0
               ∧ m !! "dim_name" = Some (VAtom dv)
               ∧ m !! dim_name = m0 !! dim_name.
Proof.
  intros Hname Hhead Hdiff. unfold Result.concat_results. simpl.
  destruct result_list as [|r1 l]; [done|]. injection Hhead as ->. simpl.
  destruct (negb _); [done|].
  change (bool_decide (channel_map r0 ≠ channel_map r0)
          || existsb (λ r, bool_decide (channel_map r ≠ channel_map r0)) l)
    with (existsb (λ r, bool_decide (channel_map r ≠ channel_map r0)) (r0 :: l)).
  rewrite Hdiff.
  destruct (Result.merge_channel_maps _ _) as [e|cm] eqn:Hcm; simpl; [done|].
  destruct (xr_concat _ _); simpl; [done|].
  intros [= <-] ch m Hm. simpl in Hm.
  destruct (merge_channel_maps_entries _ _ _ Hcm ch m Hm)
    as (r & dv & m0 & Hin & Hm0 & ->).
  exists r, dv, m0. split; [done|]. split; [done|].
  split; [apply lookup_insert_eq|]. by rewrite lookup_insert_ne.
Qed.
End ConcatFacts.

(** C4, the code at the failing input: two results of different sensors
    concatenated along an axis named [time] with values 1 and 2.  Each
    channel gets the value of its source, but under the key [dim_name];
    no channel has an entry for [time]. *)
Theorem concat_results_tags_under_literal_key :
  ∃ result,
    Result.concat_results [Ref.at19; Ref.at37]
      (CoordTuple "time" [ANum 1; ANum 2]%Z)
    = inr result
    ∧ channel_map result
      = {[ "19V" := {[ "polarization" := VStr "V"; "dim_name" := Ref.num 1 ]};
           "37V" := {[ "polarization" := VStr "V"; "dim_name" := Ref.num 2 ]} ]}
    ∧ ∀ ch recorded,
        channel_map result !! ch = Some recorded → recorded !! "time" = None.
Proof.
  match goal with
  | |- ∃ _, ?call = _ ∧ _ => destruct call as [e|result] eqn:Hc
  end; [by vm_compute in Hc|].
  exists result. split; [done|].
  assert (Hcm : channel_map result
      = {[ "19V" := {[ "polarization" := VStr "V"; "dim_name" := Ref.num 1 ]};
           "37V" := {[ "polarization" := VStr "V"; "dim_name" := Ref.num 2 ]} ]}).
  { vm_compute in Hc. injection Hc as <-. vm_compute. reflexivity. }
  split; [exact Hcm|].
  intros ch recorded Hch.
  destruct (concat_results_tag_key [Ref.at19; Ref.at37] "time" _ result
              Ref.at19 ltac:(done) eq_refl ltac:(by vm_compute) Hc ch recorded Hch)
    as (r & dv & m0 & Hin & Hm0 & _ & ->).
  simpl in Hin.
  apply elem_of_cons in Hin as [[= -> ->]|Hin].
  - destruct (decide (ch = "19V")) as [->|Hne].
    + vm_compute in Hm0. by injection Hm0 as <-.
    + unfold Ref.at19 in Hm0. simpl in Hm0.
      by rewrite lookup_singleton_ne in Hm0.
  - apply elem_of_cons in Hin as [[= -> ->]|Hin]; [|by inversion Hin].
    destruct (decide (ch = "37V")) as [->|Hne].
    + vm_compute in Hm0. by injection Hm0 as <-.
    + unfold Ref.at37 in Hm0. simpl in Hm0.
      by rewrite lookup_singleton_ne in Hm0.
Qed.

(** ** Folding the flat results back *)

Lemma mapM_res_inl {A B} (f : A → res B) (l : list A) (e : exn) :
  mapM f l = inl e → ∃ x, x ∈ l ∧ f x = inl e.
Proof.
  induction l as [|x l IH]; simpl; [done|].
  destruct (f x) as [e'|y] eqn:Hx; simpl.
  - intros [= <-]. exists x. split; [by left|done].
  - destruct (mapM f l) as [e'|k]; simpl; [|done].
    intros [= <-]. destruct (IH eq_refl) as (x' & Hin & Hx').
    exists x'. split; [by right|done].
Qed.

(** A start below the length is one of the starts of the range. *)
Lemma start_in_range (k n m : nat) :
  (0 < n)%nat → (k * n < m)%nat →
  (k < Z.to_nat ((Z.of_nat m + Z.of_nat n - 1) `div` Z.of_nat n))%nat.
Proof.
  intros Hn Hk.
  assert (Z.of_nat k + 1 ≤ (Z.of_nat m + Z.of_nat n - 1) `div` Z.of_nat n)%Z.
  { apply Z.div_le_lower_bound; nia. }
  lia.
Qed.

Lemma elem_of_slice {A} (l : list A) (i j : Z) (x : A) :
  x ∈ slice l i j → x ∈ l.
Proof.
  unfold slice. intros Hx.
  apply list_elem_of_lookup in Hx as [k Hk].
  apply lookup_take_Some in Hk as [Hk _]. rewrite lookup_drop in Hk.
  apply list_elem_of_lookup. eauto.
Qed.

Section FoldFacts.
Context `{XArray}.

Lemma merge_channel_maps_not_SMRTError (result_list : list Result)
    (dim_value : list atom) :
  is_SMRTError (Result.merge_channel_maps result_list dim_value) = false.
Proof.
  unfold Result.merge_channel_maps.
  generalize (zip result_list dim_value). intros pairs.
  induction pairs as [|[r dv] pairs IH] using rev_ind; [done|].
  rewrite foldl_app. simpl.
  destruct (foldl _ _ pairs) as [e|acc]; simpl; [exact IH|].
  unfold Result.tag_channels. by destruct (decide _).
Qed.

(** The two checks of [concat_results] that raise the repository's own
    error. *)
Lemma concat_results_mixed (result_list : list Result) (c : coord)
    (r0 r : Result) :
  head result_list = Some r0 → r ∈ result_list → type r ≠ type r0 →
  is_SMRTError (Result.concat_results result_list c) = true.
Proof.
  intros Hhead Hin Hty. unfold Result.concat_results.
  destruct result_list as [|r1 l]; [done|]. injection Hhead as ->.
  assert (Hall : forallb (λ result, bool_decide (type result = type r0))
                   (r0 :: l) = false).
  { apply not_true_is_false. intros Hall.
    rewrite forallb_forall in Hall. apply Hty.
    specialize (Hall r (proj1 (list_elem_of_In _ _) Hin)).
    by apply bool_decide_eq_true in Hall. }
  destruct c; simpl in *; by rewrite ?Hall.
Qed.

Lemma concat_results_uniform (result_list : list Result) dim_name dim_value :
  (∀ l index, is_SMRTError (xr_concat l index) = false) →
  (∀ r r', r ∈ result_list → r' ∈ result_list → type r = type r') →
  is_SMRTError
    (Result.concat_results result_list (CoordTuple dim_name dim_value))
  = false.
Proof.
  intros Hlib Huni. unfold Result.concat_results. simpl.
  destruct result_list as [|r0 l]; [done|].
  assert (Hall : forallb (λ result, bool_decide (type result = type r0))
                   (r0 :: l) = true).
  { apply forallb_forall. intros r Hr. apply bool_decide_eq_true.
    apply Huni; [by apply list_elem_of_In|by left]. }
  cbn [mbind res_bind mret res_ret]. rewrite Hall. cbn [negb].
  destruct (existsb _ _).
  - pose proof (merge_channel_maps_not_SMRTError (r0 :: l) dim_value) as Hm.
    destruct (Result.merge_channel_maps _ _) as [e|cm]; [exact Hm|].
    simpl. specialize (Hlib (data <$> r0 :: l) (mkIndex (Some dim_name) dim_value)).
    by destruct (xr_concat _ _).
  - simpl. specialize (Hlib (data <$> r0 :: l) (mkIndex (Some dim_name) dim_value)).
    by destruct (xr_concat _ _).
Qed.

(** Once a turn of the loop has raised, the loop has. *)
Lemma reshape_snoc (results : list Result) (outer : list coord) (d : coord) :
  Model.reshape results (outer ++ [d])
  = rs ← Model.fold_dimension results d; Model.reshape rs outer.
Proof.
  unfold Model.reshape. rewrite reverse_app. simpl.
  destruct (Model.fold_dimension results d) as [e|rs]; simpl; [|done].
  induction (reverse outer) as [|d' l IH]; [done|]. exact IH.
Qed.

(** On results of one class a turn of the loop never raises the
    repository's error, whatever the sizes. *)
Lemma fold_dimension_uniform (results : list Result) dim_name dim_value :
  (∀ l index, is_SMRTError (xr_concat l index) = false) →
  (∀ r r', r ∈ results → r' ∈ results → type r = type r') →
  is_SMRTError (Model.fold_dimension results (CoordTuple dim_name dim_value))
  = false.
Proof.
  intros Hlib. set (d := CoordTuple dim_name dim_value).
  intros Huni. unfold Model.fold_dimension. simpl.
  destruct (range 0 (len results) (len dim_value)) as [e|starts] eqn:Hr.
  { unfold range, raise in Hr. repeat case_decide; by simplify_eq/=. }
  simpl.
  destruct (mapM _ starts) as [e|rs] eqn:Hm; [|done].
  apply mapM_res_inl in Hm as (i & _ & Hi).
  pose proof (concat_results_uniform
                (slice results i (i + len dim_value)) dim_name dim_value Hlib)
    as Hc.
  unfold d in Hi. rewrite Hi in Hc. apply Hc.
  intros r r' Hr1 Hr2. apply Huni; by eapply elem_of_slice.
Qed.

(** A group with more or fewer results than the axis has values is
    refused by an array library that checks the two numbers. *)
Lemma concat_results_short_group (group : list Result) (d : coord) :
  (∀ l index, length l ≠ length (index_labels index) →
              is_ok (xr_concat l index) = false) →
  length group ≠ Model.coord_len d →
  is_ok (Result.concat_results group d) = false.
Proof.
  intros Hlib Hlen. unfold Result.concat_results.
  destruct d as [dim_name dim_value|index|]; [| |done].
  - cbn [mbind res_bind mret res_ret].
    destruct group as [|r0 l]; [done|]. cbn [mbind res_bind mret res_ret].
    destruct (negb _); [done|].
    destruct (if existsb _ _ then _ else _) as [e|cm]; [done|].
    cbn [mbind res_bind].
    specialize (Hlib (data <$> r0 :: l) (mkIndex (Some dim_name) dim_value)).
    rewrite length_fmap in Hlib. specialize (Hlib Hlen).
    by destruct (xr_concat _ _).
  - cbn [mbind res_bind mret res_ret].
    destruct group as [|r0 l]; [done|]. cbn [mbind res_bind mret res_ret].
    destruct (negb _); [done|].
    destruct (if existsb _ _ then _ else _) as [e|cm]; [done|].
    cbn [mbind res_bind].
    specialize (Hlib (data <$> r0 :: l) index).
    rewrite length_fmap in Hlib. specialize (Hlib Hlen).
    by destruct (xr_concat _ _).
Qed.

(** On results of one class [concat_results] does not raise the
    repository's error along a tuple or an index. *)
Lemma concat_results_uniform_axis (result_list : list Result) (d : coord) :
  (∀ l index, is_SMRTError (xr_concat l index) = false) →
  d ≠ CoordOther →
  (∀ r r', r ∈ result_list → r' ∈ result_list → type r = type r') →
  is_SMRTError (Result.concat_results result_list d) = false.
Proof.
  intros Hlib Hd Huni.
  destruct d as [dim_name dim_value|index|]; [by apply concat_results_uniform| |done].
  unfold Result.concat_results. cbn [mbind res_bind mret res_ret].
  destruct result_list as [|r0 l]; [done|].
  assert (Hall : forallb (λ result, bool_decide (type result = type r0))
                   (r0 :: l) = true).
  { apply forallb_forall. intros r Hr. apply bool_decide_eq_true.
    apply Huni; [by apply list_elem_of_In|by left]. }
  cbn [mbind res_bind mret res_ret]. rewrite Hall. cbn [negb].
  destruct (existsb _ _); [done|]. cbn [mbind res_bind].
  specialize (Hlib (data <$> r0 :: l) index).
  by destruct (xr_concat _ _).
Qed.

(** A turn of the loop that succeeds had groups that were all full: the
    number of results it was given is the number of groups times the
    number of values of the axis, which is not zero. *)
Lemma fold_dimension_succeeds_evenly (results out : list Result) (d : coord) :
  (∀ l index, length l ≠ length (index_labels index) →
              is_ok (xr_concat l index) = false) →
  Model.fold_dimension results d = inr out →
  (0 < Model.coord_len d)%nat
  ∧ length results = (length out * Model.coord_len d)%nat.
Proof.
  intros Hlib. unfold Model.fold_dimension.
  assert (Hd : d = CoordOther ∨ d ≠ CoordOther)
    by (destruct d; [by right|by right|by left]).
  destruct Hd as [->|Hd]; [done|].
  assert (Hn : match d with
               | CoordTuple _ values => mret (len values)
               | CoordIndex index => mret (len (index_labels index))
               | CoordOther => raise TypeError
               end = inr (Z.of_nat (Model.coord_len d))).
  { by destruct d. }
  rewrite Hn. clear Hn. cbn [mbind res_bind].
  set (n := Model.coord_len d).
  destruct (decide (n = 0)%nat) as [Hzero|Hpos].
  { rewrite Hzero. unfold range. simpl. done. }
  assert (Hnpos : (0 < n)%nat) by lia.
  rewrite range_positive by lia. cbn [mbind res_bind].
  set (count := Z.to_nat ((len results + Z.of_nat n - 1) `div` Z.of_nat n)).
  intros Hmap. split; [done|].
  pose proof (mapM_res_length _ _ _ Hmap) as Hlen.
  rewrite length_fmap, length_seq in Hlen.
  pose proof (range_count_covers (len results) (Z.of_nat n)
                ltac:(lia) ltac:(unfold len; lia)) as Hcover.
  fold count in Hcover. unfold len in Hcover.
  rewrite Hlen.
  destruct count as [|k] eqn:Hcount; [lia|].
  assert (Hfull : length (slice results (Z.of_nat k * Z.of_nat n)
                            (Z.of_nat k * Z.of_nat n + Z.of_nat n)) = n).
  { destruct (decide (length (slice results (Z.of_nat k * Z.of_nat n)
                                (Z.of_nat k * Z.of_nat n + Z.of_nat n)) = n))
      as [|Hshort]; [done|].
    exfalso.
    pose proof (concat_results_short_group _ d Hlib Hshort) as Hfail.
    destruct (Result.concat_results _ d) as [e|] eqn:He; [|done].
    pose proof (mapM_res_fails
                  (λ i, Result.concat_results
                          (slice results i (i + Z.of_nat n)) d)
                  ((λ k0 : nat, (Z.of_nat k0 * Z.of_nat n)%Z) <$> seq 0 (S k))
                  (Z.of_nat k * Z.of_nat n)%Z e) as Hbad.
    rewrite Hmap in Hbad. discriminate Hbad; [|exact He].
    apply list_elem_of_fmap. exists k. split; [done|].
    apply elem_of_seq. lia. }
  rewrite slice_chunk, length_take, length_drop in Hfull. nia.
Qed.

End FoldFacts.

(** The stand-in array library raises none of the repository's errors,
    and refuses a number of arrays other than the number of labels. *)
Lemma ref_concat_not_SMRTError (l : list DataArray) (index : Index) :
  is_SMRTError (xr_concat l index) = false.
Proof.
  simpl. unfold Ref.concat. destruct l as [|x0 l]; [done|].
  by destruct (decide _).
Qed.

Lemma ref_concat_checks_count (l : list DataArray) (index : Index) :
  length l ≠ length (index_labels index) →
  is_ok (xr_concat l index) = false.
Proof.
  intros Hlen. simpl. unfold Ref.concat. destruct l as [|x0 l]; [done|].
  by destruct (decide _).
Qed.



(** ** The number of simulation units *)

Lemma NoDup_fst_filter {A B} (P : A * B → Prop) `{∀ x, Decision (P x)}
    (l : list (A * B)) :
  NoDup l.*1 → NoDup (filter P l).*1.
Proof.
  induction l as [|x l IH]; [done|].
  rewrite fmap_cons. intros [Hx Hl]%NoDup_cons.
  rewrite filter_cons. destruct (decide (P x)); [|by apply IH].
  rewrite fmap_cons. apply NoDup_cons. split; [|by apply IH].
  intros Hin. apply Hx.
  apply list_elem_of_fmap in Hin as (y & -> & Hy).
  apply list_elem_of_fmap. exists y. split; [done|].
  by apply list_elem_of_filter in Hy as [_ ?].
Qed.

(** In a list of distinct names, looking a name up finds its entry. *)
Lemma list_find_name {B} (l : list (string * B)) (c : string * B) :
  NoDup l.*1 → c ∈ l →
  ∃ i, list_find (λ c' : string * B, c'.1 = c.1) l = Some (i, c).
Proof.
  intros Hdup Hin. apply list_elem_of_lookup in Hin as [i Hi].
  exists i. apply list_find_Some. split; [done|]. split; [done|].
  intros j y Hj Hlt Hy.
  assert (l.*1 !! i = Some c.1) as Hi1 by (by rewrite list_lookup_fmap, Hi).
  assert (l.*1 !! j = Some c.1) as Hj1 by (by rewrite list_lookup_fmap, Hj; simpl; rewrite Hy).
  pose proof (NoDup_lookup _ _ _ _ Hdup Hi1 Hj1). lia.
Qed.

(** Replacing an entry of another name does not change what a lookup by
    name finds. *)
Lemma list_find_name_insert {B} (l : list (string * B)) (name : string)
    (i j : nat) (old new c : string * B) :
  list_find (λ c' : string * B, c'.1 = name) l = Some (j, c) →
  l !! i = Some old → old.1 ≠ name → new.1 ≠ name →
  list_find (λ c' : string * B, c'.1 = name) (<[i := new]> l) = Some (j, c).
Proof.
  intros Hfind Hold Holdn Hnewn.
  apply list_find_Some in Hfind as (Hj & Hc & Hfirst).
  assert (i ≠ j) as Hij by (intros ->; simplify_eq; done).
  apply list_find_Some. split; [by rewrite list_lookup_insert_ne|].
  split; [done|]. intros k y Hk Hlt.
  destruct (decide (k = i)) as [->|Hki].
  - rewrite list_lookup_insert_eq in Hk by (by eapply lookup_lt_Some).
    by simplify_eq.
  - rewrite list_lookup_insert_ne in Hk by done. by eapply Hfirst.
Qed.

Lemma length_concat_uniform {A} (parts : list (list A)) (m : nat) :
  Forall (λ part, length part = m) parts →
  length (concat parts) = (length parts * m)%nat.
Proof.
  induction 1 as [|part parts Hpart _ IH]; [done|].
  simpl. rewrite length_app, IH, Hpart. lia.
Qed.

Lemma mapM_res_all {A B} (f : A → res B) (l : list A) (P : B → Prop) :
  (∀ x, x ∈ l → ∃ y, f x = inr y ∧ P y) →
  ∃ k, mapM f l = inr k ∧ length k = length l ∧ Forall P k.
Proof.
  induction l as [|x l IH]; intros Hf.
  - by exists [].
  - destruct (Hf x) as (y & Hy & Hm); [by left|].
    destruct IH as (k & Hk & Hlen & Hall).
    { intros x' Hx'. apply Hf. by right. }
    exists (y :: k). simpl. rewrite Hy. simpl. rewrite Hk. simpl.
    split; [done|]. split; [by rewrite Hlen|]. by constructor.
Qed.

Lemma mapM_res_uniform {A B} (f : A → res (list B)) (l : list A) (m : nat) :
  (∀ x, x ∈ l → ∃ y, f x = inr y ∧ length y = m) →
  ∃ parts, mapM f l = inr parts
           ∧ length parts = length l
           ∧ Forall (λ part, length part = m) parts.
Proof. apply mapM_res_all. Qed.

Section CountFacts.
Context `{XArray} {Snowpack Atmosphere : Type}.
Implicit Types (sensor : Model.Sensor) (cfgs : list (string * list atom)).
Implicit Types (snowpack : Snowpack + list Snowpack).

(** The generator yields one unit per combination of axis values and
    snowpack. *)
Lemma prepare_recursive_length snowpack cfgs sensor :
  NoDup cfgs.*1 → Model.found_in sensor cfgs →
  ∃ units,
    Model.prepare_recursive snowpack sensor cfgs = inr units
    ∧ length units
      = (foldr Nat.mul 1%nat ((λ c, length c.2) <$> cfgs)
         * Model.snowpack_count snowpack)%nat.
Proof.
  revert sensor. induction cfgs as [|[axis values] rest IH];
    intros sensor Hdup Hfound.
  - simpl. destruct snowpack as [sp|sps]; eexists; split; try reflexivity.
    simpl. rewrite length_fmap. lia.
  - rewrite fmap_cons in Hdup. apply NoDup_cons in Hdup as [Haxis Hdup].
    destruct (Hfound (axis, values)) as [i Hi]; [by left|].
    simpl in Hi. cbn [Model.prepare_recursive]. unfold Model.iterate.
    rewrite Hi. cbn [mbind res_bind mret res_ret snd fst].
    pose proof Hi as (Hlook & _ & _)%list_find_Some.
    destruct (mapM_res_uniform
                (λ sensor_subset,
                   Model.prepare_recursive snowpack sensor_subset rest)
                ((λ v, Model.mkSensor
                         (<[i := (axis, [v])]> (Model.sensor_axes sensor)))
                   <$> values)
                (foldr Nat.mul 1%nat ((λ c, length c.2) <$> rest)
                 * Model.snowpack_count snowpack)%nat)
      as (parts & Hparts & Hlen & Hall).
    { intros sub Hsub. apply list_elem_of_fmap in Hsub as (v & -> & _).
      apply IH; [done|]. intros c Hc.
      destruct (Hfound c) as [j Hj]; [by right|].
      exists j. simpl.
      apply (list_find_name_insert _ _ i j (axis, values)); try done.
      - simpl. intros Heq. apply Haxis. rewrite Heq.
        apply list_elem_of_fmap. by exists c.
      - simpl. intros Heq. apply Haxis. rewrite Heq.
        apply list_elem_of_fmap. by exists c. }
    rewrite Hparts. eexists. split; [reflexivity|].
    rewrite (length_concat_uniform _ _ Hall), Hlen, length_fmap.
    rewrite fmap_cons. simpl. lia.
Qed.

Lemma expected_units_app (dims : list coord) (d : coord) :
  Model.expected_units (dims ++ [d])
  = (Model.expected_units dims * Model.coord_len d)%nat.
Proof.
  unfold Model.expected_units. rewrite fmap_app, foldr_app. simpl.
  generalize (Model.coord_len <$> dims). intros l.
  induction l as [|x l IH]; simpl; lia.
Qed.

Lemma expected_units_sensor cfgs :
  Model.expected_units ((λ c, CoordTuple c.1 c.2) <$> cfgs)
  = foldr Nat.mul 1%nat ((λ c, length c.2) <$> cfgs).
Proof.
  unfold Model.expected_units. induction cfgs as [|c cfgs IH]; [done|].
  rewrite !fmap_cons. simpl. by rewrite IH.
Qed.

Lemma range_labels_length (n : nat) : length (Model.range_labels n) = n.
Proof. unfold Model.range_labels. by rewrite length_fmap, length_seq. Qed.
End CountFacts.

Section PrepareFacts.
Context `{XArray} {Snowpack Atmosphere : Type}.

Lemma prepare_simulations_count (broadcast_capability : list string)
    (sensor : Model.Sensor) (snowpack : Model.snowpack_arg (Snowpack := Snowpack))
    (snowpack_dimension : option Model.dim_arg)
    (simulations : res (list (Model.Sensor * Snowpack)))
    (dimensions : list coord) :
  Model.distinct_axes sensor →
  Model.series_consistent snowpack →
  Model.documented_dimension snowpack_dimension →
  Model.prepare_simulations broadcast_capability sensor snowpack
    snowpack_dimension = inr (simulations, dimensions) →
  ∃ units, simulations = inr units
           ∧ length units = Model.expected_units dimensions.
Proof.
  intros Hdistinct Hseries Hdoc Hprep.
  set (cfgs := filter (λ c : string * list atom, c.1 ∉ broadcast_capability)
                      (Model.configurations sensor)).
  assert (Hrec : ∀ norm : Snowpack + list Snowpack,
            ∃ units, Model.prepare_recursive norm sensor cfgs = inr units
                     ∧ length units
                       = (Model.expected_units ((λ c, CoordTuple c.1 c.2) <$> cfgs)
                          * Model.snowpack_count norm)%nat).
  { intros norm. rewrite expected_units_sensor.
    apply prepare_recursive_length.
    - by apply NoDup_fst_filter.
    - intros c Hc. apply list_find_name; [done|].
      by apply list_elem_of_filter in Hc as [_ ?]. }
  unfold Model.prepare_simulations in Hprep. fold cfgs in Hprep.
  destruct snowpack as [sp|sps|items|index sps|variable values sps];
    destruct snowpack_dimension as [[name [vals|]|ix]|]; try done;
    simpl in Hprep; unfold len, raise, mret, res_ret in Hprep;
    repeat (case_match; simplify_eq/=);
    unfold raise, mret, res_ret in *; simplify_eq/=;
    match goal with
    | |- ∃ units, Model.prepare_recursive ?norm _ _ = _ ∧ _ =>
        destruct (Hrec norm) as (units & Hunits & Hlen);
        exists units; split; [exact Hunits|];
        rewrite Hlen, ?expected_units_app; simpl;
        rewrite ?range_labels_length, ?length_fmap in *;
        try lia; f_equal; lia
    end.
Qed.
End PrepareFacts.

Section ReshapeFacts.
Context `{XArray} {Snowpack Atmosphere : Type}.

(** A turn of the loop along an axis of [n] values turns [q * n] results
    into [q]. *)
Lemma fold_dimension_length (results out : list Result) (d : coord) (q : nat) :
  (0 < Model.coord_len d)%nat →
  length results = (q * Model.coord_len d)%nat →
  Model.fold_dimension results d = inr out →
  length out = q.
Proof.
  intros Hpos Hlen. unfold Model.fold_dimension.
  assert (Hn : ∃ n : nat, n = Model.coord_len d
               ∧ match d with
                 | CoordTuple _ values => mret (len values)
                 | CoordIndex index => mret (len (index_labels index))
                 | CoordOther => raise TypeError
                 end = inr (Z.of_nat n)).
  { exists (Model.coord_len d). split; [done|].
    destruct d; simpl in *; try done. lia. }
  destruct Hn as (n & Hn & ->). cbn [mbind res_bind].
  rewrite range_positive by lia. cbn [mbind res_bind].
  intros Hout. apply mapM_res_length in Hout.
  rewrite Hout, length_fmap, length_seq. unfold len.
  rewrite Hlen, <-Hn.
  replace (Z.of_nat (q * n) + Z.of_nat n - 1)%Z
    with (Z.of_nat q * Z.of_nat n + (Z.of_nat n - 1))%Z by lia.
  rewrite Z.div_add_l by lia. rewrite Z.div_small by lia. lia.
Qed.

(** With as many results as the axes stand for, none of them empty, the
    loop ends with one result. *)
Lemma reshape_length (dimensions : list coord) (results out : list Result) :
  Forall (λ d, (0 < Model.coord_len d)%nat) dimensions →
  length results = Model.expected_units dimensions →
  Model.reshape results dimensions = inr out →
  length out = 1%nat.
Proof.
  revert results. induction dimensions as [|d dims IH] using rev_ind;
    intros results Hpos Hlen.
  - unfold Model.reshape. simpl. by intros [= <-].
  - rewrite reshape_snoc. apply Forall_app in Hpos as [Hdims Hd].
    inversion_clear Hd as [|? ? Hd' _]. rewrite expected_units_app in Hlen.
    destruct (Model.fold_dimension results d) as [e|rs] eqn:Hfold; [done|].
    simpl. apply IH; [done|].
    by eapply fold_dimension_length.
Qed.

(** On results of one class and one channel map, and with an array
    library that concatenates as many arrays as the index has labels,
    [concat_results] succeeds and keeps class and channel map. *)
Lemma concat_results_same (group : list Result) (d : coord) (r0 : Result) :
  (∀ l index, l ≠ [] → length l = length (index_labels index) →
              is_ok (xr_concat l index) = true) →
  head group = Some r0 →
  (∀ r, r ∈ group → type r = type r0 ∧ channel_map r = channel_map r0) →
  Model.coord_len d = length group →
  ∃ result, Result.concat_results group d = inr result
            ∧ type result = type r0
            ∧ channel_map result = channel_map r0.
Proof.
  intros Hlib Hhead Hsame Hlen.
  destruct group as [|r1 l]; [done|]. injection Hhead as ->.
  assert (Hty : forallb (λ result, bool_decide (type result = type r0))
                  (r0 :: l) = true).
  { apply forallb_forall. intros r Hr. apply bool_decide_eq_true.
    apply Hsame. by apply list_elem_of_In. }
  assert (Hcm : existsb (λ r, bool_decide (channel_map r ≠ channel_map r0))
                  (r0 :: l) = false).
  { apply not_true_is_false. intros Hex. apply existsb_exists in Hex
      as (r & Hr & Hne). apply bool_decide_eq_true in Hne. apply Hne.
    apply Hsame. by apply list_elem_of_In. }
  unfold Result.concat_results.
  assert (Hix : ∃ index,
             match d with
             | CoordTuple dim_name dim_value =>
                 mret (mkIndex (Some dim_name) dim_value)
             | CoordIndex index => mret index
             | CoordOther =>
                 raise (SMRTError "unknown type for the coord argument")
             end = inr index
             ∧ length (index_labels index) = length (r0 :: l)).
  { destruct d as [dim_name dim_value|index|]; simpl in Hlen.
    - by exists (mkIndex (Some dim_name) dim_value).
    - by exists index.
    - done. }
  destruct Hix as (index & -> & Hix).
  cbn [mbind res_bind mret res_ret]. rewrite Hty, Hcm. cbn [negb].
  specialize (Hlib (data <$> r0 :: l) index).
  destruct (xr_concat (data <$> r0 :: l) index) as [e|x].
  - exfalso. rewrite length_fmap in Hlib.
    by specialize (Hlib ltac:(done) ltac:(done)).
  - by eexists.
Qed.

Lemma fold_dimension_same (results : list Result) (d : coord) (q : nat)
    (t : ResultClass) (cm : gmap string (gmap string pyval)) :
  (∀ l index, l ≠ [] → length l = length (index_labels index) →
              is_ok (xr_concat l index) = true) →
  (0 < Model.coord_len d)%nat →
  length results = (q * Model.coord_len d)%nat →
  Forall (λ r, type r = t ∧ channel_map r = cm) results →
  ∃ out, Model.fold_dimension results d = inr out
         ∧ length out = q
         ∧ Forall (λ r, type r = t ∧ channel_map r = cm) out.
Proof.
  intros Hlib Hpos Hlen Hsame. unfold Model.fold_dimension.
  assert (Hn : ∃ n : nat, n = Model.coord_len d
               ∧ match d with
                 | CoordTuple _ values => mret (len values)
                 | CoordIndex index => mret (len (index_labels index))
                 | CoordOther => raise TypeError
                 end = inr (Z.of_nat n)).
  { exists (Model.coord_len d). split; [done|].
    destruct d; simpl in *; try done. lia. }
  destruct Hn as (n & Hn & ->). cbn [mbind res_bind].
  rewrite range_positive by lia. cbn [mbind res_bind].
  assert (Hcount : Z.to_nat ((len results + Z.of_nat n - 1) `div` Z.of_nat n) = q).
  { unfold len. rewrite Hlen, <-Hn.
    replace (Z.of_nat (q * n) + Z.of_nat n - 1)%Z
      with (Z.of_nat q * Z.of_nat n + (Z.of_nat n - 1))%Z by lia.
    rewrite Z.div_add_l by lia. rewrite Z.div_small by lia. lia. }
  rewrite Hcount.
  destruct (mapM_res_all
              (λ i, Result.concat_results (slice results i (i + Z.of_nat n)) d)
              ((λ k : nat, (Z.of_nat k * Z.of_nat n)%Z) <$> seq 0 q)
              (λ r, type r = t ∧ channel_map r = cm))
    as (out & Hout & Hlo & Hall).
  { intros i Hi. apply list_elem_of_fmap in Hi as (k & -> & Hk).
    apply elem_of_seq in Hk. rewrite slice_chunk.
    assert (Hgl : length (take n (drop (k * n) results)) = n).
    { rewrite length_take, length_drop. nia. }
    destruct (take n (drop (k * n) results)) as [|r0 g] eqn:Hg;
      [simpl in Hgl; lia|].
    assert (Hin : ∀ r, r ∈ r0 :: g → type r = t ∧ channel_map r = cm).
    { intros r Hr. rewrite <-Hg in Hr.
      apply list_elem_of_lookup in Hr as [j Hj].
      apply lookup_take_Some in Hj as [Hj _]. rewrite lookup_drop in Hj.
      rewrite Forall_forall in Hsame. apply Hsame.
      apply list_elem_of_lookup. eauto. }
    destruct (concat_results_same (r0 :: g) d r0 Hlib eq_refl)
      as (result & Hres & Hrt & Hrc).
    - intros r Hr. destruct (Hin r Hr) as [-> ->].
      destruct (Hin r0) as [-> ->]; [by left|done].
    - by rewrite Hgl, Hn.
    - exists result. split; [done|].
      destruct (Hin r0) as [<- <-]; [by left|done]. }
  exists out. split; [done|]. split; [|done].
  by rewrite Hlo, length_fmap, length_seq.
Qed.

(** The loop then ends with one result. *)
Lemma reshape_total (dimensions : list coord) (results : list Result)
    (t : ResultClass) (cm : gmap string (gmap string pyval)) :
  (∀ l index, l ≠ [] → length l = length (index_labels index) →
              is_ok (xr_concat l index) = true) →
  Forall (λ d, (0 < Model.coord_len d)%nat) dimensions →
  length results = Model.expected_units dimensions →
  Forall (λ r, type r = t ∧ channel_map r = cm) results →
  ∃ result, Model.reshape results dimensions = inr [result].
Proof.
  intros Hlib. revert results.
  induction dimensions as [|d dims IH] using rev_ind;
    intros results Hpos Hlen Hsame.
  - unfold Model.reshape. simpl.
    destruct results as [|r [|r' l]]; simpl in Hlen; try done. by exists r.
  - rewrite reshape_snoc. apply Forall_app in Hpos as [Hdims Hd].
    inversion_clear Hd as [|? ? Hd' _]. rewrite expected_units_app in Hlen.
    destruct (fold_dimension_same results d _ t cm Hlib Hd' Hlen Hsame)
      as (out & -> & Hlo & Hout).
    simpl. by apply IH.
Qed.

(** C10 (as amended): for a sensor with distinct axes and a snowpack
    argument that [prepare_simulations] accepts, with [snowpack_dimension]
    absent or a tuple, the generator yields as many units as the product
    of the numbers of values of the returned axes (one when there is no
    axis).  When no axis is empty, the reshaping loop of [Model.run], run
    on that many results, ends with exactly one result whenever it
    completes; and it does complete, with one result, when the results are
    of one class with one channel map and the array library concatenates
    any group of as many arrays as the axis has values. *)
Theorem units_match_product_of_axes (broadcast_capability : list string)
    (sensor : Model.Sensor)
    (snowpack : Model.snowpack_arg (Snowpack := Snowpack))
    (snowpack_dimension : option Model.dim_arg)
    (simulations : res (list (Model.Sensor * Snowpack)))
    (dimensions : list coord) :
  Model.distinct_axes sensor →
  Model.series_consistent snowpack →
  Model.documented_dimension snowpack_dimension →
  Model.prepare_simulations broadcast_capability sensor snowpack
    snowpack_dimension = inr (simulations, dimensions) →
  ∃ units,
    simulations = inr units
    ∧ length units = Model.expected_units dimensions
    ∧ ∀ results : list Result,
        length results = length units →
        Forall (λ d, (0 < Model.coord_len d)%nat) dimensions →
        (∀ out, Model.reshape results dimensions = inr out →
                length out = 1%nat)
        ∧ ((∀ l index, l ≠ [] → length l = length (index_labels index) →
                       is_ok (xr_concat l index) = true) →
           (∀ r r', r ∈ results → r' ∈ results →
                    type r = type r' ∧ channel_map r = channel_map r') →
           ∃ result, Model.reshape results dimensions = inr [result]).
Proof.
  intros Hdistinct Hseries Hdoc Hprep.
  destruct (prepare_simulations_count _ _ _ _ _ _
              Hdistinct Hseries Hdoc Hprep) as (units & Hunits & Hlen).
  exists units. split; [done|]. split; [done|].
  intros results Hres Hpos. split.
  - intros out. apply reshape_length; [done|]. congruence.
  - intros Hlib Hsame.
    destruct results as [|r0 l] eqn:Hresults.
    + apply (reshape_total dimensions [] ClsPassiveResult ∅ Hlib Hpos);
        [simpl in *; congruence|constructor].
    + apply (reshape_total dimensions (r0 :: l) (type r0) (channel_map r0)
               Hlib Hpos); [congruence|].
      apply Forall_forall. intros r Hr. apply Hsame; [done|by left].
Qed.
End ReshapeFacts.

(** C10, witness: the example radiometer and three snowpacks give six
    units for axes of two, one and three values, and the run folds them
    into one result. *)
Lemma units_match_product_of_axes_witness :
  ∃ units dimensions,
    Model.prepare_simulations [] Ref.radiometer
      (Model.SnowpackList [1; 2; 3]%nat) None
    = inr (inr units, dimensions)
    ∧ length units = 6%nat
    ∧ Model.expected_units dimensions = 6%nat
    ∧ is_ok (Model.run (Atmosphere := unit) (λ _ _, inr Ref.at37) []
               Ref.radiometer (Model.SnowpackList [1; 2; 3]%nat) None None
               false false None)
      = true.
Proof.
  assert (Hdistinct : Model.distinct_axes Ref.radiometer).
  { unfold Model.distinct_axes. simpl.
    apply NoDup_cons. split; [|apply NoDup_singleton].
    intros Hin. apply list_elem_of_singleton in Hin. discriminate. }
  destruct (Model.prepare_simulations [] Ref.radiometer
              (Model.SnowpackList [1; 2; 3]%nat) None)
    as [e|[simulations dimensions]] eqn:Hprep; [by vm_compute in Hprep|].
  destruct (units_match_product_of_axes []
              Ref.radiometer (Model.SnowpackList [1; 2; 3]%nat) None
              simulations dimensions Hdistinct I I Hprep)
    as (units & -> & Hlen & _).
  exists units, dimensions. split; [done|].
  vm_compute in Hprep. injection Hprep as <- <-.
  repeat split; vm_compute; reflexivity.
Defined.

(** C10, as stated, fails for an empty list of snowpacks:
    [prepare_simulations] accepts it, with no unit and a snowpack axis
    without values, and the loop of [run] then asks for a range of step
    zero. *)
Lemma empty_snowpack_list_breaks_the_fold :
  Model.prepare_simulations (Snowpack := nat) [] Ref.radiometer
    (Model.SnowpackList []) None
  = inr (inr [],
         [CoordTuple "frequency" [ANum 19%Z; ANum 37%Z];
          CoordTuple "theta" [ANum 55%Z];
          CoordTuple "snowpack" []])
  ∧ Model.run (Snowpack := nat) (Atmosphere := unit) (λ _ _, inr Ref.at37) []
      Ref.radiometer (Model.SnowpackList []) None None false false None
    = inl ValueError.
Proof. split; vm_compute; reflexivity. Qed.

(** ** Further observations on the same code *)

(** Sequences of different lengths: the index runs up to the longest, the
    shorter sequence is indexed out of range, and the call raises. *)
Lemma make_interface_unequal_lengths :
  Interface.make_interface Ref.rough ∅ (Interface.IdClass Ref.rough) true
    {[ "roughness_rms" := VSeq [ANum 1; ANum 2]%Z;
       "corr_length" := VSeq [ANum 10; ANum 20; ANum 30]%Z ]}
  = inl IndexError.
Proof. vm_compute. reflexivity. Qed.

(** A [pd.Index] given as [snowpack_dimension] is checked as if it were a
    tuple, by the length of its second label: two snowpacks pass with an
    index of three labels whose second has two characters. *)
Lemma index_dimension_checked_by_second_label :
  ∃ units dimensions,
    Model.prepare_simulations [] Ref.radiometer
      (Model.SnowpackList [1; 2]%nat)
      (Some (Model.DimIndex (mkIndex None [AStr "a"; AStr "bc"; AStr "d"])))
    = inr (inr units, dimensions)
    ∧ length units = 4%nat
    ∧ Model.expected_units dimensions = 6%nat.
Proof. eexists _, _. repeat split; vm_compute; reflexivity. Qed.

(** A series of two snowpacks labelled [a] and [b] is refused for the same
    reason. *)
Lemma series_checked_by_second_label :
  Model.prepare_simulations [] Ref.radiometer
    (Model.SnowpackSeries (mkIndex None [AStr "a"; AStr "b"]) [1; 2]%nat) None
  = inl (SMRTError
           "The list of snowpacks must have the same length as the snowpack_dimension").
Proof. vm_compute. reflexivity. Qed.

(** A dask runner with a chunk size of zero raises. *)
Lemma dask_zero_chunk_raises :
  Runner.DaskParallelRunner 0 (λ x : Z, inr (x + 1)%Z : res Z) [1%Z]
  = inl ValueError.
Proof. reflexivity. Qed.

(** * Further properties of the same code *)

(** ** Runners and the driver *)

Section RunnerEdgeFacts.
Context {A R : Type}.

(** X1: the sequential runner stops at the first unit that raises: when
    the units before it succeed, the call ends in that unit's exception and
    returns no partial results, whatever the later units would do. *)
Theorem SequentialRunner_first_failure (function : A → res R)
    (before after : list A) (x : A) (e : exn) :
  is_ok (Runner.SequentialRunner function before) = true →
  function x = inl e →
  Runner.SequentialRunner function (before ++ x :: after) = inl e.
Proof.
  unfold Runner.SequentialRunner. intros Hbefore Hx.
  rewrite mapM_res_app.
  destruct (mapM function before) as [|k]; [done|].
  simpl. by rewrite Hx.
Qed.
End RunnerEdgeFacts.

(** X1, witness: the second of three units raises. *)
Lemma SequentialRunner_first_failure_witness :
  Runner.SequentialRunner
    (λ x : Z, if decide (x = 2)%Z then inl ValueError else inr x)
    ([1%Z] ++ 2%Z :: [3%Z])
  = inl ValueError.
Proof.
  apply (SequentialRunner_first_failure
           (λ x : Z, if decide (x = 2)%Z then inl ValueError else inr x)
           [1%Z] [3%Z] 2%Z ValueError); reflexivity.
Defined.

Section RunEdgeFacts.
Context `{XArray} {Snowpack Atmosphere : Type}.
Implicit Types (sensor : Model.Sensor) (sps : list Snowpack).
Implicit Types
  (run_single_simulation :
     Model.Sensor * Snowpack → option Atmosphere → res Result).


Lemma filter_all_batched (broadcast_capability : list string) sensor :
  (∀ c, c ∈ Model.sensor_axes sensor → c.1 ∈ broadcast_capability) →
  filter (λ c : string * list atom, c.1 ∉ broadcast_capability)
         (Model.configurations sensor) = [].
Proof.
  intros Hall. unfold Model.configurations.
  induction (Model.sensor_axes sensor) as [|c l IH]; [done|].
  rewrite filter_cons. destruct (decide (c.1 ∉ broadcast_capability)) as [Hc|_].
  - exfalso. apply Hc. apply Hall. by left.
  - apply IH. intros c' Hc'. apply Hall. by right.
Qed.

(** X3: when the solver batches every axis of the sensor and a single
    snowpack is given, [run] is one call of the unit function, on the
    sensor and the snowpack as they were given, and its result is returned
    as it is, with any well configured runner. *)
Theorem run_single_unit run_single_simulation broadcast_capability sensor
    (sp : Snowpack) (progressbar parallel_computation : bool)
    (r : Model.runner) :
  (∀ c, c ∈ Model.sensor_axes sensor → c.1 ∈ broadcast_capability) →
  Model.well_configured r →
  Model.run run_single_simulation broadcast_capability sensor
    (Model.OneSnowpack sp) None None progressbar parallel_computation (Some r)
  = run_single_simulation (sensor, sp) None.
Proof.
  intros Hall Hr. unfold Model.run, Model.prepare_simulations.
  rewrite filter_all_batched by done.
  destruct (decide (is_Some None)) as [[? [=]]|_]. simpl.
  rewrite call_runner_mapM by done. simpl.
  by destruct (run_single_simulation (sensor, sp) None).
Qed.

Lemma range_one_chunk (n : nat) :
  (0 < n)%nat → range 0 (Z.of_nat n) (Z.of_nat n) = inr [0%Z].
Proof.
  intros Hn. rewrite range_positive by lia.
  replace (Z.of_nat n + Z.of_nat n - 1)%Z
    with (1 * Z.of_nat n + (Z.of_nat n - 1))%Z by lia.
  rewrite Z.div_add_l by lia. rewrite Z.div_small by lia. reflexivity.
Qed.

Lemma reshape_one_axis (results : list Result) (d : coord) :
  (0 < length results)%nat →
  Model.coord_len d = length results →
  Model.reshape results [d]
  = result ← Result.concat_results results d; mret [result].
Proof.
  intros Hpos Hlen. unfold Model.reshape, Model.fold_dimension. simpl.
  assert (Hn : match d with
               | CoordTuple _ values => mret (len values)
               | CoordIndex index => mret (len (index_labels index))
               | CoordOther => raise TypeError
               end = inr (Z.of_nat (length results))).
  { destruct d; simpl in *; unfold len; try (by rewrite Hlen). lia. }
  rewrite Hn. cbn [mbind res_bind]. unfold len.
  rewrite range_one_chunk by done. cbn [mbind res_bind].
  rewrite mapM_res_cons, mapM_res_nil.
  assert (Hslice : slice results 0 (0 + Z.of_nat (length results)) = results).
  { unfold slice. rewrite drop_0.
    replace (Z.to_nat (0 + Z.of_nat (length results) - 0))
      with (length results) by lia.
    apply firstn_all. }
  rewrite Hslice.
  by destruct (Result.concat_results results d).
Qed.

End RunEdgeFacts.

(** The solver of the examples batches both axes of the radiometer. *)
Lemma radiometer_batched :
  ∀ c, c ∈ Model.sensor_axes Ref.radiometer → c.1 ∈ ["frequency"; "theta"].
Proof.
  intros c Hc. simpl in Hc.
  apply elem_of_cons in Hc as [->|Hc]; [by left|].
  apply elem_of_cons in Hc as [->|Hc]; [right; by left|by inversion Hc].
Qed.


(** X3, witness: one snowpack, a solver that batches both axes, and the
    dask runner. *)
Lemma run_single_unit_witness :
  Model.run (Atmosphere := unit) (λ _ _, inr Ref.at37)
    ["frequency"; "theta"] Ref.radiometer (Model.OneSnowpack 1%nat)
    None None false false (Some (Model.UseDaskParallelRunner 10))
  = inr Ref.at37.
Proof.
  apply (run_single_unit (Atmosphere := unit) (λ _ _, inr Ref.at37)
           ["frequency"; "theta"] Ref.radiometer 1%nat false false
           (Model.UseDaskParallelRunner 10) radiometer_batched).
  simpl. lia.
Defined.


(** ** Preparing the simulations *)

Lemma join_replicate_join {A} (a b : nat) (l : list A) :
  mjoin (replicate a (mjoin (replicate b l))) = mjoin (replicate (a * b) l).
Proof.
  induction a as [|a IH]; [done|].
  simpl. rewrite IH, replicate_add, join_app. reflexivity.
Qed.

Lemma concat_uniform_snd {A B} (parts : list (list (A * B))) (l : list B) :
  Forall (λ part, part.*2 = l) parts →
  (concat parts).*2 = mjoin (replicate (length parts) l).
Proof.
  induction 1 as [|part parts Hpart _ IH]; [done|].
  simpl. rewrite fmap_app, IH, Hpart. reflexivity.
Qed.

Section PrepareOrderFacts.
Context `{XArray} {Snowpack : Type}.
Implicit Types (sensor : Model.Sensor) (sps : list Snowpack).

(** The generator pairs every sensor variant with every snowpack, the
    snowpacks running fastest. *)
Lemma prepare_recursive_order sps (cfgs : list (string * list atom)) sensor :
  NoDup cfgs.*1 → Model.found_in sensor cfgs →
  ∃ units,
    Model.prepare_recursive (inr sps) sensor cfgs = inr units
    ∧ units.*2
      = mjoin (replicate (foldr Nat.mul 1%nat ((λ c, length c.2) <$> cfgs)) sps).
Proof.
  revert sensor. induction cfgs as [|[axis values] rest IH];
    intros sensor Hdup Hfound.
  - simpl. eexists. split; [reflexivity|].
    rewrite <-list_fmap_compose. simpl. rewrite list_fmap_id.
    by rewrite app_nil_r.
  - rewrite fmap_cons in Hdup. apply NoDup_cons in Hdup as [Haxis Hdup].
    destruct (Hfound (axis, values)) as [i Hi]; [by left|].
    simpl in Hi. cbn [Model.prepare_recursive]. unfold Model.iterate.
    rewrite Hi. cbn [mbind res_bind mret res_ret snd fst].
    pose proof Hi as (Hlook & _ & _)%list_find_Some.
    destruct (mapM_res_all
                (λ sensor_subset,
                   Model.prepare_recursive (inr sps) sensor_subset rest)
                ((λ v, Model.mkSensor
                         (<[i := (axis, [v])]> (Model.sensor_axes sensor)))
                   <$> values)
                (λ part, part.*2
                         = mjoin (replicate
                                    (foldr Nat.mul 1%nat
                                       ((λ c, length c.2) <$> rest)) sps)))
      as (parts & Hparts & Hlen & Hall).
    { intros sub Hsub. apply list_elem_of_fmap in Hsub as (v & -> & _).
      apply IH; [done|]. intros c Hc.
      destruct (Hfound c) as [j Hj]; [by right|].
      exists j. simpl.
      apply (list_find_name_insert _ _ i j (axis, values)); try done.
      - simpl. intros Heq. apply Haxis. rewrite Heq.
        apply list_elem_of_fmap. by exists c.
      - simpl. intros Heq. apply Haxis. rewrite Heq.
        apply list_elem_of_fmap. by exists c. }
    rewrite Hparts. eexists. split; [reflexivity|].
    rewrite (concat_uniform_snd _ _ Hall), Hlen, length_fmap.
    rewrite join_replicate_join. rewrite fmap_cons. reflexivity.
Qed.

(** Replacing the entry of an axis, found by its name, is replacing
    every entry of that name, when the names are distinct. *)
Lemma insert_axis_by_name {B} (l : list (string * B)) (i : nat)
    (axis : string) (old new : B) :
  NoDup l.*1 → l !! i = Some (axis, old) →
  <[i := (axis, new)]> l
  = (λ c : string * B, if decide (c.1 = axis) then (axis, new) else c) <$> l.
Proof.
  intros Hdup Hi. apply list_eq. intros k. rewrite list_lookup_fmap.
  destruct (decide (k = i)) as [->|Hk].
  - rewrite list_lookup_insert_eq by (by eapply lookup_lt_Some).
    rewrite Hi. simpl. by rewrite decide_True.
  - rewrite list_lookup_insert_ne by done.
    destruct (l !! k) as [c|] eqn:Hc; [|done]. simpl.
    rewrite decide_False; [done|]. intros Heq. apply Hk.
    apply (NoDup_lookup l.*1 k i axis Hdup).
    + rewrite list_lookup_fmap, Hc. simpl. by rewrite Heq.
    + by rewrite list_lookup_fmap, Hi.
Qed.

Lemma narrowed_axis_names {B} (l : list (string * B)) (axis : string) (new : B) :
  ((λ c : string * B, if decide (c.1 = axis) then (axis, new) else c) <$> l).*1
  = l.*1.
Proof.
  rewrite <-list_fmap_compose. apply list_fmap_ext.
  intros k c _. simpl. by destruct (decide (c.1 = axis)) as [->|].
Qed.

Lemma list_bind_bind {A B C} (f : A → list B) (g : B → list C) (l : list A) :
  (l ≫= f) ≫= g = l ≫= (λ x, f x ≫= g).
Proof.
  induction l as [|x l IH]; [done|].
  rewrite !bind_cons, bind_app, IH. reflexivity.
Qed.

Lemma mapM_res_concat_bind {A B} (f : A → res (list B)) (g : A → list B)
    (l : list A) :
  (∀ x, x ∈ l → f x = inr (g x)) →
  (λ parts, concat parts) <$> mapM f l = inr (l ≫= g).
Proof.
  induction l as [|x l IH]; intros Hfg; [done|].
  rewrite bind_cons, mapM_res_cons. rewrite (Hfg x) by left.
  specialize (IH (λ y Hy, Hfg y ltac:(by right))).
  destruct (mapM f l) as [e|parts]; [done|].
  injection IH as IH. cbn. by rewrite <-IH.
Qed.

(** The generator yields, for every variant of the sensor in turn, the
    pairs of that variant with the snowpacks in order; the variants are
    the sensor narrowed along the first axis to each of its values in
    turn, each of these narrowed along the next axis, and so on. *)
Lemma prepare_recursive_variants sps (cfgs : list (string * list atom)) sensor :
  NoDup cfgs.*1 → NoDup (Model.sensor_axes sensor).*1 →
  (∀ c, c ∈ cfgs → c ∈ Model.sensor_axes sensor) →
  Model.prepare_recursive (inr sps) sensor cfgs
  = inr (foldr (λ c rest s,
                  c.2 ≫= λ v,
                    rest (Model.mkSensor
                            ((λ c' : string * list atom,
                                if decide (c'.1 = c.1) then (c.1, [v]) else c')
                               <$> Model.sensor_axes s)))
               (λ s, [s]) cfgs sensor
         ≫= λ s, pair s <$> sps).
Proof.
  revert sensor. induction cfgs as [|[axis values] rest IH];
    intros sensor Hdup Hsdup Hin.
  - simpl. by rewrite app_nil_r.
  - rewrite fmap_cons in Hdup. apply NoDup_cons in Hdup as [Haxis Hdup].
    destruct (list_find_name (Model.sensor_axes sensor) (axis, values) Hsdup)
      as [i Hi]; [apply Hin; by left|].
    simpl in Hi. cbn [Model.prepare_recursive]. unfold Model.iterate.
    rewrite Hi. cbn [mbind res_bind mret res_ret snd fst].
    pose proof Hi as (Hlook & _ & _)%list_find_Some.
    rewrite mapM_res_fmap. cbn [foldr snd fst].
    rewrite list_bind_bind.
    apply mapM_res_concat_bind. intros v _.
    rewrite (insert_axis_by_name _ i axis values [v] Hsdup Hlook).
    apply IH; [done| |].
    + simpl. by rewrite narrowed_axis_names.
    + intros c Hc. simpl. apply list_elem_of_fmap. exists c.
      split; [|apply Hin; by right].
      rewrite decide_False; [done|]. intros Heq. apply Haxis.
      rewrite <-Heq. apply list_elem_of_fmap. by exists c.
Qed.

(** X5: a list of snowpacks without [snowpack_dimension] is always
    accepted (for a sensor with distinct axes): the dimensions are the
    axes the solver does not batch, followed by a dimension [snowpack]
    labelled 0, 1, ...; and the units pair every sensor variant with every
    snowpack in the order of the list, the snowpacks running fastest.
    The variants are the sensor narrowed to one value along each axis the
    solver does not batch, the first such axis running slowest. *)
Theorem prepare_simulations_flattening_order
    (broadcast_capability : list string) sensor sps :
  Model.distinct_axes sensor →
  let cfgs := filter (λ c : string * list atom, c.1 ∉ broadcast_capability)
                     (Model.configurations sensor) in
  let narrow (s : Model.Sensor) (axis : string) (v : atom) : Model.Sensor :=
    Model.mkSensor
      ((λ c : string * list atom,
          if decide (c.1 = axis) then (axis, [v]) else c)
         <$> Model.sensor_axes s) in
  let variants : list Model.Sensor :=
    foldr (λ c rest s, c.2 ≫= λ v, rest (narrow s c.1 v))
          (λ s, [s]) cfgs sensor in
  ∃ units,
    Model.prepare_simulations broadcast_capability sensor
      (Model.SnowpackList sps) None
    = inr (inr units,
           ((λ c, CoordTuple c.1 c.2) <$> cfgs)
             ++ [CoordTuple "snowpack" (Model.range_labels (length sps))])
    ∧ units = (variants ≫= λ s, pair s <$> sps)
    ∧ units.*2
      = mjoin (replicate (foldr Nat.mul 1%nat ((λ c, length c.2) <$> cfgs)) sps).
Proof.
  intros Hdistinct cfgs narrow variants.
  destruct (prepare_recursive_order sps cfgs sensor) as (units & Hunits & Hord).
  { by apply NoDup_fst_filter. }
  { intros c Hc. apply list_find_name; [done|].
    by apply list_elem_of_filter in Hc as [_ ?]. }
  pose proof (prepare_recursive_variants sps cfgs sensor) as Hvar.
  rewrite Hunits in Hvar.
  exists units. split; [|split; [|done]].
  - unfold Model.prepare_simulations. fold cfgs. simpl.
    unfold len. rewrite range_labels_length.
    destruct (decide _) as [Hbad|_]; [done|]. simpl. by rewrite Hunits.
  - assert (inr units
            = (inr (variants ≫= λ s, pair s <$> sps)
                 : res (list (Model.Sensor * Snowpack)))) as Heq; [|by injection Heq].
    apply Hvar.
    + by apply NoDup_fst_filter.
    + exact Hdistinct.
    + intros c Hc. by apply list_elem_of_filter in Hc as [_ ?].
Qed.

(** X6: with a list of snowpacks, a [snowpack_dimension] tuple whose
    values are not as many as the snowpacks is refused, whatever its first
    element; with as many values, or with none given, a first element that
    is not a string is refused. *)
Theorem prepare_simulations_rejects_dimension
    (broadcast_capability : list string) sensor sps
    (name : pyval) (values : list atom) :
  (length values ≠ length sps →
   Model.prepare_simulations broadcast_capability sensor
     (Model.SnowpackList sps) (Some (Model.DimTuple name (Some values)))
   = inl (SMRTError "The list of snowpacks must have the same length as the snowpack_dimension"))
  ∧ ((∀ s, name ≠ VStr s) →
     (length values = length sps →
      Model.prepare_simulations broadcast_capability sensor
        (Model.SnowpackList sps) (Some (Model.DimTuple name (Some values)))
      = inl (SMRTError "When the 'snowpack_dimension' argument is a tuple, the first argument must be a string"))
     ∧ Model.prepare_simulations broadcast_capability sensor
         (Model.SnowpackList sps) (Some (Model.DimTuple name None))
       = inl (SMRTError "When the 'snowpack_dimension' argument is a tuple, the first argument must be a string")).
Proof.
  split.
  - intros Hlen. unfold Model.prepare_simulations. simpl. unfold len.
    destruct (decide _) as [_|Hgood]; [done|]. exfalso. apply Hgood. lia.
  - intros Hname. split.
    + intros Hlen. unfold Model.prepare_simulations. simpl. unfold len.
      destruct (decide _) as [Hbad|_]; [lia|].
      destruct name as [[| |s]|]; try done. by destruct (Hname s).
    + unfold Model.prepare_simulations. simpl. unfold len.
      rewrite range_labels_length.
      destruct (decide _) as [Hbad|_]; [done|].
      destruct name as [[| |s]|]; try done. by destruct (Hname s).
Qed.
End PrepareOrderFacts.

(** X5, witness: the example radiometer and three snowpacks. *)
Lemma prepare_simulations_flattening_order_witness :
  let at_frequency (f : Z) :=
    Model.mkSensor [("frequency", [ANum f]); ("theta", [ANum 55%Z])] in
  ∃ units,
    Model.prepare_simulations [] Ref.radiometer
      (Model.SnowpackList [1; 2; 3]%nat) None
    = inr (inr units,
           [CoordTuple "frequency" [ANum 19%Z; ANum 37%Z];
            CoordTuple "theta" [ANum 55%Z];
            CoordTuple "snowpack" (Model.range_labels 3)])
    ∧ units = [(at_frequency 19%Z, 1%nat); (at_frequency 19%Z, 2%nat);
               (at_frequency 19%Z, 3%nat); (at_frequency 37%Z, 1%nat);
               (at_frequency 37%Z, 2%nat); (at_frequency 37%Z, 3%nat)]
    ∧ units.*2 = [1; 2; 3; 1; 2; 3]%nat.
Proof.
  intros at_frequency.
  assert (Hdistinct : Model.distinct_axes Ref.radiometer).
  { unfold Model.distinct_axes. simpl.
    apply NoDup_cons. split; [|apply NoDup_singleton].
    intros Hin. apply list_elem_of_singleton in Hin. discriminate. }
  destruct (prepare_simulations_flattening_order [] Ref.radiometer
              [1; 2; 3]%nat Hdistinct) as (units & Hprep & Hvar & Hord).
  exists units. split; [exact Hprep|]. split; [|exact Hord].
  rewrite Hvar. reflexivity.
Defined.

(** X6, witness: two snowpacks and three values. *)
Lemma prepare_simulations_rejects_dimension_witness :
  Model.prepare_simulations [] Ref.radiometer
    (Model.SnowpackList [1; 2]%nat)
    (Some (Model.DimTuple (VStr "time") (Some (Model.range_labels 3))))
  = inl (SMRTError "The list of snowpacks must have the same length as the snowpack_dimension").
Proof.
  apply (proj1 (prepare_simulations_rejects_dimension [] Ref.radiometer
                  [1; 2]%nat (VStr "time") (Model.range_labels 3))).
  simpl. lia.
Defined.

(** ** Interface construction *)

Section InterfaceFacts.
Context `{Numeric}.
Implicit Types (kwargs optional_args : gmap string pyval).
Implicit Types (args methods : list string).

Lemma required_args_present args kwargs :
  (∀ arg, arg ∈ args → is_Some (kwargs !! arg)) →
  ∃ required : list (string * pyval),
    mapM (λ arg,
            match kwargs !! arg with
            | Some v => mret (arg, v)
            | None =>
                raise (SMRTError ("Parameter " +:+ arg +:+ " must be specified"))
            end) args = inr required
    ∧ ∀ k v, (k, v) ∈ required ↔ k ∈ args ∧ kwargs !! k = Some v.
Proof.
  induction args as [|arg args IH]; intros Hall.
  - exists []. split; [done|]. intros k v. split.
    + by intros ?%elem_of_nil.
    + by intros [?%elem_of_nil _].
  - destruct (Hall arg) as [v Hv]; [by left|].
    destruct IH as (required & Hreq & Hin).
    { intros a Ha. apply Hall. by right. }
    exists ((arg, v) :: required). rewrite mapM_res_cons, Hv. simpl.
    rewrite Hreq. split; [done|]. intros k w. rewrite !elem_of_cons, Hin.
    split.
    + intros [[= -> ->]|[Hk Hw]]; [by split; [left|]|by split; [right|]].
    + intros [[->|Hk] Hw]; [left; congruence|by right].
Qed.



Lemma no_sequence_lengths kwargs :
  (∀ k v, kwargs !! k = Some v → Interface.is_sequence v = false) →
  Interface.seq_len
    <$> filter (λ v, Interface.is_sequence v = true) (map_to_list kwargs).*2
  = [].
Proof.
  intros Hnone.
  destruct (filter _ _) as [|v l] eqn:Hf; [done|].
  assert (Hv : v ∈ filter (λ v, Interface.is_sequence v = true)
                          (map_to_list kwargs).*2) by (rewrite Hf; left).
  apply list_elem_of_filter in Hv as [Hseq Hv].
  apply list_elem_of_fmap in Hv as ([k w] & -> & Hkw).
  apply elem_of_map_to_list in Hkw. simpl in Hseq.
  by rewrite (Hnone k w Hkw) in Hseq.
Qed.

(** X9: without any sequence among the keyword arguments (in particular
    without keyword arguments), [make_interface] constructs exactly one
    instance from the arguments as they are, with broadcasting on or off. *)
Theorem make_interface_scalars_only Flat registry id cls (broadcast : bool)
    kwargs :
  Interface.resolves_to Flat registry id cls →
  (∀ k v, kwargs !! k = Some v → Interface.is_sequence v = false) →
  Interface.make_interface Flat registry id broadcast kwargs
  = Interface.MadeOne <$> Interface.cls_init cls kwargs.
Proof.
  intros Hid Hnone. unfold Interface.make_interface.
  rewrite (no_sequence_lengths kwargs Hnone).
  rewrite (bool_decide_eq_false_2 ([] ≠ [])) by (intros Hne; by apply Hne).
  rewrite !andb_false_r.
  destruct id as [|name|c|o]; simpl in Hid.
  - by subst cls.
  - unfold Interface.import_class. by rewrite Hid.
  - by subst c.
  - done.
Qed.

(** X10: when the sequences among the keyword arguments are all empty (and
    there is at least one), the result is the empty list and no instance
    is constructed, not even to find out that a required parameter is
    missing. *)
Theorem make_interface_empty_sequences Flat registry id cls kwargs :
  Interface.resolves_to Flat registry id cls →
  (∃ k, kwargs !! k = Some (VSeq [])) →
  (∀ k l, kwargs !! k = Some (VSeq l) → l = []) →
  Interface.make_interface Flat registry id true kwargs
  = inr (Interface.MadeList []).
Proof.
  intros Hid [k Hk] Hempty.
  rewrite (make_interface_broadcast_eq Flat registry id cls kwargs 0 Hid).
  - reflexivity.
  - by exists k, [].
  - intros k' l Hl. by rewrite (Hempty k' l Hl).
Qed.
End InterfaceFacts.



(** X9, witness: one scalar argument. *)
Lemma make_interface_scalars_only_witness :
  Interface.make_interface Ref.rough ∅ Interface.IdNone true
    {[ "roughness_rms" := Ref.num 1 ]}
  = Interface.MadeOne
      <$> Interface.cls_init Ref.rough {[ "roughness_rms" := Ref.num 1 ]}.
Proof.
  apply (make_interface_scalars_only Ref.rough ∅ Interface.IdNone Ref.rough
           true {[ "roughness_rms" := Ref.num 1 ]} eq_refl).
  intros k v Hkv. apply lookup_singleton_Some in Hkv as [_ <-]. reflexivity.
Defined.

(** X10, witness: an empty sequence for the required parameter. *)
Lemma make_interface_empty_sequences_witness :
  Interface.make_interface Ref.rough ∅ (Interface.IdClass Ref.rough) true
    {[ "corr_length" := VSeq [] ]}
  = inr (Interface.MadeList []).
Proof.
  apply (make_interface_empty_sequences Ref.rough ∅
           (Interface.IdClass Ref.rough) Ref.rough
           {[ "corr_length" := VSeq [] ]} eq_refl).
  - exists "corr_length". apply lookup_singleton_eq.
  - intros k l Hkl. apply lookup_singleton_Some in Hkl as [_ Heq].
    by injection Heq.
Defined.

(** ** Substrates with a permittivity model *)

Section SubstrateDelegation.
Context `{Numeric} {Eps Mu Matrix : Type}.
Implicit Types (icls : Substrate.interface_cls (Eps := Eps) (Mu := Mu) (Matrix := Matrix)).
Implicit Types (self : Substrate.SubstrateBase (Eps := Eps)).

Lemma auto_add_Some {A B} (cls_attrs : list string) (new_method : A)
    (name : string) (dependency : option B) (method : A) :
  Substrate.auto_add cls_attrs new_method name dependency = Some method →
  method = new_method ∧ (name ∉ cls_attrs) ∧ is_Some dependency.
Proof.
  unfold Substrate.auto_add.
  destruct (bool_decide (name ∈ cls_attrs)) eqn:Hin; simpl; [done|].
  destruct (bool_decide (is_Some dependency)) eqn:Hdep; simpl; [|done].
  intros [= <-]. split; [done|]. split.
  - by apply bool_decide_eq_false in Hin.
  - by apply bool_decide_eq_true in Hdep.
Qed.

(** X11: on a substrate whose permittivity model gives a value at the
    frequency of the call (and at the temperature of the substrate), each
    derived operation calls the raw operation of the interface class
    exactly once, with that value as the permittivity of the second medium
    and the other arguments as given, and returns what it returns;
    [emissivity_matrix] is derived from [coherent_transmission_matrix]. *)
Theorem derived_operations_delegate icls (cls_attrs : list string) self
    (model : F → pyval → res (option Eps)) (frequency : F) (eps_2 : Eps)
    (log : list Substrate.raw_call) :
  Substrate.permittivity_model self = Some model →
  model frequency (Substrate.temperature self) = inr (Some eps_2) →
  let newcls := Substrate.substrate_from_interface icls cls_attrs in
  let logged_as (name : string) :=
    log ++ [Substrate.mkRawCall name frequency eps_2] in
  (∀ method eps_1 mu1 npol,
      Substrate.m_specular_reflection_matrix newcls = Some method →
      ∃ op, Substrate.raw_specular_reflection_matrix icls = Some op
            ∧ method self frequency eps_1 mu1 npol log
              = (op frequency eps_1 eps_2 mu1 npol,
                 logged_as "specular_reflection_matrix"))
  ∧ (∀ method eps_1 mu1 npol,
        Substrate.m_emissivity_matrix newcls = Some method →
        ∃ op, Substrate.raw_coherent_transmission_matrix icls = Some op
              ∧ method self frequency eps_1 mu1 npol log
                = (op frequency eps_1 eps_2 mu1 npol,
                   logged_as "coherent_transmission_matrix"))
  ∧ (∀ method eps_1 mu_s mu_i dphi npol,
        Substrate.m_diffuse_reflection_matrix newcls = Some method →
        ∃ op, Substrate.raw_diffuse_reflection_matrix icls = Some op
              ∧ method self frequency eps_1 mu_s mu_i dphi npol log
                = (op frequency eps_1 eps_2 mu_s mu_i dphi npol,
                   logged_as "diffuse_reflection_matrix"))
  ∧ (∀ method eps_1 mu_s mu_i m_max npol,
        Substrate.m_ft_even_diffuse_reflection_matrix newcls = Some method →
        ∃ op, Substrate.raw_ft_even_diffuse_reflection_matrix icls = Some op
              ∧ method self frequency eps_1 mu_s mu_i m_max npol log
                = (op frequency eps_1 eps_2 mu_s mu_i m_max npol,
                   logged_as "ft_even_diffuse_reflection_matrix")).
Proof.
  intros Hmodel Heps newcls logged_as. subst newcls logged_as.
  unfold Substrate.substrate_from_interface. simpl.
  repeat split; intros method; intros;
    match goal with
    | Hm : Substrate.auto_add _ _ _ _ = Some _ |- _ =>
        apply auto_add_Some in Hm as (-> & _ & [op Hop])
    end;
    exists op; (split; [exact Hop|]);
    unfold Substrate.specular_reflection_matrix, Substrate.emissivity_matrix,
      Substrate.diffuse_reflection_matrix,
      Substrate.ft_even_diffuse_reflection_matrix,
      Substrate.with_eps_2, Substrate.permittivity;
    rewrite Hmodel, Heps, Hop; reflexivity.
Qed.

(** X12: a permittivity model that yields [None] counts as no model, and
    a model that raises ends the call with its exception; in neither case
    is the raw operation called. *)
Theorem derived_operations_model_without_value icls self
    (model : F → pyval → res (option Eps)) (frequency : F)
    (log : list Substrate.raw_call) :
  Substrate.permittivity_model self = Some model →
  (model frequency (Substrate.temperature self) = inr None →
   ∀ eps_1 mu1 npol,
     Substrate.emissivity_matrix icls self frequency eps_1 mu1 npol log
     = (inl (SMRTError "No permittivity_model have been given to the substrate"),
        log)
     ∧ Substrate.specular_reflection_matrix icls self frequency eps_1 mu1 npol log
       = (inl (SMRTError "No permittivity_model have been given to the substrate"),
          log))
  ∧ (∀ e, model frequency (Substrate.temperature self) = inl e →
          ∀ eps_1 mu1 npol,
            Substrate.emissivity_matrix icls self frequency eps_1 mu1 npol log
            = (inl e, log)
            ∧ Substrate.specular_reflection_matrix icls self frequency eps_1
                mu1 npol log
              = (inl e, log)).
Proof.
  intros Hmodel. split.
  - intros Hnone eps_1 mu1 npol.
    unfold Substrate.emissivity_matrix, Substrate.specular_reflection_matrix,
      Substrate.with_eps_2, Substrate.permittivity.
    by rewrite Hmodel, Hnone.
  - intros e He eps_1 mu1 npol.
    unfold Substrate.emissivity_matrix, Substrate.specular_reflection_matrix,
      Substrate.with_eps_2, Substrate.permittivity.
    by rewrite Hmodel, He.
Qed.
End SubstrateDelegation.

(** X11, witness: a substrate whose model gives the permittivity 3, on an
    interface class with a coherent transmission. *)
Lemma derived_operations_delegate_witness :
  let icls : Substrate.interface_cls :=
    Substrate.mkInterfaceCls None
      (Some (λ (frequency eps_1 eps_2 mu1 : Z) (npol : nat),
               inr (eps_1 + eps_2)%Z : res Z))
      None None in
  let self : Substrate.SubstrateBase (Eps := Z) :=
    Substrate.mkSubstrate (Ref.num 270) (Some (λ _ _, inr (Some 3%Z))) in
  ∃ method,
    Substrate.m_emissivity_matrix
      (Substrate.substrate_from_interface icls []) = Some method
    ∧ method self 37%Z 1%Z 1%Z 2%nat []
      = (inr 4%Z,
         [Substrate.mkRawCall "coherent_transmission_matrix" 37%Z 3%Z]).
Proof.
  intros icls self. eexists. split; [reflexivity|].
  destruct (proj1 (proj2 (derived_operations_delegate icls [] self
                            (λ _ _, inr (Some 3%Z)) 37%Z 3%Z []
                            eq_refl eq_refl))
                  _ 1%Z 1%Z 2%nat eq_refl) as (op & Hop & Hcall).
  injection Hop as <-. exact Hcall.
Defined.

(** X12, witness: a model without value at any frequency. *)
Lemma derived_operations_model_without_value_witness :
  let icls : Substrate.interface_cls :=
    Substrate.mkInterfaceCls None
      (Some (λ (frequency eps_1 eps_2 mu1 : Z) (npol : nat),
               inr (eps_1 + eps_2)%Z : res Z))
      None None in
  let self : Substrate.SubstrateBase (Eps := Z) :=
    Substrate.mkSubstrate (Ref.num 270) (Some (λ _ _, inr None)) in
  Substrate.emissivity_matrix icls self 37%Z 1%Z 1%Z 2%nat []
  = (inl (SMRTError "No permittivity_model have been given to the substrate"),
     []).
Proof.
  intros icls self.
  exact (proj1 (proj1 (derived_operations_model_without_value icls self
                         (λ _ _, inr None) 37%Z [] eq_refl)
                      eq_refl 1%Z 1%Z 2%nat)).
Defined.

(** ** Selections and accessors *)

Lemma last_char_snoc (s : string) (c : Ascii.ascii) :
  PassiveResult.last_char (s +:+ String c EmptyString)
  = inr (String c EmptyString).
Proof.
  unfold PassiveResult.last_char.
  assert (Hget : ∀ s, String.get (String.length (s +:+ String c EmptyString) - 1)
                        (s +:+ String c EmptyString) = Some c).
  { clear s. induction s as [|a s IH]; [done|].
    simpl. rewrite Nat.sub_0_r.
    assert (Hlen : ∃ m, String.length (s +:+ String c EmptyString) = S m).
    { clear IH. induction s as [|b s [m Hm]]; simpl; eauto. }
    destruct Hlen as [m Hm]. rewrite Hm in *. simpl in IH.
    by rewrite Nat.sub_0_r in IH. }
  by rewrite Hget.
Qed.

Section AccessorFacts.
Context `{XArray}.
Implicit Types (self : Result) (kwargs : gmap string pyval).

(** X13: a channel that is not in the channel map makes every selection
    by channel fail with [KeyError], before anything is selected. *)
Theorem unknown_channel_raises_KeyError self (ch : string) kwargs :
  channel_map self !! ch = None →
  PassiveResult.sel_data self (Some ch) kwargs = inl KeyError
  ∧ PassiveResult.Tb self (Some ch) kwargs = inl KeyError
  ∧ (∀ rb, ActiveResult.sel_data self (Some ch) rb kwargs = inl KeyError)
  ∧ (kwargs !! "return_backscatter" = None →
     ActiveResult.sigma self (Some ch) kwargs = inl KeyError
     ∧ ActiveResult.sigma_dB self (Some ch) kwargs = inl KeyError).
Proof.
  intros Hch.
  assert (Hcf : Result.channel_filter self (Some ch) kwargs = inl KeyError).
  { unfold Result.channel_filter. by rewrite Hch. }
  assert (Ha : ∀ rb, ActiveResult.sel_data self (Some ch) rb kwargs = inl KeyError).
  { intros rb. unfold ActiveResult.sel_data. by rewrite Hcf. }
  assert (Hp : PassiveResult.sel_data self (Some ch) kwargs = inl KeyError).
  { unfold PassiveResult.sel_data. by rewrite Hcf. }
  split; [done|]. split; [unfold PassiveResult.Tb; by rewrite Hp|].
  split; [done|]. intros Hrb.
  unfold ActiveResult.sigma, ActiveResult.sigma_dB. rewrite Hrb.
  destruct (decide (is_Some None)) as [[? [=]]|_]. by rewrite !Ha.
Qed.

(** The backscatter selection depends on the filters only through the
    angle in effect and the filters other than the two angles. *)
Lemma sel_data_same_angle self (rb : ActiveResult.backscatter_flag)
    (kw kw' : gmap string pyval) (angle : pyval) :
  ActiveResult.truthy rb = true →
  delete "theta_inc" (delete "theta" kw)
  = delete "theta_inc" (delete "theta" kw') →
  (∀ k : gmap string pyval, k = kw ∨ k = kw' →
     let theta := default VNone (k !! "theta") in
     let theta_inc := default VNone (k !! "theta_inc") in
     bool_decide (theta ≠ VNone ∧ theta_inc ≠ VNone)
     && negb (np_all_eq theta_inc theta) = false
     ∧ (if decide (theta = VNone) then theta_inc else theta) = angle) →
  ActiveResult.sel_data self None rb kw = ActiveResult.sel_data self None rb kw'.
Proof.
  intros Hrb Hrest Hangle.
  destruct (Hangle kw (or_introl eq_refl)) as [Hc1 Ha1].
  destruct (Hangle kw' (or_intror eq_refl)) as [Hc2 Ha2].
  unfold ActiveResult.sel_data. simpl. rewrite Hrb.
  rewrite !(lookup_delete_ne _ "theta" "theta_inc") by done.
  simpl in Hc1, Hc2. rewrite Hc1, Hc2.
  rewrite Ha1, Ha2, Hrest. reflexivity.
Qed.

(** X14: for the backscatter, [theta] and [theta_inc] are
    interchangeable: giving the angle as [theta] or as [theta_inc]
    selects the same data and returns the same result, and so does giving
    it as both, when the value compares equal to itself.  A value that
    does not (a NaN), given as both, is refused with the error of
    inconsistent angles. *)
Theorem theta_and_theta_inc_interchangeable self
    (rb : ActiveResult.backscatter_flag) kwargs (v : pyval) :
  ActiveResult.truthy rb = true →
  kwargs !! "theta" = None →
  kwargs !! "theta_inc" = None →
  ActiveResult.sel_data self None rb (<["theta_inc" := v]> kwargs)
  = ActiveResult.sel_data self None rb (<["theta" := v]> kwargs)
  ∧ (v = VNone ∨ np_all_eq v v = true →
     ActiveResult.sel_data self None rb
       (<["theta" := v]> (<["theta_inc" := v]> kwargs))
     = ActiveResult.sel_data self None rb (<["theta" := v]> kwargs))
  ∧ (v ≠ VNone → np_all_eq v v = false →
     ActiveResult.sel_data self None rb
       (<["theta" := v]> (<["theta_inc" := v]> kwargs))
     = inl (SMRTError
              "theta and theta_inc must be the same when returning backscatter")).
Proof.
  intros Hrb Ht Hti.
  assert (Hrest1 : delete "theta_inc" (delete "theta" (<["theta_inc" := v]> kwargs))
                   = kwargs).
  { rewrite (delete_id _ "theta") by (by rewrite lookup_insert_ne).
    rewrite delete_insert_eq. by apply delete_id. }
  assert (Hrest2 : delete "theta_inc" (delete "theta" (<["theta" := v]> kwargs))
                   = kwargs).
  { rewrite delete_insert_eq, (delete_id kwargs "theta") by done.
    by apply delete_id. }
  assert (Hrest3 : delete "theta_inc"
                     (delete "theta"
                        (<["theta" := v]> (<["theta_inc" := v]> kwargs)))
                   = kwargs).
  { rewrite delete_insert_eq.
    rewrite (delete_id _ "theta") by (by rewrite lookup_insert_ne).
    rewrite delete_insert_eq. by apply delete_id. }
  assert (Hone : ∀ w : pyval,
            bool_decide (w ≠ VNone ∧ VNone ≠ VNone) && negb (np_all_eq VNone w)
            = false).
  { intros w. rewrite bool_decide_eq_false_2; [done|]. by intros (_ & ?). }
  assert (Hother : ∀ w : pyval,
            bool_decide (VNone ≠ VNone ∧ w ≠ VNone) && negb (np_all_eq w VNone)
            = false).
  { intros w. rewrite bool_decide_eq_false_2; [done|]. by intros (? & _). }
  split; [|split].
  - apply (sel_data_same_angle self rb _ _ v Hrb); [congruence|].
    intros k [->| ->]; simpl.
    + rewrite lookup_insert_ne by done. rewrite Ht, lookup_insert_eq. simpl.
      split; [first [done|apply Hother]|].
      first [done|by destruct (decide (VNone = VNone))].
    + rewrite lookup_insert_eq, lookup_insert_ne by done. rewrite Hti. simpl.
      split; [first [done|apply Hone]|]. by destruct (decide (v = VNone)).
  - intros Hv.
    apply (sel_data_same_angle self rb _ _ v Hrb); [congruence|].
    intros k [->| ->]; simpl.
    + rewrite lookup_insert_eq, lookup_insert_ne by done.
      rewrite lookup_insert_eq. simpl.
      split; [|by destruct (decide (v = VNone))].
      destruct Hv as [->|Hv]; [first [done|apply Hone]|].
      rewrite Hv. apply andb_false_r.
    + rewrite lookup_insert_eq, lookup_insert_ne by done. rewrite Hti. simpl.
      split; [first [done|apply Hone]|]. by destruct (decide (v = VNone)).
  - intros Hv Hnan. unfold ActiveResult.sel_data. simpl. rewrite Hrb.
    rewrite lookup_insert_eq.
    rewrite lookup_delete_ne by done.
    rewrite lookup_insert_ne by done. rewrite lookup_insert_eq. simpl.
    rewrite bool_decide_eq_true_2 by done. by rewrite Hnan.
Qed.

(** X15: [polarization_ratio] divides the selection at the first
    character of [ratio] by the selection at its last character, whatever
    stands between them (with one character both are the same); an empty
    [ratio] raises [IndexError] before anything is selected. *)
Theorem polarization_ratio_first_and_last self (a b : Ascii.ascii)
    (middle : string) kwargs :
  let ratio_of (p q : Ascii.ascii) :=
    Result.squeezed
      (x ← PassiveResult.sel_polarization self (String p EmptyString) kwargs;
       y ← PassiveResult.sel_polarization self (String q EmptyString) kwargs;
       xr_div x y) in
  PassiveResult.polarization_ratio self
    (String a (middle +:+ String b EmptyString)) kwargs
  = ratio_of a b
  ∧ PassiveResult.polarization_ratio self (String a EmptyString) kwargs
    = ratio_of a a
  ∧ PassiveResult.polarization_ratio self EmptyString kwargs = inl IndexError.
Proof.
  intros ratio_of. subst ratio_of. split; [|split; [|done]].
  - unfold PassiveResult.polarization_ratio, Result.squeezed.
    change (String a (middle +:+ String b EmptyString))
      with (String a middle +:+ String b EmptyString).
    rewrite last_char_snoc.
    change (PassiveResult.first_char (String a middle +:+ String b EmptyString))
      with (inr (String a EmptyString) : res string).
    cbn [mbind res_bind mret res_ret].
    destruct (PassiveResult.sel_polarization self (String a EmptyString) kwargs)
      as [e|x]; [reflexivity|].
    cbn [mbind res_bind].
    destruct (PassiveResult.sel_polarization self (String b EmptyString) kwargs)
      as [e|y]; [reflexivity|].
    cbn [mbind res_bind]. by destruct (xr_div x y).
  - unfold PassiveResult.polarization_ratio, Result.squeezed.
    change (PassiveResult.first_char (String a EmptyString))
      with (inr (String a EmptyString) : res string).
    change (PassiveResult.last_char (String a EmptyString))
      with (inr (String a EmptyString) : res string).
    cbn [mbind res_bind mret res_ret].
    destruct (PassiveResult.sel_polarization self (String a EmptyString) kwargs)
      as [e|x]; [reflexivity|].
    cbn [mbind res_bind]. by destruct (xr_div x x).
Qed.

Lemma squeeze_squeeze (x : DataArray) : squeeze (squeeze x) = squeeze x.
Proof.
  unfold squeeze. simpl. f_equal.
  - induction (axes x) as [|a l IH]; [done|].
    rewrite filter_cons. destruct (decide (length a.2 ≠ 1%nat)) as [Ha|Ha].
    + rewrite filter_cons. destruct (decide _); [|done]. by rewrite IH.
    + exact IH.
  - rewrite <-(app_nil_r (scalar_coords x ++ _)). rewrite <-app_assoc.
    f_equal. f_equal. rewrite app_nil_l.
    induction (axes x) as [|a l IH]; [done|].
    rewrite filter_cons. destruct (decide (length a.2 ≠ 1%nat)) as [Ha|Ha].
    + destruct a as [name [|v [|w labels]]]; simpl in *;
        [exact IH | done | exact IH].
    + exact IH.
Qed.

(** X16: an array that a squeezing accessor returns is left as it is by
    another squeeze: [_strongsqueeze] applied to its own array output gives
    that array again, and never a number. *)
Theorem strongsqueeze_stable (x y : DataArray) :
  Result._strongsqueeze x = inr (OArray y) →
  Result._strongsqueeze y = inr (OArray y).
Proof.
  unfold Result._strongsqueeze.
  destruct (decide (size (squeeze x) = 1%nat)) as [Hone|Hmany].
  - by destruct (to_float (squeeze x)).
  - intros [= <-]. rewrite squeeze_squeeze.
    by destruct (decide (size (squeeze x) = 1%nat)).
Qed.
End AccessorFacts.

(** X13, witness: the example radiometer has no channel 89V. *)
Lemma unknown_channel_raises_KeyError_witness :
  PassiveResult.Tb Ref.passive (Some "89V") ∅ = inl KeyError.
Proof.
  exact (proj1 (proj2 (unknown_channel_raises_KeyError Ref.passive "89V" ∅
                         eq_refl))).
Defined.

(** X14, witness: 45 degrees on the example active result, given as
    both angles; and, with the library in which -1 does not compare equal
    to itself, that number given as both angles. *)
Lemma theta_and_theta_inc_interchangeable_witness :
  ActiveResult.sel_data Ref.active None (ActiveResult.BStr "natural")
    (<["theta" := Ref.num 45]> (<["theta_inc" := Ref.num 45]> ∅))
  = ActiveResult.sel_data Ref.active None (ActiveResult.BStr "natural")
      (<["theta" := Ref.num 45]> ∅)
  ∧ ActiveResult.sel_data (H0 := Ref.xarray_with_nan) Ref.active None
      (ActiveResult.BStr "natural")
      (<["theta" := Ref.num (-1)]> (<["theta_inc" := Ref.num (-1)]> ∅))
    = inl (SMRTError
             "theta and theta_inc must be the same when returning backscatter").
Proof.
  split.
  - apply (proj1 (proj2 (theta_and_theta_inc_interchangeable Ref.active
                           (ActiveResult.BStr "natural") ∅ (Ref.num 45)
                           eq_refl (lookup_empty _) (lookup_empty _)))).
    right. reflexivity.
  - apply (proj2 (proj2 (theta_and_theta_inc_interchangeable
                           (H0 := Ref.xarray_with_nan) Ref.active
                           (ActiveResult.BStr "natural") ∅ (Ref.num (-1))
                           eq_refl (lookup_empty _) (lookup_empty _)))).
    + discriminate.
    + reflexivity.
Defined.

(** X16, witness: the data of the example radiometer result. *)
Lemma strongsqueeze_stable_witness :
  ∃ y, Result._strongsqueeze (data Ref.passive) = inr (OArray y)
       ∧ Result._strongsqueeze y = inr (OArray y).
Proof.
  eexists. split; [vm_compute; reflexivity|].
  apply (strongsqueeze_stable (data Ref.passive)).
  vm_compute. reflexivity.
Defined.

(** ** The atmosphere argument and repeated tagging *)

Section RunnerExtensionality.
Context {A R : Type}.

(** A runner only applies the unit function to the argument tuples it is
    given. *)
Lemma call_runner_ext (r : Model.runner) (f g : A → res R) (l : list A) :
  (∀ x, x ∈ l → f x = g x) →
  Model.call_runner r f l = Model.call_runner r g l.
Proof.
  intros Hfg. destruct r as [pb| |chunk]; simpl.
  - by apply mapM_res_ext.
  - unfold Runner.JoblibParallelRunner, Runner.Parallel.
    rewrite !mapM_res_fmap. by apply mapM_res_ext.
  - unfold Runner.DaskParallelRunner.
    destruct (range 0 (len l) chunk) as [e|starts]; simpl; [done|].
    f_equal. generalize (@nil (res R)).
    induction starts as [|i starts IH]; intros acc; simpl; [done|].
    rewrite IH. do 2 f_equal. unfold Runner.client_map.
    apply Forall_fmap_ext_1, Forall_forall.
    intros x Hx. apply Hfg. by apply elem_of_slice in Hx.
Qed.
End RunnerExtensionality.

Section AtmosphereFacts.
Context `{XArray} {Snowpack Atmosphere : Type}.
Implicit Types (sensor : Model.Sensor).

(** X17: [run] never hands an atmosphere to a unit: what it returns
    depends on the unit function only through its values at
    [atmosphere = None], for every sensor, snowpack argument, runner and
    flag, and also when an atmosphere is passed to [run] (which is then
    refused). *)
Theorem run_units_get_no_atmosphere
    (f g : Model.Sensor * Snowpack → option Atmosphere → res Result)
    broadcast_capability sensor (snowpack : Model.snowpack_arg)
    atmosphere snowpack_dimension (progressbar parallel_computation : bool)
    runner_arg :
  (∀ simul, f simul None = g simul None) →
  Model.run f broadcast_capability sensor snowpack atmosphere
    snowpack_dimension progressbar parallel_computation runner_arg
  = Model.run g broadcast_capability sensor snowpack atmosphere
      snowpack_dimension progressbar parallel_computation runner_arg.
Proof.
  intros Hfg. unfold Model.run.
  destruct (decide (is_Some atmosphere)) as [Hatm|Hatm]; [done|].
  assert (atmosphere = None) as ->.
  { destruct atmosphere; [|done]. exfalso. apply Hatm. by eexists. }
  destruct (Model.prepare_simulations _ _ _ _) as [e|[sims dims]]; simpl;
    [done|].
  match goal with
  | |- (?pick ≫= _) = _ => destruct pick as [e|r]; simpl; [done|]
  end.
  destruct sims as [e|sims]; simpl; [done|].
  rewrite (call_runner_ext r _ (λ args, g args.1 args.2)); [done|].
  intros [simul atm] Hin. simpl.
  apply list_elem_of_fmap in Hin as (s & [= -> ->] & _). apply Hfg.
Qed.
End AtmosphereFacts.

(** X17, witness: a unit function that would raise on an atmosphere. *)
Lemma run_units_get_no_atmosphere_witness :
  Model.run (Atmosphere := unit)
    (λ _ atm, match atm with None => inr Ref.at37 | Some _ => inl TypeError end)
    [] Ref.radiometer (Model.SnowpackList [1; 2]%nat) None None
    false false None
  = Model.run (Atmosphere := unit) (λ _ _, inr Ref.at37)
      [] Ref.radiometer (Model.SnowpackList [1; 2]%nat) None None
      false false None.
Proof.
  apply (run_units_get_no_atmosphere (Atmosphere := unit)
           (λ _ atm, match atm with
                     | None => inr Ref.at37
                     | Some _ => inl TypeError
                     end)
           (λ _ _, inr Ref.at37)).
  reflexivity.
Defined.

Section RetagFacts.
Context `{XArray}.

(** Tagging raises nothing but [TypeError], and an error of an earlier
    result is kept. *)
Lemma merge_channel_maps_step_fails
    (pairs rest : list (Result * atom)) (r : Result) (dv : atom) :
  Result.tag_channels (channel_map r) dv = inl TypeError →
  foldl (λ acc rdv,
           acc ← acc;
           tagged ← Result.tag_channels (channel_map rdv.1) rdv.2;
           mret (tagged ∪ acc))
        (mret ∅) (pairs ++ (r, dv) :: rest)
  = inl TypeError.
Proof.
  intros Hr.
  assert (Hkeep : ∀ l,
    foldl (λ acc (rdv : Result * atom),
             acc ← acc;
             tagged ← Result.tag_channels (channel_map rdv.1) rdv.2;
             mret (tagged ∪ acc))
          (inl TypeError) l = inl TypeError).
  { induction l as [|x l IH]; [done|]. exact IH. }
  rewrite foldl_app. simpl.
  destruct (foldl _ _ pairs) as [e|acc] eqn:Hacc; simpl.
  - assert (e = TypeError) as ->; [|apply Hkeep].
    clear -Hacc. revert e Hacc.
    induction pairs as [|[r' dv'] pairs IH] using rev_ind; intros e; [done|].
    rewrite foldl_app. simpl.
    destruct (foldl _ _ pairs) as [e'|acc]; simpl.
    + intros [= <-]. by apply IH.
    + unfold Result.tag_channels. destruct (decide _); simpl; [done|].
      by intros [= <-].
  - rewrite Hr. simpl. apply Hkeep.
Qed.

(** X18: tagging cannot be repeated.  When results of one class with
    differing channel maps are concatenated along a (name, values)
    dimension, and a channel of one of the results that has a value in
    [values] already carries the key [dim_name] (as every channel does
    after such a concatenation), the call raises [TypeError]. *)
Theorem concat_results_cannot_retag (result_list : list Result)
    (dim_name : string) (dim_value : list atom) (r0 r : Result) (dv : atom)
    (ch : string) (m : gmap string pyval) :
  head result_list = Some r0 →
  (∀ r', r' ∈ result_list → type r' = type r0) →
  (∃ r', r' ∈ result_list ∧ channel_map r' ≠ channel_map r0) →
  (r, dv) ∈ zip result_list dim_value →
  channel_map r !! ch = Some m →
  is_Some (m !! "dim_name") →
  Result.concat_results result_list (CoordTuple dim_name dim_value)
  = inl TypeError.
Proof.
  intros Hhead Htypes (r' & Hr' & Hdiff) Hin Hch Hkey.
  unfold Result.concat_results. simpl.
  destruct result_list as [|r1 l]; [done|]. injection Hhead as ->.
  cbn [mbind res_bind mret res_ret].
  assert (forallb (λ result, bool_decide (type result = type r0)) (r0 :: l)
          = true) as ->.
  { apply forallb_forall. intros x Hx. apply bool_decide_eq_true.
    apply Htypes. by apply list_elem_of_In. }
  assert (existsb (λ r, bool_decide (channel_map r ≠ channel_map r0)) (r0 :: l)
          = true) as ->.
  { apply existsb_exists. exists r'. split; [by apply list_elem_of_In|].
    by apply bool_decide_eq_true. }
  cbn [negb].
  assert (Result.merge_channel_maps (r0 :: l) dim_value = inl TypeError) as ->;
    [|done].
  unfold Result.merge_channel_maps.
  apply list_elem_of_split in Hin as (pairs & rest & ->).
  apply merge_channel_maps_step_fails.
  unfold Result.tag_channels. destruct (decide _) as [Hall|]; [|done].
  exfalso. specialize (Hall ch m Hch). simpl in Hall.
  rewrite Hall in Hkey. by destruct Hkey.
Qed.
End RetagFacts.

(** X18, witness: a result whose channel was tagged before, concatenated
    with the example result at 37 GHz. *)
Lemma concat_results_cannot_retag_witness :
  let tagged :=
    mkResult ClsPassiveResult (data Ref.at19)
      {[ "19V" := {[ "polarization" := VStr "V"; "dim_name" := Ref.num 1 ]} ]} in
  Result.concat_results [tagged; Ref.at37]
    (CoordTuple "time" [ANum 1; ANum 2]%Z)
  = inl TypeError.
Proof.
  intros tagged.
  eapply (concat_results_cannot_retag [tagged; Ref.at37] "time" _ tagged tagged
            _ "19V" _).
  - reflexivity.
  - intros r' Hr'. apply elem_of_cons in Hr' as [->|Hr']; [done|].
    apply elem_of_cons in Hr' as [->|Hr']; [done|by inversion Hr'].
  - exists Ref.at37. split; [right; by left|].
    intros Heq. apply (f_equal (λ cm, cm !! "37V")) in Heq.
    simpl in Heq. rewrite lookup_singleton_eq in Heq.
    by rewrite lookup_singleton_ne in Heq.
  - by left.
  - simpl. apply lookup_singleton_eq.
  - rewrite lookup_insert_ne by done. rewrite lookup_singleton_eq.
    by eexists.
Defined.

(** ** Opening a saved result *)

Section OpenFacts.
Context `{XArray}.
Context (xr_open_dataarray : string → res DataArray).
Context (astype_U1 : DataArray → string → res DataArray).

(** An error of the conversion loop is an error of a conversion. *)
Lemma conversion_loop_error (l : list string) (acc : res DataArray) (e : exn) :
  foldl (λ acc d,
           data ← acc;
           if String.prefix "polarization" d then astype_U1 data d
           else mret data)
        acc l = inl e →
  acc = inl e ∨ ∃ data d, astype_U1 data d = inl e.
Proof.
  revert acc. induction l as [|d l IH]; intros acc; simpl; [by left|].
  intros Hl. apply IH in Hl as [Hstep|Hconv]; [|by right].
  destruct acc as [e'|data]; simpl in Hstep; [by left|].
  destruct (String.prefix "polarization" d); [|done].
  right. by exists data, d.
Qed.

(** X19: [open_result] never returns a result.  Whatever the file
    holds, the call ends in an exception: the one xarray raised while
    reading or converting, and otherwise [AttributeError], because the
    mode that was guessed is a text string and [make_result] reads the
    attribute [mode] of its first argument. *)
Theorem open_result_never_returns (filename : string) :
  is_ok (ResultFactory.open_result xr_open_dataarray astype_U1 filename)
  = false
  ∧ ∀ e, ResultFactory.open_result xr_open_dataarray astype_U1 filename
         = inl e →
         e = AttributeError
         ∨ xr_open_dataarray filename = inl e
         ∨ ∃ data d, astype_U1 data d = inl e.
Proof.
  unfold ResultFactory.open_result.
  destruct (xr_open_dataarray filename) as [e0|data] eqn:Hopen; simpl.
  { split; [done|]. intros e [= <-]. right. by left. }
  destruct (foldl _ _ (dims data)) as [e1|data'] eqn:Hloop; simpl.
  - split; [done|]. intros e [= <-].
    apply conversion_loop_error in Hloop as [Hacc|Hconv]; [done|].
    right. by right.
  - split; [done|]. intros e [= <-]. by left.
Qed.
End OpenFacts.

(** X19, witness: a file that holds the data of the example radiometer
    result. *)
Lemma open_result_never_returns_witness :
  is_ok (ResultFactory.open_result
           (λ _, inr (data Ref.passive)) (λ x _, inr x) "result.nc")
  = false.
Proof.
  exact (proj1 (open_result_never_returns
                  (λ _, inr (data Ref.passive)) (λ x _, inr x) "result.nc")).
Defined.

(** ** Model options and single units *)

Section SetupFacts.
Context `{XArray}.
Context {Sensor Snowpack Layer Atmosphere EMModel : Type}.
Context (layers : Snowpack → list Layer).
Context (sp_atmosphere : Snowpack → option Atmosphere).
Context (emmodels : gmap string (ModelSetup.emmodel_cls
                                   (Sensor := Sensor) (Layer := Layer)
                                   (EMModel := EMModel))).
Context (rtsolvers : gmap string (ModelSetup.solver_cls
                                    (Sensor := Sensor) (Snowpack := Snowpack)
                                    (Atmosphere := Atmosphere)
                                    (EMModel := EMModel))).

(** What construction does to the options and to the store: options that
    are given are held as they are, options that are not given are new
    empty dictionaries at the end of the store, and no dictionary that
    was there is touched. *)
Lemma Model_init_options emmodel rtsolver eo ro h m h' :
  ModelSetup.Model_init emmodels rtsolvers emmodel rtsolver eo ro h
  = inr (m, h') →
  ModelSetup.emmodel_options m
  = default (ModelSetup.OptDict (length h)) eo
  ∧ ModelSetup.rtsolver_options m
    = default (ModelSetup.OptDict
                 (length h + match eo with Some _ => 0 | None => 1 end)%nat) ro
  ∧ h' = h ++ match eo with Some _ => [] | None => [∅] end
           ++ match ro with Some _ => [] | None => [∅] end.
Proof.
  unfold ModelSetup.Model_init.
  match goal with
  | |- (?resolve ≫= _) = _ → _ => destruct resolve as [e|em]; simpl; [done|]
  end.
  match goal with
  | |- (?resolve ≫= _) = _ → _ => destruct resolve as [e|rt]; simpl; [done|]
  end.
  destruct eo as [eo|], ro as [ro|]; simpl; intros [= <- <-]; simpl.
  - by rewrite app_nil_r.
  - by rewrite Nat.add_0_r.
  - done.
  - rewrite length_app. simpl. by rewrite <-app_assoc.
Qed.

Lemma read_update_eq (h : list (gmap string pyval)) (l : nat) kwargs d :
  h !! l = Some d →
  ModelSetup.read (ModelSetup.update l kwargs h) l = kwargs ∪ d.
Proof.
  intros Hl. unfold ModelSetup.read, ModelSetup.update.
  unfold ModelSetup.heap, ModelSetup.loc in *.
  by rewrite list_lookup_alter_eq, Hl.
Qed.

Lemma read_update_ne (h : list (gmap string pyval)) (l l' : nat) kwargs :
  l ≠ l' →
  ModelSetup.read (ModelSetup.update l kwargs h) l' = ModelSetup.read h l'.
Proof.
  intros Hl. unfold ModelSetup.read, ModelSetup.update.
  unfold ModelSetup.heap, ModelSetup.loc in *.
  by rewrite list_lookup_alter_ne.
Qed.

(** X20: a model does not copy the options it is given.  Two models
    built with the same dictionary of emmodel options hold that very
    dictionary: keywords set on the first model with
    [set_emmodel_options] are written into it, so they are options of the
    second model too, and the dictionary of the caller has changed. *)
Theorem options_dict_is_shared em1 rt1 ro1 em2 rt2 ro2
    (l : ModelSetup.loc) (d kwargs : gmap string pyval) h m1 h1 m2 h2 :
  h !! l = Some d →
  ModelSetup.Model_init emmodels rtsolvers em1 rt1 (Some (ModelSetup.OptDict l)) ro1 h = inr (m1, h1) →
  ModelSetup.Model_init emmodels rtsolvers em2 rt2 (Some (ModelSetup.OptDict l)) ro2 h1 = inr (m2, h2) →
  ∃ m1' h3,
    ModelSetup.set_emmodel_options m1 None kwargs h2 = inr (m1', h3)
    ∧ ModelSetup.emmodel_options m2 = ModelSetup.OptDict l
    ∧ ModelSetup.read h3 l = kwargs ∪ d.
Proof.
  intros Hl H1 H2.
  apply Model_init_options in H1 as (He1 & _ & ->).
  apply Model_init_options in H2 as (He2 & _ & ->).
  simpl in He1, He2.
  unfold ModelSetup.set_emmodel_options. simpl. rewrite He1.
  eexists _, _. split; [reflexivity|]. split; [done|].
  apply read_update_eq.
  rewrite <-app_assoc. by apply lookup_app_l_Some.
Qed.

(** X21: models built without options do not share them: each gets a
    dictionary of its own, and keywords set on one model are options of
    that model only. *)
Theorem default_options_are_separate em1 rt1 em2 rt2
    (kwargs : gmap string pyval) h m1 h1 m2 h2 :
  ModelSetup.Model_init emmodels rtsolvers em1 rt1 None None h = inr (m1, h1) →
  ModelSetup.Model_init emmodels rtsolvers em2 rt2 None None h1 = inr (m2, h2) →
  ∃ l1 l2 m1' h3,
    ModelSetup.emmodel_options m1 = ModelSetup.OptDict l1
    ∧ ModelSetup.emmodel_options m2 = ModelSetup.OptDict l2
    ∧ l1 ≠ l2
    ∧ ModelSetup.set_emmodel_options m1 None kwargs h2 = inr (m1', h3)
    ∧ ModelSetup.read h3 l1 = kwargs
    ∧ ModelSetup.read h3 l2 = ∅
    ∧ ∀ l, ModelSetup.rtsolver_options m1 = ModelSetup.OptDict l
           ∨ ModelSetup.rtsolver_options m2 = ModelSetup.OptDict l →
           ModelSetup.read h3 l = ∅.
Proof.
  intros H1 H2.
  apply Model_init_options in H1 as (He1 & Hr1 & ->).
  apply Model_init_options in H2 as (He2 & Hr2 & ->).
  simpl in *. rewrite length_app in He2, Hr2. simpl in He2, Hr2.
  exists (length h), (length h + 2)%nat.
  unfold ModelSetup.set_emmodel_options. simpl. rewrite He1.
  eexists _, _. split; [done|]. split; [done|]. split; [lia|].
  split; [reflexivity|].
  unfold ModelSetup.heap, ModelSetup.loc in *.
  assert (Hlook : ∀ k, (k < 4)%nat →
    ((h ++ [∅; ∅]) ++ [∅; ∅]) !! (length h + k)%nat
    = Some (∅ : gmap string pyval)).
  { intros k Hk. rewrite <-app_assoc. rewrite lookup_app_r by lia.
    replace (length h + k - length h)%nat with k by lia.
    by destruct k as [|[|[|[|k]]]]; [..|lia]. }
  split.
  { rewrite (read_update_eq _ _ _ ∅).
    - apply (right_id ∅ (∪)).
    - specialize (Hlook 0%nat). rewrite Nat.add_0_r in Hlook.
      apply Hlook. lia. }
  split.
  { rewrite read_update_ne by lia. unfold ModelSetup.read.
    unfold ModelSetup.heap, ModelSetup.loc in *.
    rewrite Hlook by lia. done. }
  intros l [Hl|Hl].
  - rewrite Hr1 in Hl. injection Hl as <-.
    rewrite read_update_ne by lia. unfold ModelSetup.read.
    unfold ModelSetup.heap, ModelSetup.loc in *.
    rewrite Hlook by lia. done.
  - rewrite Hr2 in Hl. injection Hl as <-.
    rewrite read_update_ne by lia. unfold ModelSetup.read.
    unfold ModelSetup.heap, ModelSetup.loc in *.
    replace (length h + 2 + 1)%nat with (length h + 3)%nat by lia.
    rewrite Hlook by lia. done.
Qed.

(** One model cycled over the layers: every layer is paired with it. *)
Lemma mapM_cycled_from {B}
    (c : ModelSetup.emmodel_cls (Sensor := Sensor) (Layer := Layer)
           (EMModel := EMModel))
    (f : nat * (ModelSetup.emmodel_cls (Sensor := Sensor) (Layer := Layer)
                  (EMModel := EMModel) * Layer) → res B)
    (g : Layer → res B) (l : list Layer) (j : nat → nat) :
  (∀ i layer, f (i, (c, layer)) = g layer) →
  mapM f (imap (λ i x, (j i, x)) (zip (replicate (length l) c) l))
  = mapM g l.
Proof.
  intros Hf. revert j.
  induction l as [|layer l IH]; intros j; simpl; [done|].
  rewrite Hf. destruct (g layer) as [e|y]; simpl; [done|].
  rewrite <-(IH (j ∘ S)). reflexivity.
Qed.

Lemma mapM_cycled_layers {B}
    (c : ModelSetup.emmodel_cls (Sensor := Sensor) (Layer := Layer)
           (EMModel := EMModel))
    (f : nat * (ModelSetup.emmodel_cls (Sensor := Sensor) (Layer := Layer)
                  (EMModel := EMModel) * Layer) → res B)
    (g : Layer → res B) (l : list Layer) :
  (∀ i layer, f (i, (c, layer)) = g layer) →
  mapM f (imap pair (zip (replicate (length l) c) l)) = mapM g l.
Proof. intros Hf. exact (mapM_cycled_from c f g l id Hf). Qed.

(** X22: options set on a model reach the constructors.  For a model
    made of one emmodel class and a solver class without options,
    keywords set with [set_emmodel_options] and [set_rtsolver_options] are
    the keywords every layer model and the solver are constructed with:
    when none of the emmodel keywords is named [emmodel], [sensor] or
    [layer], a unit builds one layer model per layer, in the order of the
    layers, then the solver, and returns what [solve] returns, called with
    the atmosphere of the snowpack when it has one.  A keyword of one of
    these three names makes every unit on a snowpack that has a layer end
    in [TypeError]. *)
Theorem options_reach_constructors
    (c : ModelSetup.emmodel_cls (Sensor := Sensor) (Layer := Layer)
           (EMModel := EMModel))
    (s : ModelSetup.solver_cls (Sensor := Sensor) (Snowpack := Snowpack)
           (Atmosphere := Atmosphere) (EMModel := EMModel))
    (ekw rkw : gmap string pyval) (h : ModelSetup.heap) :
  ∃ m h1 m' h2 m'' h3,
    ModelSetup.Model_init emmodels rtsolvers
      (ModelSetup.EmOne (ModelSetup.EmClass c))
      (Some (ModelSetup.RtClass s)) None None h = inr (m, h1)
    ∧ ModelSetup.set_emmodel_options m None ekw h1 = inr (m', h2)
    ∧ ModelSetup.set_rtsolver_options m' None rkw h2 = inr (m'', h3)
    ∧ ∀ sensor snowpack atmosphere,
        (ekw !! "emmodel" = None → ekw !! "sensor" = None →
         ekw !! "layer" = None →
         ModelSetup.run_single_simulation layers sp_atmosphere emmodels
           m'' (sensor, snowpack) atmosphere h3
         = (emmodel_instances ←
              mapM (λ layer, c sensor layer ekw) (layers snowpack);
            rtsolver ← s rkw;
            Some <$> ModelSetup.solve rtsolver snowpack emmodel_instances
                       sensor
                       (match sp_atmosphere snowpack with
                        | Some a => Some a
                        | None => atmosphere
                        end)))
        ∧ (is_Some (ekw !! "emmodel") ∨ is_Some (ekw !! "sensor")
           ∨ is_Some (ekw !! "layer") →
           layers snowpack ≠ [] →
           ModelSetup.run_single_simulation layers sp_atmosphere emmodels
             m'' (sensor, snowpack) atmosphere h3
           = inl TypeError).
Proof.
  eexists _, _, _, _, _, _.
  split; [reflexivity|]. split; [reflexivity|]. split; [reflexivity|].
  intros sensor snowpack atmosphere.
  unfold ModelSetup.heap, ModelSetup.loc in *.
  assert (He : ModelSetup.read
                 (ModelSetup.update (length (h ++ [∅])) rkw
                    (ModelSetup.update (length h) ekw ((h ++ [∅]) ++ [∅])))
                 (length h) = ekw).
  { rewrite read_update_ne by (rewrite length_app; simpl; lia).
    rewrite (read_update_eq _ _ _ ∅).
    - apply (right_id ∅ (∪)).
    - rewrite <-app_assoc. rewrite lookup_app_r by lia.
      by rewrite Nat.sub_diag. }
  assert (Hr : ModelSetup.read
                 (ModelSetup.update (length (h ++ [∅])) rkw
                    (ModelSetup.update (length h) ekw ((h ++ [∅]) ++ [∅])))
                 (length (h ++ [∅])) = rkw).
  { rewrite (read_update_eq _ _ _ ∅).
    - apply (right_id ∅ (∪)).
    - unfold ModelSetup.update. unfold ModelSetup.heap, ModelSetup.loc.
      rewrite list_lookup_alter_ne by (rewrite length_app; simpl; lia).
      rewrite lookup_app_r by lia. by rewrite Nat.sub_diag. }
  split.
  - intros Hem Hse Hla.
    unfold ModelSetup.run_single_simulation.
    cbn [ModelSetup.emmodel ModelSetup.rtsolver ModelSetup.emmodel_options
         ModelSetup.rtsolver_options mbind res_bind mret res_ret].
    rewrite (mapM_cycled_layers c _ (λ layer, c sensor layer ekw)).
    + destruct (mapM _ (layers snowpack)) as [e|ems]; simpl; [done|].
      by rewrite Hr.
    + intros i layer. simpl. rewrite He. unfold ModelSetup.make_emmodel.
      rewrite Hem, Hse, Hla.
      destruct (decide _) as [[[? [=]]|[[? [=]]|[? [=]]]]|_]. done.
  - intros Hdup Hlayers.
    unfold ModelSetup.run_single_simulation.
    cbn [ModelSetup.emmodel ModelSetup.rtsolver ModelSetup.emmodel_options
         ModelSetup.rtsolver_options mbind res_bind mret res_ret].
    destruct (layers snowpack) as [|layer rest]; [done|].
    simpl. rewrite He. unfold ModelSetup.make_emmodel.
    by destruct (decide _).
Qed.

(** X23: a model built with a sequence of emmodels runs only on
    snowpacks with as many layers: on any other snowpack every unit ends
    in [AssertionError], whatever the sensor, the options and the
    solver. *)
Theorem emmodel_list_needs_as_many_layers (ids : list ModelSetup.emmodel_id)
    rtsolver eo ro h m h1 (snowpack : Snowpack) :
  ModelSetup.Model_init emmodels rtsolvers (ModelSetup.EmSeq ids) rtsolver eo ro h = inr (m, h1) →
  ModelSetup.nlayer layers snowpack ≠ length ids →
  ∀ sensor atmosphere h',
    ModelSetup.run_single_simulation layers sp_atmosphere emmodels m (sensor, snowpack) atmosphere h'
    = inl AssertionError.
Proof.
  intros Hinit Hn sensor atmosphere h'.
  unfold ModelSetup.Model_init in Hinit.
  destruct (mapM (ModelSetup.get_emmodel emmodels) ids) as [e|classes] eqn:Hids;
    simpl in Hinit; [done|].
  apply mapM_res_length in Hids.
  match type of Hinit with
  | (?resolve ≫= _) = _ => destruct resolve as [e|rt]; simpl in Hinit; [done|]
  end.
  assert (ModelSetup.emmodel m = ModelSetup.ModelList classes) as Hm.
  { by destruct eo, ro; simpl in Hinit; injection Hinit as <- _. }
  unfold ModelSetup.run_single_simulation. rewrite Hm.
  destruct (decide (length classes = ModelSetup.nlayer layers snowpack));
    [congruence|done].
Qed.

(** X24: a solver object that is not reentrant is accepted when the
    model is built and refused by every unit, but only after the layer
    models were built: a unit ends in the exception of the layer models,
    the one the same model without a solver ends in, and otherwise in
    [SMRTError]. *)
Theorem non_reentrant_solver_refused_late emmodel (s : ModelSetup.solver)
    eo ro h m h1 :
  ModelSetup.reentrant s = false →
  ModelSetup.Model_init emmodels rtsolvers emmodel None eo ro h = inr (m, h1) →
  let with_solver :=
    ModelSetup.mkModel (ModelSetup.emmodel m)
      (Some (ModelSetup.SolverInstance s))
      (ModelSetup.emmodel_options m) (ModelSetup.rtsolver_options m) in
  ModelSetup.Model_init emmodels rtsolvers emmodel (Some (ModelSetup.RtInstance s)) eo ro h
  = inr (with_solver, h1)
  ∧ ∀ simulation atmosphere h',
      match ModelSetup.run_single_simulation layers sp_atmosphere emmodels m simulation atmosphere h' with
      | inl e =>
          ModelSetup.run_single_simulation layers sp_atmosphere emmodels with_solver simulation atmosphere h' = inl e
      | inr _ =>
          ModelSetup.run_single_simulation layers sp_atmosphere emmodels with_solver simulation atmosphere h'
          = inl (SMRTError "This solver can not be used in instance mode without")
      end.
Proof.
  intros Hs Hinit with_solver.
  assert (Hrt : ModelSetup.rtsolver m = None).
  { unfold ModelSetup.Model_init in Hinit.
    match type of Hinit with
    | (?resolve ≫= _) = _ => destruct resolve as [e|em]; simpl in Hinit; [done|]
    end.
    by destruct eo, ro; simpl in Hinit; injection Hinit as <- _. }
  split.
  - unfold ModelSetup.Model_init in *.
    match type of Hinit with
    | (?resolve ≫= _) = _ => destruct resolve as [e|em]; simpl in *; [done|]
    end.
    by destruct eo, ro; simpl in *; injection Hinit as <- <-.
  - intros [sensor snowpack] atmosphere h'.
    unfold ModelSetup.run_single_simulation. subst with_solver.
    cbn [ModelSetup.emmodel ModelSetup.rtsolver ModelSetup.emmodel_options
         ModelSetup.rtsolver_options].
    rewrite Hrt, Hs.
    match goal with
    | |- match (?pick ≫= _) with _ => _ end =>
        destruct pick as [e|l]; simpl; [done|]
    end.
    by destruct (mapM _ _) as [e|ems].
Qed.
End SetupFacts.

(** X20, witness: two models built with one dictionary that holds
    [a = 1]; the keyword [b = 2] is set on the first. *)
Lemma options_dict_is_shared_witness :
  let c : ModelSetup.emmodel_cls (Sensor := unit) (Layer := nat)
            (EMModel := nat) := λ _ layer _, inr layer in
  let h : ModelSetup.heap := [ {[ "a" := Ref.num 1 ]} ] in
  let M : Type :=
    ModelSetup.Model (Sensor := unit) (Snowpack := list nat) (Layer := nat)
      (Atmosphere := unit) (EMModel := nat) in
  ∃ (m1 : M) h1 (m2 : M) h2 (m1' : M) h3,
    ModelSetup.Model_init (Snowpack := list nat) (Atmosphere := unit) ∅ ∅
      (ModelSetup.EmOne (ModelSetup.EmClass c)) None
      (Some (ModelSetup.OptDict 0)) None h = inr (m1, h1)
    ∧ ModelSetup.Model_init ∅ ∅
        (ModelSetup.EmOne (ModelSetup.EmClass c)) None
        (Some (ModelSetup.OptDict 0)) None h1 = inr (m2, h2)
    ∧ ModelSetup.set_emmodel_options m1 None {[ "b" := Ref.num 2 ]} h2
      = inr (m1', h3)
    ∧ ModelSetup.emmodel_options m2 = ModelSetup.OptDict 0
    ∧ ModelSetup.read h3 0
      = {[ "b" := Ref.num 2 ]} ∪ {[ "a" := Ref.num 1 ]}.
Proof.
  intros c h M.
  destruct (options_dict_is_shared (Snowpack := list nat) (Atmosphere := unit)
              ∅ ∅ (ModelSetup.EmOne (ModelSetup.EmClass c)) None None
              (ModelSetup.EmOne (ModelSetup.EmClass c)) None None
              0%nat {[ "a" := Ref.num 1 ]} {[ "b" := Ref.num 2 ]} h
              _ _ _ _ eq_refl eq_refl eq_refl)
    as (m1' & h3 & Hset & Hopt & Hread).
  eexists _, _, _, _, m1', h3.
  split; [reflexivity|]. split; [reflexivity|]. done.
Defined.

(** X21, witness: two models built without options on an empty store. *)
Lemma default_options_are_separate_witness :
  let c : ModelSetup.emmodel_cls (Sensor := unit) (Layer := nat)
            (EMModel := nat) := λ _ layer _, inr layer in
  let M : Type :=
    ModelSetup.Model (Sensor := unit) (Snowpack := list nat) (Layer := nat)
      (Atmosphere := unit) (EMModel := nat) in
  ∃ (m1 : M) h1 (m2 : M) h2 l1 l2 (m1' : M) h3,
    ModelSetup.Model_init (Snowpack := list nat) (Atmosphere := unit) ∅ ∅
      (ModelSetup.EmOne (ModelSetup.EmClass c)) None None None []
    = inr (m1, h1)
    ∧ ModelSetup.Model_init ∅ ∅
        (ModelSetup.EmOne (ModelSetup.EmClass c)) None None None h1
      = inr (m2, h2)
    ∧ ModelSetup.emmodel_options m1 = ModelSetup.OptDict l1
    ∧ ModelSetup.emmodel_options m2 = ModelSetup.OptDict l2
    ∧ ModelSetup.set_emmodel_options m1 None {[ "b" := Ref.num 2 ]} h2
      = inr (m1', h3)
    ∧ ModelSetup.read h3 l1 = {[ "b" := Ref.num 2 ]}
    ∧ ModelSetup.read h3 l2 = ∅.
Proof.
  intros c M.
  destruct (default_options_are_separate (Snowpack := list nat)
              (Atmosphere := unit) ∅ ∅
              (ModelSetup.EmOne (ModelSetup.EmClass c)) None
              (ModelSetup.EmOne (ModelSetup.EmClass c)) None
              {[ "b" := Ref.num 2 ]} [] _ _ _ _ eq_refl eq_refl)
    as (l1 & l2 & m1' & h3 & Ho1 & Ho2 & _ & Hset & Hr1 & Hr2 & _).
  eexists _, _, _, _, l1, l2, m1', h3.
  split; [reflexivity|]. split; [reflexivity|]. done.
Defined.

(** X22, witness: the keyword [b = 2] for the layer models, on a
    snowpack of two layers. *)
Lemma options_reach_constructors_witness :
  let c : ModelSetup.emmodel_cls (Sensor := unit) (Layer := nat)
            (EMModel := nat) := λ _ layer _, inr layer in
  let s : ModelSetup.solver_cls (Sensor := unit) (Snowpack := list nat)
            (Atmosphere := unit) (EMModel := nat) :=
    λ _, inr (ModelSetup.mkSolver true (λ _ _ _ _, inr Ref.at37)) in
  ∃ m h1 m' h2 m'' h3,
    ModelSetup.Model_init ∅ ∅ (ModelSetup.EmOne (ModelSetup.EmClass c))
      (Some (ModelSetup.RtClass s)) None None [] = inr (m, h1)
    ∧ ModelSetup.set_emmodel_options m None {[ "b" := Ref.num 2 ]} h1
      = inr (m', h2)
    ∧ ModelSetup.set_rtsolver_options m' None ∅ h2 = inr (m'', h3)
    ∧ ModelSetup.run_single_simulation (λ snowpack, snowpack) (λ _, None) ∅
        m'' (tt, [1; 2]%nat) None h3
      = inr (Some Ref.at37).
Proof.
  intros c s.
  destruct (options_reach_constructors (λ snowpack, snowpack) (λ _, None)
              ∅ ∅ c s {[ "b" := Ref.num 2 ]} ∅ [])
    as (m & h1 & m' & h2 & m'' & h3 & Hinit & Hse & Hsr & Hrun).
  exists m, h1, m', h2, m'', h3.
  split; [exact Hinit|]. split; [exact Hse|]. split; [exact Hsr|].
  rewrite (proj1 (Hrun tt [1; 2]%nat None)) by done. reflexivity.
Defined.

(** X23, witness: two emmodels and a snowpack of three layers. *)
Lemma emmodel_list_needs_as_many_layers_witness :
  let c : ModelSetup.emmodel_cls (Sensor := unit) (Layer := nat)
            (EMModel := nat) := λ _ layer _, inr layer in
  let M : Type :=
    ModelSetup.Model (Sensor := unit) (Snowpack := list nat) (Layer := nat)
      (Atmosphere := unit) (EMModel := nat) in
  ∃ (m : M) h1,
    ModelSetup.Model_init (Snowpack := list nat) (Atmosphere := unit) ∅ ∅
      (ModelSetup.EmSeq [ModelSetup.EmClass c; ModelSetup.EmClass c])
      None None None [] = inr (m, h1)
    ∧ ModelSetup.run_single_simulation (λ snowpack, snowpack) (λ _, None) ∅
        m (tt, [1; 2; 3]%nat) None h1
      = inl AssertionError.
Proof.
  intros c M. eexists _, _. split; [reflexivity|].
  apply (emmodel_list_needs_as_many_layers (Snowpack := list nat)
           (Atmosphere := unit) (λ snowpack, snowpack) (λ _, None) ∅ ∅
           [ModelSetup.EmClass c; ModelSetup.EmClass c] None None None []
           _ _ [1; 2; 3]%nat eq_refl).
  unfold ModelSetup.nlayer. simpl. lia.
Defined.

(** X24, witness: a solver object without the reentrant flag, on a
    snowpack of two layers. *)
Lemma non_reentrant_solver_refused_late_witness :
  let c : ModelSetup.emmodel_cls (Sensor := unit) (Layer := nat)
            (EMModel := nat) := λ _ layer _, inr layer in
  let s : ModelSetup.solver (Sensor := unit) (Snowpack := list nat)
            (Atmosphere := unit) (EMModel := nat) :=
    ModelSetup.mkSolver false (λ _ _ _ _, inr Ref.at37) in
  let M : Type :=
    ModelSetup.Model (Sensor := unit) (Snowpack := list nat) (Layer := nat)
      (Atmosphere := unit) (EMModel := nat) in
  ∃ (m : M) h1,
    ModelSetup.Model_init ∅ ∅ (ModelSetup.EmOne (ModelSetup.EmClass c))
      (Some (ModelSetup.RtInstance s)) None None [] = inr (m, h1)
    ∧ ModelSetup.run_single_simulation (λ snowpack, snowpack) (λ _, None) ∅
        m (tt, [1; 2]%nat) None h1
      = inl (SMRTError "This solver can not be used in instance mode without").
Proof.
  intros c s M. eexists _, _. split; [reflexivity|].
  exact (proj2 (non_reentrant_solver_refused_late (λ snowpack, snowpack)
                  (λ _, None) ∅ ∅ (ModelSetup.EmOne (ModelSetup.EmClass c))
                  s None None [] _ _ eq_refl eq_refl)
               (tt, [1; 2]%nat) None [∅; ∅]).
Defined.
